(** * The PointFive hub scraper (api/scrape_hub.js): extraction engine,
      record assembler, discovery and batch handler; with the batch runner
      that calls it (scripts/run_scrape_batch.js) and the earlier variant
      of the scraper.

    JavaScript strings are sequences of UTF-16 code units, the parsed
    document is a tree of text, comment and element nodes, JavaScript
    objects are association lists of property names and values, and the
    effects of the handler (network, clock, console) are threaded through
    an explicit world. *)

From Stdlib Require Import List Bool Arith NArith ZArith Lia.
From Stdlib Require Import String Ascii Decimal DecimalString DecimalN.
From Stdlib Require Import Permutation Sorted.
Import ListNotations.

(** ** JavaScript strings *)

Module Js.

(** A string is a list of UTF-16 code units. *)
Definition char := N.
Definition jsstring := list char.

(** The code units of an ASCII literal of the source. *)
Definition lit (s : string) : jsstring :=
  map N_of_ascii (list_ascii_of_string s).

(** [a === b] on strings. *)
Fixpoint str_eqb (a b : jsstring) : bool :=
  match a, b with
  | [], [] => true
  | x :: a', y :: b' => N.eqb x y && str_eqb a' b'
  | _, _ => false
  end.

(** [!s] on a string: the empty string is the only falsy one. *)
Definition is_empty (s : jsstring) : bool :=
  match s with [] => true | _ :: _ => false end.

(** WhiteSpace and LineTerminator code points of ECMAScript: what
    [String.prototype.trim] strips and what [\s] matches. *)
Definition is_space (c : char) : bool :=
  ((9 <=? c) && (c <=? 13) || (c =? 32) || (c =? 160) || (c =? 5760)
   || (8192 <=? c) && (c <=? 8202) || (c =? 8232) || (c =? 8233)
   || (c =? 8239) || (c =? 8287) || (c =? 12288) || (c =? 65279))%N.

Fixpoint trimStart (s : jsstring) : jsstring :=
  match s with
  | [] => []
  | c :: s' => if is_space c then trimStart s' else s
  end.

Fixpoint trimEnd (s : jsstring) : jsstring :=
  match s with
  | [] => []
  | c :: s' =>
      match trimEnd s' with
      | [] => if is_space c then [] else [c]
      | r => c :: r
      end
  end.

(** [s.trim()] *)
Definition trim (s : jsstring) : jsstring := trimEnd (trimStart s).

(** [s.startsWith(p)] *)
Fixpoint startsWith (s p : jsstring) : bool :=
  match p, s with
  | [], _ => true
  | _ :: _, [] => false
  | y :: p', x :: s' => N.eqb x y && startsWith s' p'
  end.

(** [s.includes(p)] *)
Fixpoint includes (s p : jsstring) : bool :=
  startsWith s p ||
  match s with
  | [] => false
  | _ :: s' => includes s' p
  end.

(** [arr.includes(v)] on an array of strings. *)
Definition arr_includes (arr : list jsstring) (v : jsstring) : bool :=
  existsb (str_eqb v) arr.

Definition slash : char := 47%N.
Definition space : char := 32%N.

(** [s.split("/")]: the segments between slashes; never the empty array. *)
Fixpoint split_slash (s : jsstring) : list jsstring :=
  match s with
  | [] => [[]]
  | c :: s' =>
      if N.eqb c slash then [] :: split_slash s'
      else match split_slash s' with
           | [] => [[c]]
           | seg :: segs => (c :: seg) :: segs
           end
  end.

(** [s.replace(/\/+$/, "")]: the leftmost match of [\/+$] is the whole
    run of slashes that ends the string. *)
Fixpoint strip_trailing_slashes (s : jsstring) : jsstring :=
  match s with
  | [] => []
  | c :: s' =>
      match strip_trailing_slashes s' with
      | [] => if N.eqb c slash then [] else [c]
      | r => c :: r
      end
  end.

(** [s.replace(/\s+/g, " ")]: every maximal run of white space becomes one
    space; [in_run] tells that the previous code unit was white space. *)
Fixpoint collapse_from (in_run : bool) (s : jsstring) : jsstring :=
  match s with
  | [] => []
  | c :: s' =>
      if is_space c
      then if in_run then collapse_from true s'
           else space :: collapse_from true s'
      else c :: collapse_from false s'
  end.

Definition collapse_spaces (s : jsstring) : jsstring := collapse_from false s.

(** [arr.join(" ")] *)
Fixpoint join_space (arr : list jsstring) : jsstring :=
  match arr with
  | [] => []
  | [s] => s
  | s :: arr' => s ++ space :: join_space arr'
  end.

(** [a < b] on strings: the order of the code units, a proper prefix first. *)
Fixpoint str_ltb (a b : jsstring) : bool :=
  match a, b with
  | _, [] => false
  | [], _ :: _ => true
  | x :: a', y :: b' => N.ltb x y || (N.eqb x y && str_ltb a' b')
  end.

(** [arr.sort()] on an array of strings, with the default comparison: the
    result is the arrangement in ascending order, built here by insertion. *)
Fixpoint sort_insert (x : jsstring) (sorted : list jsstring) : list jsstring :=
  match sorted with
  | [] => [x]
  | y :: sorted' => if str_ltb y x then y :: sort_insert x sorted' else x :: sorted
  end.

Fixpoint sort (arr : list jsstring) : list jsstring :=
  match arr with
  | [] => []
  | x :: arr' => sort_insert x (sort arr')
  end.

(** [arr.slice(0, n)] for a number [n > 0]. *)
Definition slice_to (arr : list jsstring) (n : Z) : list jsstring :=
  firstn (Z.to_nat n) arr.

(** A [Set] of strings: its elements in insertion order; [set.add(x)]. *)
Definition set_add (x : jsstring) (set : list jsstring) : list jsstring :=
  if arr_includes set x then set else set ++ [x].

Definition is_digit (c : char) : bool := ((48 <=? c) && (c <=? 57))%N.

(** The digits at the front of [s], read in base ten onto [acc]; [seen]
    tells that at least one digit was read. *)
Fixpoint parse_digits (seen : bool) (acc : Z) (s : jsstring) : option Z :=
  match s with
  | c :: s' =>
      if is_digit c
      then parse_digits true (10 * acc + Z.of_N (c - 48)) s'
      else if seen then Some acc else None
  | [] => if seen then Some acc else None
  end.

(** [parseInt(s, 10)], [None] for [NaN]: leading white space is skipped, a
    sign is read, then digits up to the first other code unit. Numbers are
    whole numbers here: the result is that of JavaScript for digits that
    read below 2^53, above which JavaScript rounds. *)
Definition parseInt (s : jsstring) : option Z :=
  match trimStart s with
  | c :: s' =>
      if N.eqb c 45 then option_map Z.opp (parse_digits false 0 s')
      else if N.eqb c 43 then parse_digits false 0 s'
      else parse_digits false 0 (c :: s')
  | [] => None
  end.

(** [parts[parts.length - 1]], [undefined] read as [d]. *)
Definition last_of (parts : list jsstring) (d : jsstring) : jsstring :=
  last parts d.

End Js.
Import Js.

(** ** The parsed document *)

Module Dom.

(** A node of the parsed tree: a text node with its data, a comment, or an
    element with its local name, attributes and children. *)
#[warnings="-register-all"] Inductive node : Type :=
| Text (data : jsstring)
| Comment (data : jsstring)
| Element (localName : jsstring) (attributes : list (jsstring * jsstring))
          (childNodes : list node).

(** A document as the HTML parser builds it: the children of [head] and of
    [body] under the root [html] element. *)
Record document : Type := {
  doc_head : list node;
  doc_body : list node
}.

Definition body (d : document) : node := Element (lit "body") [] (doc_body d).
Definition documentElement (d : document) : node :=
  Element (lit "html") [] [Element (lit "head") [] (doc_head d); body d].

(** What the text walker stands on: a text node, with the chain of its
    enclosing elements, nearest first ([parentElement] is the head, the
    [parentElement] of the root is [null]). *)
Record text_node : Type := {
  nodeValue : jsstring;
  ancestors : list node
}.

(** Text nodes below [n] in document order; [anc] are the elements that
    enclose [n]. *)
Fixpoint text_nodes (anc : list node) (n : node) : list text_node :=
  match n with
  | Text d => [{| nodeValue := d; ancestors := anc |}]
  | Comment _ => []
  | Element _ _ cs => flat_map (text_nodes (n :: anc)) cs
  end.

(** The nodes [walker.nextNode()] visits for
    [document.createTreeWalker(document.body, NodeFilter.SHOW_TEXT)]. *)
Definition createTreeWalker (d : document) : list text_node :=
  text_nodes [documentElement d] (body d).

(** [node.textContent] *)
Fixpoint textContent (n : node) : jsstring :=
  match n with
  | Text d => d
  | Comment _ => []
  | Element _ _ cs => flat_map textContent cs
  end.

(** [el.getAttribute(name)] *)
Fixpoint getAttribute (attrs : list (jsstring * jsstring)) (name : jsstring)
  : option jsstring :=
  match attrs with
  | [] => None
  | (k, v) :: attrs' => if str_eqb k name then Some v else getAttribute attrs' name
  end.

(** The element descendants of [n] in document order, [n] excluded. *)
Fixpoint descendants (n : node) : list node :=
  match n with
  | Element _ _ cs => flat_map (fun c =>
      match c with
      | Element _ _ _ => c :: descendants c
      | _ => []
      end) cs
  | _ => []
  end.

Definition has_tag (tag : jsstring) (n : node) : bool :=
  match n with
  | Element name _ _ => str_eqb name tag
  | _ => false
  end.

(** [el.querySelectorAll(tag)] and [el.querySelector(tag)] for a type
    selector. *)
Definition querySelectorAll (tag : jsstring) (n : node) : list node :=
  filter (has_tag tag) (descendants n).

Definition querySelector (tag : jsstring) (n : node) : option node :=
  hd_error (querySelectorAll tag n).

(** The first element with tag [tag] below [n] in document order, with the
    nodes that follow it under its parent ([nextSibling] onwards). *)
Fixpoint first_with_siblings (tag : jsstring) (n : node) : option (node * list node) :=
  match n with
  | Element _ _ cs =>
      (fix scan (l : list node) : option (node * list node) :=
         match l with
         | [] => None
         | c :: rest =>
             if has_tag tag c then Some (c, rest)
             else match first_with_siblings tag c with
                  | Some found => Some found
                  | None => scan rest
                  end
         end) cs
  | _ => None
  end.

(** [el.querySelectorAll("a[href]")] *)
Definition is_anchor_with_href (n : node) : bool :=
  match n with
  | Element name attrs _ =>
      str_eqb name (lit "a") &&
      match getAttribute attrs (lit "href") with Some _ => true | None => false end
  | _ => false
  end.

Definition querySelectorAll_a_href (n : node) : list node :=
  filter is_anchor_with_href (descendants n).

End Dom.
Import Dom.

(** ** Results of code that can throw *)

(** A JavaScript [Error]: its name and its message. *)
Record error : Type := { name : jsstring; message : jsstring }.

(** [new Error(msg)] *)
Definition Error (msg : jsstring) : error := {| name := lit "Error"; message := msg |}.

Inductive result (A : Type) : Type :=
| Ok (a : A)
| Throw (e : error).
Arguments Ok {A} a.
Arguments Throw {A} e.

Definition rbind {A B : Type} (r : result A) (k : A -> result B) : result B :=
  match r with
  | Ok a => k a
  | Throw e => Throw e
  end.

Notation "x <~ r ;; k" := (rbind r (fun x => k))
  (at level 61, r at next level, right associativity).

(** ** The extraction engine *)

Module Engine.

Definition BASE_URL : jsstring := lit "https://hub.pointfive.co".

(** Section titles we expect on detail pages. *)
Definition SECTION_TITLES : list jsstring :=
  [ lit "Explanation";
    lit "Relevant Billing Model";
    lit "Detection";
    lit "Remediation";
    lit "Relevant Documentation" ].

(** [textValue(node)]: the trimmed value of a text node, [""] when the value
    is empty. *)
Definition textValue (node : text_node) : jsstring :=
  if is_empty (nodeValue node) then [] else trim (nodeValue node).

(** The loop of [findFieldValue]: [seenLabel] is the flag of the source, a
    [return] ends the walk. *)
Fixpoint findFieldValue_loop (labelText : jsstring) (seenLabel : bool)
    (walker : list text_node) : option jsstring :=
  match walker with
  | [] => None
  | node :: walker' =>
      let value := textValue node in
      if is_empty value then findFieldValue_loop labelText seenLabel walker'
      else if seenLabel then Some value
      else if str_eqb value labelText
           then findFieldValue_loop labelText true walker'
           else findFieldValue_loop labelText seenLabel walker'
  end.

Definition findFieldValue (d : document) (labelText : jsstring) : option jsstring :=
  findFieldValue_loop labelText false (createTreeWalker d).

(** The loop of [extractSectionParagraph], with its two mutable variables;
    [break] returns what was collected. *)
Fixpoint extractSectionParagraph_loop (headingText : jsstring) (inSection : bool)
    (collected : list jsstring) (walker : list text_node) : list jsstring :=
  match walker with
  | [] => collected
  | node :: walker' =>
      let value := textValue node in
      if is_empty value
      then extractSectionParagraph_loop headingText inSection collected walker'
      else if negb inSection
      then if str_eqb value headingText
           then extractSectionParagraph_loop headingText true collected walker'
           else extractSectionParagraph_loop headingText inSection collected walker'
      else if arr_includes SECTION_TITLES value && negb (str_eqb value headingText)
      then collected
      else extractSectionParagraph_loop headingText inSection (collected ++ [value]) walker'
  end.

Definition extractSectionParagraph (d : document) (headingText : jsstring)
  : option jsstring :=
  let collected :=
    extractSectionParagraph_loop headingText false [] (createTreeWalker d) in
  match collected with
  | [] => None
  | _ :: _ => Some (trim (collapse_spaces (join_space collected)))
  end.

(** First loop of [extractSectionList]: the heading text node. *)
Fixpoint find_heading (headingText : jsstring) (walker : list text_node)
  : option text_node :=
  match walker with
  | [] => None
  | node :: walker' =>
      let value := textValue node in
      if is_empty value then find_heading headingText walker'
      else if str_eqb value headingText then Some node
      else find_heading headingText walker'
  end.

(** Second loop: climb [parentElement] until an element has a [ul] below. *)
Fixpoint find_container (chain : list node) : option node :=
  match chain with
  | [] => None
  | container :: parents =>
      match querySelector (lit "ul") container with
      | Some _ => Some container
      | None => find_container parents
      end
  end.

(** The [forEach] over the [li] elements. *)
Fixpoint list_items (listItems : list node) : list jsstring :=
  match listItems with
  | [] => []
  | li :: rest =>
      let text := trim (textContent li) in
      if is_empty text then list_items rest else text :: list_items rest
  end.

Definition extractSectionList (d : document) (headingText : jsstring)
  : list jsstring :=
  match find_heading headingText (createTreeWalker d) with
  | None => []
  | Some foundHeading =>
      match find_container (ancestors foundHeading) with
      | None => []
      | Some container =>
          match querySelector (lit "ul") container with
          | None => []
          | Some ul => list_items (querySelectorAll (lit "li") ul)
          end
      end
  end.

End Engine.
Import Engine.

(** ** JavaScript values, as far as records are built of them *)

Module Value.

(** [undefined], [null], booleans, (integer) numbers, strings, arrays and
    plain objects whose properties are kept in insertion order. *)
#[warnings="-register-all"] Inductive value : Type :=
| VUndefined
| VNull
| VBool (b : bool)
| VNum (n : Z)
| VStr (s : jsstring)
| VArr (items : list value)
| VObj (props : list (jsstring * value)).

(** The error of reading a property of [undefined] or calling what is not
    a function; the text of its message is the engine's. *)
Definition TypeError : error :=
  {| name := lit "TypeError"; message := lit "not an object or not a function" |}.

Fixpoint lookup (props : list (jsstring * value)) (k : jsstring) : value :=
  match props with
  | [] => VUndefined
  | (k', v) :: props' => if str_eqb k' k then v else lookup props' k
  end.

(** [v.k] for the property names of a record: reading a property of
    [undefined] or [null] throws, a property an object does not have (and
    one of these names on a primitive or an array) is [undefined]. *)
Definition get (v : value) (k : string) : result value :=
  match v with
  | VUndefined | VNull => Throw TypeError
  | VObj props => Ok (lookup props (lit k))
  | _ => Ok VUndefined
  end.

(** [v?.k] *)
Definition get_opt (v : value) (k : string) : value :=
  match v with
  | VObj props => lookup props (lit k)
  | _ => VUndefined
  end.

(** The truth value of [v] in a condition. *)
Definition truthy (v : value) : bool :=
  match v with
  | VUndefined | VNull => false
  | VBool b => b
  | VNum n => negb (Z.eqb n 0)
  | VStr s => negb (is_empty s)
  | VArr _ | VObj _ => true
  end.

(** [a ?? b] *)
Definition nullish (v : value) : bool :=
  match v with
  | VUndefined | VNull => true
  | _ => false
  end.

Definition coalesce (a b : value) : value := if nullish a then b else a.

(** [typeof v === 'string'] *)
Definition is_string (v : value) : bool :=
  match v with VStr _ => true | _ => false end.

(** [Array.isArray(v)] *)
Definition isArray (v : value) : bool :=
  match v with VArr _ => true | _ => false end.

(** [v.startsWith(p)]: a method of strings only; calling it on another
    truthy value throws (there is no such method). *)
Definition value_startsWith (v : value) (p : string) : result bool :=
  match v with
  | VStr s => Ok (startsWith s (lit p))
  | _ => Throw TypeError
  end.

(** A string or [null]. *)
Definition of_option (o : option jsstring) : value :=
  match o with Some s => VStr s | None => VNull end.

Definition of_strings (l : list jsstring) : value := VArr (map VStr l).

End Value.
Import Value.

(** ** Effects: network, clock, timers and console *)

Module Effects.

Inductive level : Type := Info | Err | Warn.

(** A line of the structured logger: its level and message (the time stamp
    and the metadata of the line are left out). *)
Record log_entry : Type := { log_level : level; log_message : jsstring }.

(** What [fetch] resolves to, with the body already read and parsed. *)
Record response : Type := {
  status : N;
  statusText : jsstring;
  parsed : document
}.

(** [resp.ok] *)
Definition ok (r : response) : bool := ((200 <=? status r) && (status r <=? 299))%N.

(** The world of a request: a counter of the interactions so far, what the
    network answers to a URL at each of them (a rejection with name
    [AbortError] is the timeout firing), what [new Date().toISOString()]
    reads at each of them, and the console. *)
Record World : Type := {
  tick : nat;
  network : nat -> jsstring -> result response;
  clock : nat -> jsstring;
  console : list log_entry
}.

(** A computation that reads and changes the world and may throw. *)
Definition M (A : Type) : Type := World -> result A * World.

Definition ret {A : Type} (a : A) : M A := fun w => (Ok a, w).

Definition throw {A : Type} (e : error) : M A := fun w => (Throw e, w).

Definition bind {A B : Type} (c : M A) (k : A -> M B) : M B :=
  fun w =>
    match c w with
    | (Ok a, w') => k a w'
    | (Throw e, w') => (Throw e, w')
    end.

(** [try { c } catch (e) { h(e) }] *)
Definition try_catch {A : Type} (c : M A) (h : error -> M A) : M A :=
  fun w =>
    match c w with
    | (Ok a, w') => (Ok a, w')
    | (Throw e, w') => h e w'
    end.

Definition lift {A : Type} (r : result A) : M A := fun w => (r, w).

Notation "x <- c ;; k" := (bind c (fun x => k))
  (at level 61, c at next level, right associativity).
Notation "c ;;; k" := (bind c (fun _ => k))
  (at level 61, right associativity).

Definition advance (w : World) : World :=
  {| tick := S (tick w); network := network w; clock := clock w;
     console := console w |}.

(** [logger.info], [logger.error], [logger.warn] *)
Definition log (l : level) (msg : string) : M unit :=
  fun w =>
    (Ok tt,
     {| tick := tick w; network := network w; clock := clock w;
        console := console w ++ [{| log_level := l; log_message := lit msg |}] |}).

(** [await fetch(url, ...)] followed by [await resp.text()] and
    [new JSDOM(html)]. *)
Definition fetch (url : jsstring) : M response :=
  fun w => (network w (tick w) url, advance w).

(** [await sleep(ms)] *)
Definition sleep (ms : N) : M unit := fun w => (Ok tt, advance w).

(** [new Date().toISOString()] *)
Definition now_iso : M jsstring := fun w => (Ok (clock w (tick w)), w).

(** Decimal digits of a number in a template string. *)
Definition number_to_string (n : N) : jsstring :=
  lit (NilEmpty.string_of_uint (N.to_uint n)).

End Effects.
Import Effects.

(** ** Conversion to string *)

Module Conversion.

(** [String(v)] for a value read from JSON: an array is its elements
    joined by commas, [null] and [undefined] elements as the empty string;
    an object is ["[object Object]"], unless it has a property [toString]
    of its own, which is no function. *)
Fixpoint to_String (v : value) : result jsstring :=
  match v with
  | VUndefined => Ok (lit "undefined")
  | VNull => Ok (lit "null")
  | VBool b => Ok (if b then lit "true" else lit "false")
  | VNum n =>
      Ok (if Z.ltb n 0 then lit "-" ++ number_to_string (Z.to_N (- n))
          else number_to_string (Z.to_N n))
  | VStr s => Ok s
  | VArr items =>
      (fix join (l : list value) : result jsstring :=
         match l with
         | [] => Ok []
         | x :: l' =>
             s <~ (if nullish x then Ok [] else to_String x) ;;
             match l' with
             | [] => Ok s
             | _ :: _ => r <~ join l' ;; Ok (s ++ lit "," ++ r)
             end
         end) items
  | VObj props =>
      if existsb (fun p => str_eqb (fst p) (lit "toString")) props
      then Throw TypeError
      else Ok (lit "[object Object]")
  end.

End Conversion.
Import Conversion.

(** ** The scraper, over the runtime's URL parser and date parser *)

Module Scraper.

(** An entry of [documentation_links]. *)
Record link : Type := { link_title : option jsstring; link_url : jsstring }.

(** The [TypeError] of [new URL(...)] on input that does not parse. *)
Definition InvalidURL : error :=
  {| name := lit "TypeError"; message := lit "Invalid URL" |}.

Definition RelevantDocumentation : jsstring := lit "Relevant Documentation".

(** [(a.textContent || "").trim() || null] *)
Definition anchor_title (a : node) : option jsstring :=
  let t := trim (textContent a) in
  if is_empty t then None else Some t.

(** [if (!links.find(x => x.url === url)) links.push({ title, url })] *)
Definition push_unless_found (links : list link) (l : link) : list link :=
  if existsb (fun x => str_eqb (link_url x) (link_url l)) links
  then links
  else links ++ [l].

Section Runtime.

(** [new URL(url).pathname], [None] when the constructor throws. *)
Variable URL_pathname : jsstring -> option jsstring.

(** [new URL(href, base).toString()], [None] when the constructor throws. *)
Variable URL_resolve : jsstring -> jsstring -> option jsstring.

(** The number [Date.parse(v)] gives once [v] is converted to a string,
    [None] for [NaN]; the conversion itself, which can throw, is
    [to_String]. *)
Variable Date_parse : value -> option Z.

(** Build a slug from a URL (last path segment). *)
Definition slugFromUrl (url : jsstring) : jsstring :=
  match URL_pathname url with
  | Some pathname =>
      let parts := split_slash (strip_trailing_slashes pathname) in
      last_of parts []
  | None => url
  end.

(** [href.startsWith("http") ? href : new URL(href, BASE_URL).toString()] *)
Definition absolute_or_resolved (href : jsstring) : result jsstring :=
  if startsWith href (lit "http") then Ok href
  else match URL_resolve href BASE_URL with
       | Some url => Ok url
       | None => Throw InvalidURL
       end.

(** The first statements of the callback of [anchors.forEach]: the entry an
    anchor stands for, none when its [href] is empty. *)
Definition anchor_entry (a : node) : result (option link) :=
  match a with
  | Element _ attrs _ =>
      match getAttribute attrs (lit "href") with
      | None => Ok None
      | Some href =>
          if is_empty href then Ok None
          else match absolute_or_resolved href with
               | Throw e => Throw e
               | Ok url => Ok (Some {| link_title := anchor_title a; link_url := url |})
               end
      end
  | _ => Ok None
  end.

(** [anchors.forEach(a => ...)] on the array [links]. *)
Fixpoint forEach_anchor (anchors : list node) (links : list link)
  : result (list link) :=
  match anchors with
  | [] => Ok links
  | a :: anchors' =>
      match anchor_entry a with
      | Throw e => Throw e
      | Ok None => forEach_anchor anchors' links
      | Ok (Some l) => forEach_anchor anchors' (push_unless_found links l)
      end
  end.

(** The loop of [extractDocumentationLinks]. *)
Fixpoint extractDocumentationLinks_loop (afterHeading : bool) (links : list link)
    (walker : list text_node) : result (list link) :=
  match walker with
  | [] => Ok links
  | node :: walker' =>
      let value := textValue node in
      if is_empty value
      then extractDocumentationLinks_loop afterHeading links walker'
      else if negb afterHeading
      then if str_eqb value RelevantDocumentation
           then extractDocumentationLinks_loop true links walker'
           else extractDocumentationLinks_loop afterHeading links walker'
      else if arr_includes SECTION_TITLES value
              && negb (str_eqb value RelevantDocumentation)
      then Ok links
      else match ancestors node with
           | [] => extractDocumentationLinks_loop afterHeading links walker'
           | parentEl :: _ =>
               match forEach_anchor (querySelectorAll_a_href parentEl) links with
               | Throw e => Throw e
               | Ok links' =>
                   extractDocumentationLinks_loop afterHeading links' walker'
               end
           end
  end.

Definition extractDocumentationLinks (d : document) : result (list link) :=
  extractDocumentationLinks_loop false [] (createTreeWalker d).


(** *** Validation *)

Record validation : Type := { isValid : bool; errors : list jsstring }.

(** The callback of [data.documentation_links.forEach((link, idx) => ...)]. *)
Fixpoint forEach_link (items : list value) (idx : N) (errors : list jsstring)
  : result (list jsstring) :=
  match items with
  | [] => Ok errors
  | link :: items' =>
      url <~ get link "url" ;;
      errors' <~ (if truthy url
                  then http <~ value_startsWith url "http" ;;
                       Ok (if negb http
                           then errors ++ [lit "Invalid documentation link URL at index "
                                           ++ number_to_string idx]
                           else errors)
                  else Ok errors) ;;
      forEach_link items' (idx + 1)%N errors'
  end.

(** Validate scraped data against expected schema. [Date.parse] converts
    its argument to a string first, which throws on an object that cannot
    be converted. *)
Definition validateScrapedData (data : value) : result validation :=
  id <~ get data "id" ;;
  let errors1 :=
    if negb (truthy id) || negb (is_string id)
    then [lit "Missing or invalid id"] else [] in
  title <~ get data "title" ;;
  let errors2 :=
    if negb (truthy title) || negb (is_string title)
    then errors1 ++ [lit "Missing or invalid title"] else errors1 in
  source <~ get data "source" ;;
  let source_url := get_opt source "url" in
  errors3 <~ (if truthy source_url
              then http <~ value_startsWith source_url "http" ;;
                   Ok (if negb http
                       then errors2 ++ [lit "Invalid source URL format"]
                       else errors2)
              else Ok errors2) ;;
  links <~ get data "documentation_links" ;;
  errors4 <~ (match links with
              | VArr items => forEach_link items 0%N errors3
              | _ => Ok errors3
              end) ;;
  scraped_at <~ get data "scraped_at" ;;
  text <~ (if truthy scraped_at then to_String scraped_at else Ok []) ;;
  let errors5 :=
    if negb (truthy scraped_at)
       || match Date_parse scraped_at with None => true | Some _ => false end
    then errors4 ++ [lit "Missing or invalid scraped_at timestamp"] else errors4 in
  Ok {| isValid := match errors5 with [] => true | _ :: _ => false end;
        errors := errors5 |}.

(** *** Fetching *)

Definition REQUEST_DELAY_MS : N := 300.
Definition FETCH_TIMEOUT_MS : N := 8000.

(** Fetch HTML with timeout and return a JSDOM document. *)
Definition fetchDocument (url : jsstring) : M document :=
  try_catch
    (log Info "Fetching document" ;;;
     resp <- fetch url ;;
     if negb (ok resp)
     then throw (Error (lit "HTTP " ++ number_to_string (status resp)
                        ++ lit " " ++ statusText resp))
     else log Info "Document fetched successfully" ;;;
          ret (parsed resp))
    (fun error =>
       if str_eqb (name error) (lit "AbortError")
       then log Err "Fetch timeout" ;;;
            throw (Error (lit "Fetch timeout after " ++ number_to_string FETCH_TIMEOUT_MS
                          ++ lit "ms: " ++ url))
       else log Err "Fetch failed" ;;;
            throw (Error (lit "Failed to fetch " ++ url ++ lit ": " ++ message error))).

(** *** Schema mapping *)

Definition ORIGIN : jsstring := lit "pointfive_cloud_efficiency_hub".

Definition array_or_empty (v : value) : value :=
  if isArray v then v else VArr [].

Definition mapToSchema (raw : value) : M value :=
  id <- lift (get raw "id") ;;
  title <- lift (get raw "title") ;;
  author <- lift (get raw "author") ;;
  service_category <- lift (get raw "service_category") ;;
  cloud_provider <- lift (get raw "cloud_provider") ;;
  service_name <- lift (get raw "service_name") ;;
  inefficiency_type <- lift (get raw "inefficiency_type") ;;
  explanation <- lift (get raw "explanation") ;;
  billing_model <- lift (get raw "billing_model") ;;
  detection_signals <- lift (get raw "detection_signals") ;;
  remediation_actions <- lift (get raw "remediation_actions") ;;
  documentation_links <- lift (get raw "documentation_links") ;;
  tags <- lift (get raw "tags") ;;
  source <- lift (get raw "source") ;;
  scraped_at <- lift (get raw "scraped_at") ;;
  scraped_at' <- (if nullish scraped_at
                  then now <- now_iso ;; ret (VStr now)
                  else ret scraped_at) ;;
  ret (VObj
    [ (lit "id", coalesce id VNull);
      (lit "title", coalesce title VNull);
      (lit "author", coalesce author VNull);
      (lit "service_category", coalesce service_category VNull);
      (lit "cloud_provider", coalesce cloud_provider VNull);
      (lit "service_name", coalesce service_name VNull);
      (lit "inefficiency_type", coalesce inefficiency_type VNull);
      (lit "explanation", coalesce explanation (VStr []));
      (lit "billing_model", coalesce billing_model (VStr []));
      (lit "detection_signals", array_or_empty detection_signals);
      (lit "remediation_actions", array_or_empty remediation_actions);
      (lit "documentation_links", array_or_empty documentation_links);
      (lit "tags", array_or_empty tags);
      (lit "source",
       VObj [ (lit "url", coalesce (get_opt source "url") VNull);
              (lit "origin", VStr ORIGIN) ]);
      (lit "scraped_at", scraped_at') ]).

(** *** One detail page *)

(** The text value of a DOM node that is a text node. *)
Definition textValue_of (data : jsstring) : jsstring :=
  textValue {| nodeValue := data; ancestors := [] |}.

(** The fallback title: the first non-empty text of the body. *)
Fixpoint first_text (walker : list text_node) : option jsstring :=
  match walker with
  | [] => None
  | node :: walker' =>
      let value := textValue node in
      if is_empty value then first_text walker' else Some value
  end.

(** The walk over [h1.nextSibling], [node.nextSibling], ... for the author. *)
Fixpoint author_loop (title : option jsstring) (siblings : list node)
  : option jsstring :=
  match siblings with
  | [] => None
  | Text data :: rest =>
      let val := textValue_of data in
      if negb (is_empty val) && negb (arr_includes SECTION_TITLES val)
      then Some val
      else author_loop title rest
  | (Element _ _ _ as node) :: rest =>
      let val := trim (textContent node) in
      if negb (is_empty val)
         && negb (match title with Some t => str_eqb val t | None => false end)
         && negb (arr_includes SECTION_TITLES val)
      then Some val
      else author_loop title rest
  | Comment _ :: rest => author_loop title rest
  end.

Definition link_value (l : link) : value :=
  VObj [ (lit "title", of_option (link_title l)); (lit "url", VStr (link_url l)) ].

(** Parse a single inefficiency detail page and return a normalized record. *)
Definition parseInefficiencyDetail (url : jsstring) : M value :=
  document <- fetchDocument url ;;
  let h1 := first_with_siblings (lit "h1") (documentElement document) in
  let title :=
    match h1 with
    | Some (el, _) =>
        if negb (is_empty (textContent el)) then Some (trim (textContent el))
        else first_text (createTreeWalker document)
    | None => first_text (createTreeWalker document)
    end in
  let author :=
    match h1 with
    | Some (_, siblings) => author_loop title siblings
    | None => None
    end in
  let serviceCategory := findFieldValue document (lit "Service Category") in
  let cloudProvider := findFieldValue document (lit "Cloud Provider") in
  let serviceName := findFieldValue document (lit "Service Name") in
  let inefficiencyType := findFieldValue document (lit "Inefficiency Type") in
  let explanation := extractSectionParagraph document (lit "Explanation") in
  let billingModel := extractSectionParagraph document (lit "Relevant Billing Model") in
  let detectionSignals := extractSectionList document (lit "Detection") in
  let remediationActions := extractSectionList document (lit "Remediation") in
  documentationLinks <- lift (extractDocumentationLinks document) ;;
  scraped_at <- now_iso ;;
  mapToSchema (VObj
    [ (lit "id", VStr (slugFromUrl url));
      (lit "title", of_option title);
      (lit "author", of_option author);
      (lit "service_category", of_option serviceCategory);
      (lit "cloud_provider", of_option cloudProvider);
      (lit "service_name", of_option serviceName);
      (lit "inefficiency_type", of_option inefficiencyType);
      (lit "explanation", of_option explanation);
      (lit "billing_model", of_option billingModel);
      (lit "detection_signals", of_strings detectionSignals);
      (lit "remediation_actions", of_strings remediationActions);
      (lit "documentation_links", VArr (map link_value documentationLinks));
      (lit "tags", VArr []);
      (lit "source", VObj [ (lit "url", VStr url); (lit "origin", VStr ORIGIN) ]);
      (lit "scraped_at", VStr scraped_at) ]).

(** *** Discovery of the detail pages *)

(** Safety limit on the number of index pages. *)
Definition MAX_PAGES : nat := 30.

Definition indexUrl (page : nat) : jsstring :=
  if Nat.eqb page 1
  then BASE_URL ++ lit "/hub"
  else BASE_URL ++ lit "/hub?ffbc0c57_page=" ++ number_to_string (N.of_nat page).

(** [anchors.forEach(a => ...)] of one index page on the set [urlsSet] and
    the counter [foundOnThisPage]; when the callback throws, the set stays
    as changed so far. *)
Fixpoint forEach_index_anchor (anchors : list node) (urlsSet : list jsstring)
    (foundOnThisPage : nat) : result nat * list jsstring :=
  match anchors with
  | [] => (Ok foundOnThisPage, urlsSet)
  | a :: anchors' =>
      match a with
      | Element _ attrs _ =>
          match getAttribute attrs (lit "href") with
          | None => forEach_index_anchor anchors' urlsSet foundOnThisPage
          | Some href =>
              if is_empty href
              then forEach_index_anchor anchors' urlsSet foundOnThisPage
              else if includes href (lit "/inefficiencies/")
              then match absolute_or_resolved href with
                   | Throw e => (Throw e, urlsSet)
                   | Ok fullUrl =>
                       forEach_index_anchor anchors' (set_add fullUrl urlsSet)
                                            (S foundOnThisPage)
                   end
              else forEach_index_anchor anchors' urlsSet foundOnThisPage
          end
      | _ => forEach_index_anchor anchors' urlsSet foundOnThisPage
      end
  end.

(** The body of the page loop, [try] and [catch] included: the set after
    the page, and whether the loop ends ([break]). *)
Definition page_body (page : nat) (urlsSet : list jsstring)
  : M (list jsstring * bool) :=
  try_catch
    (document <- fetchDocument (indexUrl page) ;;
     let anchors := querySelectorAll_a_href (documentElement document) in
     match forEach_index_anchor anchors urlsSet 0 with
     | (Throw error, urlsSet') =>
         log Err "Error fetching page" ;;;
         ret (urlsSet', false)
     | (Ok foundOnThisPage, urlsSet') =>
         log Info "Extracted URLs from page" ;;;
         if Nat.eqb foundOnThisPage 0
         then log Info "No more pages to fetch" ;;;
              ret (urlsSet', true)
         else (if Nat.ltb page MAX_PAGES then sleep REQUEST_DELAY_MS else ret tt) ;;;
              ret (urlsSet', false)
     end)
    (fun error =>
       log Err "Error fetching page" ;;;
       ret (urlsSet, false)).

(** [for (let page = ...; page <= MAX_PAGES; page++)], with [remaining] the
    number of values [page] still takes. *)
Fixpoint pages_loop (remaining page : nat) (urlsSet : list jsstring)
  : M (list jsstring) :=
  match remaining with
  | 0 => ret urlsSet
  | S remaining' =>
      step <- page_body page urlsSet ;;
      if snd step then ret (fst step)
      else pages_loop remaining' (S page) (fst step)
  end.

(** Discover inefficiency URLs from the Hub index page; [limit] is a number,
    [None] standing for [NaN]. *)
Definition extractInefficiencyUrls (limit : option Z) : M (list jsstring) :=
  log Info "Starting URL extraction from paginated hub" ;;;
  urlsSet <- pages_loop MAX_PAGES 1 [] ;;
  let urls := sort urlsSet in
  log Info "URL extraction completed" ;;;
  match limit with
  | Some n => if Z.ltb 0 n then ret (slice_to urls n) else ret urls
  | None => ret urls
  end.

(** *** The request handler *)

(** The query of the request: [requestUrl.searchParams.get("url")] and
    [requestUrl.searchParams.get("limit")], [None] for [null]. *)
Record request : Type := {
  urlParam : option jsstring;
  limitParam : option jsstring
}.

(** An entry of the error list of a batch. *)
Record error_entry : Type := {
  entry_url : jsstring;
  entry_error : jsstring;
  entry_index : nat
}.

(** What the handler sends (the request id and the duration are left out). *)
Inductive http_response : Type :=
| SingleRecord (record : value)
| SingleFailure (url details : jsstring)
| DiscoveryFailure (details : jsstring)
| Batch (count total failed : nat) (urls : list jsstring) (items : list value)
        (errors : option (list error_entry))
| Unexpected (details : jsstring).

(** [limitParam ? parseInt(limitParam, 10) : 5] *)
Definition request_limit (req : request) : option Z :=
  match limitParam req with
  | Some s => if is_empty s then Some 5%Z else parseInt s
  | None => Some 5%Z
  end.

(** The body of the [try] of the batch loop up to [results.push(record)]. *)
Definition scrape_one (url : jsstring) : M value :=
  log Info "Scraping URL" ;;;
  record <- parseInefficiencyDetail url ;;
  validation <- lift (validateScrapedData record) ;;
  (if negb (isValid validation) then log Warn "Data validation warnings" else ret tt) ;;;
  ret record.

(** [for (let i = 0; i < urls.length; i++)] over the rest of [urls], with
    the two accumulating arrays. *)
Fixpoint batch_loop (urls : list jsstring) (i : nat) (results : list value)
    (errors : list error_entry) : M (list value * list error_entry) :=
  match urls with
  | [] => ret (results, errors)
  | url :: urls' =>
      (if Nat.ltb 0 i then sleep REQUEST_DELAY_MS else ret tt) ;;;
      step <- try_catch
                (record <- scrape_one url ;;
                 log Info "URL scraped successfully" ;;;
                 ret (results ++ [record], errors))
                (fun error =>
                   log Err "Failed to scrape URL" ;;;
                   ret (results,
                        errors ++ [{| entry_url := url;
                                      entry_error := message error;
                                      entry_index := i + 1 |}])) ;;
      batch_loop urls' (S i) (fst step) (snd step)
  end.

(** The statements of the outer [try] of the exported function that
    follow the reading of the query. *)
Definition handler_try (req : request) : M http_response :=
  let limit := request_limit req in
  log Info "Scraper request started" ;;;
  match urlParam req with
  | Some ((_ :: _) as url) =>
      try_catch
        (record <- parseInefficiencyDetail url ;;
         validation <- lift (validateScrapedData record) ;;
         (if negb (isValid validation)
          then log Warn "Data validation warnings" else ret tt) ;;;
         log Info "Single URL scraped successfully" ;;;
         ret (SingleRecord record))
        (fun error =>
           log Err "Failed to scrape single URL" ;;;
           ret (SingleFailure url (message error)))
  | _ =>
      discovered <- try_catch
                      (urls <- extractInefficiencyUrls limit ;;
                       log Info "URLs discovered" ;;;
                       ret (Ok urls))
                      (fun error =>
                         log Err "Failed to discover URLs" ;;;
                         ret (Throw error)) ;;
      match discovered with
      | Throw error => ret (DiscoveryFailure (message error))
      | Ok urls =>
          lists <- batch_loop urls 0 [] [] ;;
          let results := fst lists in
          let errors := snd lists in
          log Info "Scraping batch completed" ;;;
          ret (Batch (List.length results) (List.length urls) (List.length errors) urls results
                     (match errors with [] => None | _ :: _ => Some errors end))
      end
  end.

(** The [catch] of that [try]. *)
Definition handler_catch (err : error) : M http_response :=
  log Err "Unexpected scraper error" ;;;
  ret (Unexpected (message err)).

(** Vercel serverless function handler, from the query that was read. *)
Definition handler (req : request) : M http_response :=
  try_catch (handler_try req) handler_catch.

(** [new URL(req.url, "http://localhost")] with the two
    [searchParams.get] that follow, [None] when the constructor throws. *)
Variable URL_query : jsstring -> option request.

(** Vercel serverless function handler, from [req.url]: the first
    statement of the [try] reads the query and can throw. *)
Definition module_exports (req_url : jsstring) : M http_response :=
  try_catch
    (req <- lift (match URL_query req_url with
                  | Some req => Ok req
                  | None => Throw InvalidURL
                  end) ;;
     handler_try req)
    handler_catch.

End Runtime.

End Scraper.
Import Scraper.

(** ** The batch runner (scripts/run_scrape_batch.js)

    The script that calls the scraper endpoint and stores what it returns
    in a bucket, one object for the whole answer and one per item. The
    bucket and the endpoint are outside the script: the endpoint is a
    function from the URL called to what came back, the bucket is a state
    that counts the calls made and keeps what was stored. The lines the
    script logs are left out. *)

Module Runner.

Definition DEFAULT_PREFIX : jsstring := lit "Recos/".
Definition DEFAULT_SCRAPER_URL : jsstring := lit "http://localhost:3000/api/scrape_hub".

(** [s.endsWith(p)] *)
Definition endsWith (s p : jsstring) : bool := startsWith (List.rev s) (List.rev p).

(** [s.split(sep)] for a separator of one code unit. *)
Fixpoint split_at (sep : char) (s : jsstring) : list jsstring :=
  match s with
  | [] => [[]]
  | c :: s' =>
      if N.eqb c sep then [] :: split_at sep s'
      else match split_at sep s' with
           | [] => [[c]]
           | part :: parts => (c :: part) :: parts
           end
  end.

(** [process.env.X || d]: an unset or empty variable gives the default. *)
Definition env_or (x : option jsstring) (d : jsstring) : jsstring :=
  match x with
  | Some ((_ :: _) as s) => s
  | _ => d
  end.

Definition normalizePrefix (prefix : jsstring) : jsstring :=
  if is_empty prefix then []
  else if endsWith prefix (lit "/") then prefix else prefix ++ lit "/".

(** [PREFIX], from the value of [S3_PREFIX]. *)
Definition PREFIX (S3_PREFIX : option jsstring) : jsstring :=
  normalizePrefix (env_or S3_PREFIX DEFAULT_PREFIX).

(** [parseLimitFromArgs()], over [process.argv]; [None] is [null]. *)
Definition parseLimitFromArgs (argv : list jsstring) : option Z :=
  match find (fun a => startsWith a (lit "--limit=")) argv with
  | None => None
  | Some arg =>
      match nth_error (split_at 61%N arg) 1 with
      | None => None
      | Some value =>
          match parseInt value with
          | None => None
          | Some n => if Z.leb n 0 then None else Some n
          end
      end
  end.

(** [iso.replace(/[:.]/g, "-")] *)
Definition dashed (iso : jsstring) : jsstring :=
  map (fun c => if N.eqb c 58%N || N.eqb c 46%N then 45%N else c) iso.

Definition timestampSlug : M jsstring :=
  iso <- now_iso ;;
  ret (dashed iso).

(** The URL [fetchScrapedData(limit)] calls, for a limit below 2^53: a
    template string writes such a number in decimal digits (from 10^21 on
    it writes an exponent, which is not modelled). *)
Definition request_url (SCRAPER_API_URL : jsstring) (limit : option Z) : jsstring :=
  match limit with
  | Some n => SCRAPER_API_URL ++ lit "?limit=" ++ number_to_string (Z.to_N n)
  | None => SCRAPER_API_URL
  end.

(** What the endpoint answers: the status, the body as text and the body
    read as JSON (reading either can fail). *)
Record api_response : Type := {
  api_status : N;
  api_text : result jsstring;
  api_json : result value
}.

Definition api_ok (r : api_response) : bool :=
  ((200 <=? api_status r) && (api_status r <=? 299))%N.

Definition fetchScrapedData (fetchFn : jsstring -> result api_response)
    (SCRAPER_API_URL : jsstring) (limit : option Z) : result value :=
  let url := request_url SCRAPER_API_URL limit in
  resp <~ fetchFn url ;;
  if negb (api_ok resp)
  then
    let text := match api_text resp with Ok t => t | Throw _ => [] end in
    Throw (Error (lit "Scraper API returned HTTP " ++ number_to_string (api_status resp)
                  ++ lit ". Body: " ++ firstn 500 text))
  else
    data <~ api_json resp ;;
    if negb (truthy data) || negb (isArray (get_opt data "items"))
    then Throw (Error (lit "Scraper API response does not contain an 'items' array"))
    else Ok data.

(** [item.id && String(item.id).trim() ? item.id.trim() : `item-${index}`] *)
Definition idPart (item : value) (index : nat) : result jsstring :=
  id <~ get item "id" ;;
  text <~ (if truthy id then to_String id else Ok []) ;;
  if truthy id && negb (is_empty (trim text))
  then match id with
       | VStr s => Ok (trim s)
       | _ => Throw TypeError
       end
  else Ok (lit "item-" ++ number_to_string (N.of_nat index)).

Definition summaryKey (prefix ts : jsstring) : jsstring :=
  prefix ++ lit "pointfive_hub_summary_" ++ ts ++ lit ".json".

Definition itemKey (prefix idPart ts : jsstring) : jsstring :=
  prefix ++ lit "pointfive_" ++ idPart ++ lit "_" ++ ts ++ lit ".json".

(** The bucket: the number of calls made so far, what the store answers to
    the call with that number for a key ([None]: stored), and the objects
    stored so far, oldest first. *)
Record Bucket : Type := {
  calls : nat;
  putObject : nat -> jsstring -> option error;
  objects : list (jsstring * value)
}.

Definition uploadToS3 (key : jsstring) (bodyObj : value) (b : Bucket)
  : result unit * Bucket :=
  match putObject b (calls b) key with
  | None =>
      (Ok tt, {| calls := S (calls b); putObject := putObject b;
                 objects := objects b ++ [(key, bodyObj)] |})
  | Some e =>
      (Throw e, {| calls := S (calls b); putObject := putObject b;
                   objects := objects b |})
  end.

(** The loop [for (const item of data.items)] of [main]: the counters are
    the variables of the source; the key is made outside the [try], an
    upload that fails is counted and the loop goes on. *)
Fixpoint upload_loop (prefix ts : jsstring) (items : list value)
    (index uploadedCount failedCount : nat) (b : Bucket)
  : result (nat * nat) * Bucket :=
  match items with
  | [] => (Ok (uploadedCount, failedCount), b)
  | item :: items' =>
      let index := S index in
      match idPart item index with
      | Throw e => (Throw e, b)
      | Ok part =>
          match uploadToS3 (itemKey prefix part ts) item b with
          | (Ok _, b') =>
              upload_loop prefix ts items' index (S uploadedCount) failedCount b'
          | (Throw _, b') =>
              upload_loop prefix ts items' index uploadedCount (S failedCount) b'
          end
      end
  end.

(** How [main] ends: with exit code 0, or with exit code 1 after uploads
    failed or after an error. *)
Inductive outcome : Type :=
| Completed (uploaded : nat)
| SomeFailed (uploaded failed : nat)
| Failed (e : error).

(** [main()], with the value of [new Date().toISOString()] read when the
    keys are made. *)
Definition main (fetchFn : jsstring -> result api_response)
    (SCRAPER_API_URL prefix : jsstring) (argv : list jsstring) (iso : jsstring)
    (b : Bucket) : outcome * Bucket :=
  let limit := parseLimitFromArgs argv in
  match fetchScrapedData fetchFn SCRAPER_API_URL limit with
  | Throw e => (Failed e, b)
  | Ok data =>
      let ts := dashed iso in
      match uploadToS3 (summaryKey prefix ts) data b with
      | (Throw e, b') => (Failed e, b')
      | (Ok _, b') =>
          match get_opt data "items" with
          | VArr items =>
              match upload_loop prefix ts items 0 0 0 b' with
              | (Throw e, b'') => (Failed e, b'')
              | (Ok (uploadedCount, failedCount), b'') =>
                  if Nat.ltb 0 failedCount
                  then (SomeFailed (uploadedCount + 1) failedCount, b'')
                  else (Completed (uploadedCount + 1), b'')
              end
          | _ => (Failed TypeError, b')
          end
      end
  end.

End Runner.

(** ** The earlier variant of the scraper (part_001)

    One index page, no time-out, no validation; sections are found from
    heading elements and read from the elements that follow them under the
    same parent; a page that fails leaves a place holder among the items.
    The field locator reads a global that is not defined, so that it
    throws whenever it is called. *)

Module Legacy.

Definition HEADINGS : list jsstring :=
  [lit "h1"; lit "h2"; lit "h3"; lit "h4"; lit "h5"; lit "h6"].

(** The elements ["h1, h2, h3, h4, h5, h6, strong, b"] selects. *)
Definition HEADINGS_AND_BOLD : list jsstring := HEADINGS ++ [lit "strong"; lit "b"].

Definition tag_among (tags : list jsstring) (n : node) : bool :=
  match n with
  | Element name _ _ => arr_includes tags name
  | _ => false
  end.

Definition is_element (n : node) : bool :=
  match n with Element _ _ _ => true | _ => false end.

(** The first element below [n], in document order, that satisfies [p]
    ([Array.from(doc.querySelectorAll(...)).find(p)]), with the nodes that
    follow it under its parent. *)
Fixpoint find_with_siblings (p : node -> bool) (n : node)
  : option (node * list node) :=
  match n with
  | Element _ _ cs =>
      (fix scan (l : list node) : option (node * list node) :=
         match l with
         | [] => None
         | c :: rest =>
             if is_element c && p c then Some (c, rest)
             else match find_with_siblings p c with
                  | Some found => Some found
                  | None => scan rest
                  end
         end) cs
  | _ => None
  end.

(** The text nodes below [n] in document order, each with the nodes that
    follow its parent element under the parent of that element; [after]
    are the nodes that follow [n]. *)
Fixpoint text_contexts (after : list node) (n : node)
  : list (jsstring * list node) :=
  match n with
  | Element _ _ cs =>
      (fix walk (l : list node) : list (jsstring * list node) :=
         match l with
         | [] => []
         | Text data :: rest => (data, after) :: walk rest
         | Comment _ :: rest => walk rest
         | (Element _ _ _ as c) :: rest => text_contexts rest c ++ walk rest
         end) cs
  | _ => []
  end.

(** [texts.join(sep)] *)
Fixpoint join (sep : jsstring) (texts : list jsstring) : jsstring :=
  match texts with
  | [] => []
  | [t] => t
  | t :: texts' => t ++ sep ++ join sep texts'
  end.

(** [console.error(msg, ...)] *)
Definition console_error (msg : jsstring) : M unit :=
  fun w =>
    (Ok tt,
     {| tick := tick w; network := network w; clock := clock w;
        console := console w ++ [{| log_level := Err; log_message := msg |}] |}).

(** Get text of a tag or null if missing. *)
Definition textOrNull (node : option node) : option jsstring :=
  match node with
  | None => None
  | Some n =>
      let txt := trim (textContent n) in
      if is_empty txt then None else Some txt
  end.

(** Helper to fetch and parse HTML into a DOM. *)
Definition fetchHtml (url : jsstring) : M document :=
  resp <- fetch url ;;
  if negb (ok resp)
  then throw (Error (lit "Failed to fetch " ++ url ++ lit ": "
                     ++ number_to_string (status resp) ++ lit " " ++ statusText resp))
  else ret (parsed resp).

(** The walk [current = current.nextElementSibling] of [findFieldValue]
    over the nodes that follow the parent of the label. *)
Fixpoint next_value (fieldLabel : jsstring) (following : list node)
  : option jsstring :=
  match following with
  | [] => None
  | (Element _ _ _ as current) :: rest =>
      let val := trim (textContent current) in
      if negb (is_empty val) && negb (str_eqb val fieldLabel)
      then Some val
      else next_value fieldLabel rest
  | _ :: rest => next_value fieldLabel rest
  end.

Fixpoint findFieldValue_loop (fieldLabel : jsstring)
    (walker : list (jsstring * list node)) : option jsstring :=
  match walker with
  | [] => None
  | (data, following) :: walker' =>
      let text := trim data in
      if is_empty text then findFieldValue_loop fieldLabel walker'
      else if str_eqb text fieldLabel
      then match next_value fieldLabel following with
           | Some val => Some val
           | None => findFieldValue_loop fieldLabel walker'
           end
      else findFieldValue_loop fieldLabel walker'
  end.

(** What reading a global that is not defined throws. *)
Definition ReferenceError (global : string) : error :=
  {| name := lit "ReferenceError"; message := lit global ++ lit " is not defined" |}.

(** [NodeFilter.SHOW_TEXT]: the module neither imports nor defines
    [NodeFilter], and Node has no such global. *)
Definition NodeFilter_SHOW_TEXT : result N := Throw (ReferenceError "NodeFilter").

(** Find a label like "Service Category" then read the next meaningful
    sibling text. The arguments of [doc.createTreeWalker] are evaluated
    first. *)
Definition findFieldValue (d : document) (fieldLabel : jsstring)
  : result (option jsstring) :=
  whatToShow <~ NodeFilter_SHOW_TEXT ;;
  Ok (findFieldValue_loop fieldLabel (text_contexts [] (body d))).

(** The loop [while ((node = node.nextElementSibling))] of
    [extractSectionParagraph] on the array [texts]. *)
Fixpoint paragraphs_loop (following : list node) (texts : list jsstring)
  : list jsstring :=
  match following with
  | [] => texts
  | (Element tagName _ _ as node) :: rest =>
      if arr_includes HEADINGS tagName then texts
      else if str_eqb tagName (lit "p")
      then let t := trim (textContent node) in
           paragraphs_loop rest (if is_empty t then texts else texts ++ [t])
      else paragraphs_loop rest texts
  | _ :: rest => paragraphs_loop rest texts
  end.

(** The loop of [extractSectionList]. *)
Fixpoint lists_loop (following : list node) : list jsstring :=
  match following with
  | [] => []
  | (Element tagName _ _ as node) :: rest =>
      if arr_includes HEADINGS tagName then []
      else if str_eqb tagName (lit "ul") || str_eqb tagName (lit "ol")
      then match list_items (querySelectorAll (lit "li") node) with
           | [] => lists_loop rest
           | items => items
           end
      else lists_loop rest
  | _ :: rest => lists_loop rest
  end.

(** The selection by the limit: [limit && Number.isFinite(limit) && limit > 0
    ? urls.slice(0, limit) : urls]. *)
Definition selectedUrls (limit : option Z) (urls : list jsstring) : list jsstring :=
  match limit with
  | Some n => if Z.ltb 0 n then slice_to urls n else urls
  | None => urls
  end.

(** [typeof limitParam === "string" && limitParam.trim() !== ""
     ? parseInt(limitParam, 10) : null] *)
Definition request_limit (limitParam : option jsstring) : option Z :=
  match limitParam with
  | Some s => if negb (is_empty (trim s)) then parseInt s else None
  | None => None
  end.

(** What the handler sends: status 200 with the items, or status 500. *)
Inductive answer : Type :=
| Items (count : nat) (items : list value)
| Fatal (message : jsstring).

Section Runtime.

(** [new URL(url).pathname] and [new URL(url).hostname], [None] when the
    constructor throws. *)
Variable URL_pathname : jsstring -> option jsstring.
Variable URL_hostname : jsstring -> option jsstring.

(** [new URL(href, base).toString()], [None] when the constructor throws. *)
Variable URL_resolve : jsstring -> jsstring -> option jsstring.

(** [s.toLowerCase()] *)
Variable toLowerCase : jsstring -> jsstring.

(** The callback of [headings.find]: a heading or bold element whose text
    holds [needle], case set aside. *)
Definition find_heading (d : document) (needle : jsstring)
  : option (node * list node) :=
  find_with_siblings
    (fun h => tag_among HEADINGS_AND_BOLD h
              && includes (toLowerCase (textContent h)) needle)
    (documentElement d).

(** Extract paragraphs following a heading containing headingText. *)
Definition extractSectionParagraph (d : document) (headingText : jsstring)
  : option jsstring :=
  match find_heading d (toLowerCase headingText) with
  | None => None
  | Some (_, following) =>
      match paragraphs_loop following [] with
      | [] => None
      | texts => Some (join [10; 10]%N texts)
      end
  end.

(** Extract list items following a heading. *)
Definition extractSectionList (d : document) (headingText : jsstring)
  : list jsstring :=
  match find_heading d (toLowerCase headingText) with
  | None => []
  | Some (_, following) => lists_loop following
  end.

(** [for (const a of anchors)] on the array [links]. *)
Fixpoint anchors_loop (anchors : list node) (links : list link)
  : result (list link) :=
  match anchors with
  | [] => Ok links
  | a :: anchors' =>
      match a with
      | Element _ attrs _ =>
          match getAttribute attrs (lit "href") with
          | None => anchors_loop anchors' links
          | Some href =>
              if is_empty href then anchors_loop anchors' links
              else match URL_resolve href BASE_URL with
                   | None => Throw InvalidURL
                   | Some full =>
                       anchors_loop anchors'
                         (links ++ [{| link_title := anchor_title a; link_url := full |}])
                   end
          end
      | _ => anchors_loop anchors' links
      end
  end.

Fixpoint links_loop (following : list node) (links : list link)
  : result (list link) :=
  match following with
  | [] => Ok links
  | (Element tagName _ _ as node) :: rest =>
      if arr_includes HEADINGS tagName then Ok links
      else links' <~ anchors_loop (querySelectorAll_a_href node) links ;;
           links_loop rest links'
  | _ :: rest => links_loop rest links
  end.

(** Extract documentation links after a heading like "Relevant
    Documentation". *)
Definition extractDocumentationLinks (d : document) : result (list link) :=
  match find_heading d (lit "relevant documentation") with
  | None => Ok []
  | Some (_, following) => links_loop following []
  end.

(** Construct a slug from URL path. *)
Definition slugFromUrl (url : jsstring) : result jsstring :=
  match URL_pathname url, URL_hostname url with
  | Some pathname, Some hostname =>
      let segments := filter (fun s => negb (is_empty s)) (split_slash pathname) in
      let segment := last_of segments [] in
      Ok (if is_empty segment then hostname else segment)
  | _, _ => Throw InvalidURL
  end.

(** [for (const a of links)] of the index page on the set [urls]. *)
Fixpoint index_loop (links : list node) (urls : list jsstring)
  : result (list jsstring) :=
  match links with
  | [] => Ok urls
  | a :: links' =>
      match a with
      | Element _ attrs _ =>
          match getAttribute attrs (lit "href") with
          | None => index_loop links' urls
          | Some href =>
              if is_empty href then index_loop links' urls
              else if includes href (lit "/inefficiencies/")
              then match URL_resolve href BASE_URL with
                   | None => Throw InvalidURL
                   | Some full => index_loop links' (set_add full urls)
                   end
              else index_loop links' urls
          end
      | _ => index_loop links' urls
      end
  end.

(** Extract all inefficiency detail URLs from the Hub index page. *)
Definition extractInefficiencyUrls : M (list jsstring) :=
  dom <- fetchHtml (BASE_URL ++ lit "/hub") ;;
  urls <- lift (index_loop (querySelectorAll_a_href (documentElement dom)) []) ;;
  ret (sort urls).

(** The author: the text of the element right after the title. *)
Definition author_of (titleNode : option (node * list node)) : option jsstring :=
  match titleNode with
  | Some (_, following) =>
      match filter is_element following with
      | candidate :: _ =>
          let text := trim (textContent candidate) in
          if negb (is_empty text)
             && negb (includes (toLowerCase text) (lit "service category"))
          then Some text
          else None
      | [] => None
      end
  | None => None
  end.

(** Parse one inefficiency detail page into a JSON record. *)
Definition parseInefficiencyDetail (url : jsstring) : M value :=
  doc <- fetchHtml url ;;
  let titleNode := first_with_siblings (lit "h1") (documentElement doc) in
  let title := textOrNull (option_map fst titleNode) in
  let author := author_of titleNode in
  serviceCategory <- lift (findFieldValue doc (lit "Service Category")) ;;
  cloudProvider <- lift (findFieldValue doc (lit "Cloud Provider")) ;;
  serviceName <- lift (findFieldValue doc (lit "Service Name")) ;;
  inefficiencyType <- lift (findFieldValue doc (lit "Inefficiency Type")) ;;
  let explanation := extractSectionParagraph doc (lit "Explanation") in
  let billingModel := extractSectionParagraph doc (lit "Relevant Billing Model") in
  let detectionSignals := extractSectionList doc (lit "Detection") in
  let remediationActions := extractSectionList doc (lit "Remediation") in
  documentationLinks <- lift (extractDocumentationLinks doc) ;;
  id <- lift (slugFromUrl url) ;;
  scraped_at <- now_iso ;;
  ret (VObj
    [ (lit "id", VStr id);
      (lit "title", of_option title);
      (lit "author", of_option author);
      (lit "service_category", of_option serviceCategory);
      (lit "cloud_provider", of_option cloudProvider);
      (lit "service_name", of_option serviceName);
      (lit "inefficiency_type", of_option inefficiencyType);
      (lit "explanation", of_option explanation);
      (lit "billing_model", of_option billingModel);
      (lit "detection_signals", of_strings detectionSignals);
      (lit "remediation_actions", of_strings remediationActions);
      (lit "documentation_links", VArr (map link_value documentationLinks));
      (lit "tags", VArr []);
      (lit "source", VObj [ (lit "url", VStr url); (lit "origin", VStr ORIGIN) ]);
      (lit "scraped_at", VStr scraped_at) ]).

(** The item pushed for a page that failed. *)
Definition failed_item (id url error_message scraped_at : jsstring) : value :=
  VObj [ (lit "id", VStr id);
         (lit "error", VBool true);
         (lit "error_message", VStr error_message);
         (lit "source", VObj [ (lit "url", VStr url); (lit "origin", VStr ORIGIN) ]);
         (lit "scraped_at", VStr scraped_at) ].

(** The loop [for (const url of selectedUrls)] on the array [results]. *)
Fixpoint scrape_loop (urls : list jsstring) (results : list value)
  : M (list value) :=
  match urls with
  | [] => ret results
  | url :: urls' =>
      results' <- try_catch
                    (record <- parseInefficiencyDetail url ;;
                     ret (results ++ [record]))
                    (fun err =>
                       console_error (lit "Error scraping " ++ url ++ lit ":") ;;;
                       id <- lift (slugFromUrl url) ;;
                       scraped_at <- now_iso ;;
                       ret (results ++ [failed_item id url (message err) scraped_at])) ;;
      scrape_loop urls' results'
  end.

(** Main Vercel handler, from the [limit] of the query. *)
Definition handler (limitParam : option jsstring) : M answer :=
  try_catch
    (let limit := request_limit limitParam in
     urls <- extractInefficiencyUrls ;;
     results <- scrape_loop (selectedUrls limit urls) [] ;;
     ret (Items (List.length results) results))
    (fun err =>
       console_error (lit "Fatal scraper error:") ;;;
       ret (Fatal (message err))).

End Runtime.

End Legacy.

(** * Properties *)

(** ** Facts about strings *)

Module JsFacts.

Lemma str_eqb_eq (a b : jsstring) : str_eqb a b = true <-> a = b.
Proof.
  revert b; induction a as [|x a IH]; intros [|y b]; simpl;
    try (split; (congruence || discriminate)).
  rewrite andb_true_iff, N.eqb_eq, IH. split.
  - intros [-> ->]; reflexivity.
  - intros E; injection E; auto.
Qed.

Lemma str_eqb_refl (a : jsstring) : str_eqb a a = true.
Proof. apply str_eqb_eq; reflexivity. Qed.

Lemma str_eqb_neq (a b : jsstring) : str_eqb a b = false <-> a <> b.
Proof.
  rewrite <- str_eqb_eq. destruct (str_eqb a b); split; congruence.
Qed.

Lemma str_eqb_sym (a b : jsstring) : str_eqb a b = str_eqb b a.
Proof.
  destruct (str_eqb a b) eqn:E.
  - apply str_eqb_eq in E; subst; symmetry; apply str_eqb_refl.
  - symmetry; apply str_eqb_neq; apply str_eqb_neq in E; congruence.
Qed.

Lemma is_empty_true (s : jsstring) : is_empty s = true <-> s = [].
Proof. destruct s; simpl; split; congruence. Qed.

Lemma is_empty_false (s : jsstring) : is_empty s = false <-> s <> [].
Proof. destruct s; simpl; split; congruence. Qed.

Lemma arr_includes_In (arr : list jsstring) (v : jsstring) :
  arr_includes arr v = true <-> In v arr.
Proof.
  unfold arr_includes. rewrite existsb_exists. split.
  - intros (x & Hx & E). apply str_eqb_eq in E; subst; assumption.
  - intros H; exists v; split; [assumption | apply str_eqb_refl].
Qed.

End JsFacts.
Import JsFacts.

(** ** The text sequence the extractors consume *)

Module TextSeq.

(** The non-empty trimmed text values of a walk, in document order: every
    extractor skips a node whose trimmed value is empty before it looks at
    anything else. *)
Definition texts_of (walker : list text_node) : list jsstring :=
  filter (fun v => negb (is_empty v)) (map textValue walker).

Definition texts (d : document) : list jsstring := texts_of (createTreeWalker d).

(** A value that ends the collection of the section of [headingText]: a
    member of the heading registry other than [headingText] itself. *)
Definition stops (headingText v : jsstring) : Prop :=
  In v SECTION_TITLES /\ v <> headingText.

(** The text nodes an extractor does not skip. *)
Definition content_nodes (walker : list text_node) : list text_node :=
  filter (fun n => negb (is_empty (textValue n))) walker.

Lemma texts_of_content_nodes (w : list text_node) :
  texts_of w = map textValue (content_nodes w).
Proof.
  unfold texts_of, content_nodes. induction w as [|n w IH]; simpl; [reflexivity|].
  destruct (is_empty (textValue n)); simpl; rewrite IH; reflexivity.
Qed.

Lemma content_nodes_cons (node : text_node) (w : list text_node) :
  content_nodes (node :: w) =
  if is_empty (textValue node) then content_nodes w else node :: content_nodes w.
Proof. unfold content_nodes; simpl. destruct (is_empty (textValue node)); reflexivity. Qed.

Lemma texts_of_cons (node : text_node) (w : list text_node) :
  texts_of (node :: w) =
  if is_empty (textValue node) then texts_of w else textValue node :: texts_of w.
Proof. unfold texts_of; simpl. destruct (is_empty (textValue node)); reflexivity. Qed.

Lemma texts_of_nonempty (w : list text_node) (v : jsstring) :
  In v (texts_of w) -> v <> [].
Proof.
  unfold texts_of. rewrite filter_In. intros [_ H].
  apply is_empty_false. destruct (is_empty v); [discriminate | reflexivity].
Qed.

Lemma stops_test (headingText v : jsstring) :
  arr_includes SECTION_TITLES v && negb (str_eqb v headingText) = true
  <-> stops headingText v.
Proof.
  unfold stops. rewrite andb_true_iff, arr_includes_In, negb_true_iff, str_eqb_neq.
  reflexivity.
Qed.

End TextSeq.
Import TextSeq.

(** ** Field locator *)

Module FieldLocator.

Lemma loop_seen (labelText : jsstring) (w : list text_node) :
  findFieldValue_loop labelText true w = hd_error (texts_of w).
Proof.
  induction w as [|node w IH]; simpl; [reflexivity|].
  rewrite texts_of_cons. destruct (is_empty (textValue node)); [exact IH | reflexivity].
Qed.

Lemma loop_absent (labelText : jsstring) (w : list text_node) :
  ~ In labelText (texts_of w) ->
  findFieldValue_loop labelText false w = None.
Proof.
  induction w as [|node w IH]; simpl; [reflexivity|].
  rewrite texts_of_cons. destruct (is_empty (textValue node)) eqn:E; [exact IH|].
  intros H. destruct (str_eqb (textValue node) labelText) eqn:Q.
  - apply str_eqb_eq in Q. exfalso; apply H; left; exact Q.
  - apply IH. intros Hin; apply H; right; exact Hin.
Qed.

Lemma loop_first (labelText : jsstring) (w : list text_node)
    (pre post : list jsstring) :
  texts_of w = pre ++ labelText :: post ->
  ~ In labelText pre ->
  findFieldValue_loop labelText false w = hd_error post.
Proof.
  revert pre; induction w as [|node w IH]; intros pre; simpl.
  - destruct pre; discriminate.
  - rewrite texts_of_cons. destruct (is_empty (textValue node)) eqn:E.
    + apply IH.
    + intros Hsplit Hpre. destruct pre as [|p pre]; simpl in Hsplit.
      * injection Hsplit as Hv Hw. rewrite Hv, str_eqb_refl, loop_seen, Hw.
        reflexivity.
      * injection Hsplit as Hv Hw.
        assert (Q : str_eqb (textValue node) labelText = false).
        { apply str_eqb_neq. intros Heq. apply Hpre. left. congruence. }
        rewrite Q. apply (IH pre Hw). intros Hin; apply Hpre; right; exact Hin.
Qed.

End FieldLocator.

(** ** Section extractor, paragraph mode *)

Module Paragraph.

(** Once in the section, the loop appends values until a stop value. *)
Lemma loop_in_section (headingText : jsstring) (w : list text_node)
    (acc collected rest : list jsstring) :
  texts_of w = collected ++ rest ->
  Forall (fun v => ~ stops headingText v) collected ->
  rest = [] \/ (exists s r, rest = s :: r /\ stops headingText s) ->
  extractSectionParagraph_loop headingText true acc w = acc ++ collected.
Proof.
  revert acc collected; induction w as [|node w IH]; intros acc collected;
    cbn [extractSectionParagraph_loop negb].
  - intros Hs _ _. destruct collected; [|discriminate].
    rewrite app_nil_r; reflexivity.
  - rewrite texts_of_cons. destruct (is_empty (textValue node)) eqn:E.
    + apply IH.
    + intros Hs Hc Hr. destruct collected as [|c collected]; simpl in Hs.
      * destruct Hr as [-> | (s & r & -> & Hstop)]; [discriminate|].
        injection Hs as Hv _. subst s. apply stops_test in Hstop.
        rewrite Hstop. rewrite app_nil_r; reflexivity.
      * injection Hs as Hv Hw. subst c. inversion Hc as [|? ? Hn Hc']; subst.
        destruct (arr_includes SECTION_TITLES (textValue node)
                  && negb (str_eqb (textValue node) headingText)) eqn:T.
        { apply stops_test in T. contradiction. }
        rewrite (IH (acc ++ [textValue node]) collected Hw Hc' Hr).
        rewrite <- app_assoc; reflexivity.
Qed.

Lemma loop_before_section (headingText : jsstring) (w : list text_node)
    (acc : list jsstring) :
  ~ In headingText (texts_of w) ->
  extractSectionParagraph_loop headingText false acc w = acc.
Proof.
  induction w as [|node w IH]; simpl; [reflexivity|].
  rewrite texts_of_cons. destruct (is_empty (textValue node)) eqn:E; [exact IH|].
  intros H. destruct (str_eqb (textValue node) headingText) eqn:Q.
  - apply str_eqb_eq in Q. exfalso; apply H; left; exact Q.
  - apply IH. intros Hin; apply H; right; exact Hin.
Qed.

Lemma loop_enter (headingText : jsstring) (w : list text_node)
    (acc pre collected rest : list jsstring) :
  texts_of w = pre ++ headingText :: collected ++ rest ->
  ~ In headingText pre ->
  Forall (fun v => ~ stops headingText v) collected ->
  rest = [] \/ (exists s r, rest = s :: r /\ stops headingText s) ->
  extractSectionParagraph_loop headingText false acc w = acc ++ collected.
Proof.
  revert pre; induction w as [|node w IH]; intros pre; simpl.
  - destruct pre; discriminate.
  - rewrite texts_of_cons. destruct (is_empty (textValue node)) eqn:E.
    + apply IH.
    + intros Hs Hpre Hc Hr. destruct pre as [|p pre]; simpl in Hs.
      * injection Hs as Hv Hw. rewrite Hv, str_eqb_refl.
        apply loop_in_section with (rest := rest); assumption.
      * injection Hs as Hv Hw.
        assert (Q : str_eqb (textValue node) headingText = false).
        { apply str_eqb_neq. intros Heq. apply Hpre. left. congruence. }
        rewrite Q. apply (IH pre Hw); [|exact Hc|exact Hr].
        intros Hin; apply Hpre; right; exact Hin.
Qed.

(** What [replace(/\s+/g, " ")] leaves: every white space is a single
    space, and no two white spaces are adjacent. *)
Fixpoint single_spaced (prev_space : bool) (s : jsstring) : Prop :=
  match s with
  | [] => True
  | c :: s' =>
      if is_space c
      then c = space /\ prev_space = false /\ single_spaced true s'
      else single_spaced false s'
  end.

Lemma collapse_from_single_spaced (b : bool) (s : jsstring) :
  single_spaced b (collapse_from b s).
Proof.
  revert b; induction s as [|c s IH]; intros b; simpl; [exact I|].
  destruct (is_space c) eqn:E.
  - destruct b; [apply IH|]. simpl. change (is_space space) with true.
    cbv iota. repeat split. apply IH.
  - simpl. rewrite E. apply IH.
Qed.

Lemma single_spaced_weaken (b : bool) (s : jsstring) :
  single_spaced b s -> single_spaced false s.
Proof.
  destruct s as [|c s]; simpl; [auto|].
  destruct (is_space c); [|auto]. intros (H1 & _ & H3); auto.
Qed.

Lemma trimStart_single_spaced (b : bool) (s : jsstring) :
  single_spaced b s -> single_spaced false (trimStart s).
Proof.
  revert b; induction s as [|c s IH]; intros b; simpl; [auto|].
  destruct (is_space c) eqn:E.
  - intros (_ & _ & H). apply (IH true H).
  - intros H. simpl. rewrite E. exact H.
Qed.

Lemma trimEnd_single_spaced (b : bool) (s : jsstring) :
  single_spaced b s -> single_spaced b (trimEnd s).
Proof.
  revert b; induction s as [|c s IH]; intros b; simpl; [auto|].
  destruct (is_space c) eqn:E.
  - intros (H1 & H2 & H3). specialize (IH true H3).
    destruct (trimEnd s) as [|x r]; [exact I|].
    simpl. rewrite E. repeat split; assumption.
  - intros H. specialize (IH false H).
    destruct (trimEnd s) as [|x r]; simpl; rewrite E; [exact I | exact IH].
Qed.

(** What [trim()] leaves: no white space at either end. *)
Lemma trimStart_head (s : jsstring) :
  match trimStart s with [] => True | c :: _ => is_space c = false end.
Proof.
  induction s as [|c s IH]; simpl; [exact I|].
  destruct (is_space c) eqn:E; [exact IH | exact E].
Qed.

Lemma trimEnd_head (s : jsstring) :
  match s with [] => True | c :: _ => is_space c = false end ->
  match trimEnd s with [] => True | c :: _ => is_space c = false end.
Proof.
  destruct s as [|c s]; simpl; [auto|]. intros E.
  destruct (trimEnd s); [rewrite E; simpl|]; exact E.
Qed.

Lemma trimEnd_last (s : jsstring) :
  is_space (last (trimEnd s) 0%N) = false.
Proof.
  induction s as [|c s IH]; simpl; [reflexivity|].
  destruct (trimEnd s) as [|x r] eqn:T.
  - destruct (is_space c) eqn:E; simpl; [reflexivity | exact E].
  - exact IH.
Qed.

Definition trimmed (s : jsstring) : Prop :=
  match s with [] => True | c :: _ => is_space c = false end /\
  is_space (last s 0%N) = false.

Lemma trim_trimmed (s : jsstring) : trimmed (trim s).
Proof.
  unfold trimmed, trim. split.
  - apply trimEnd_head, trimStart_head.
  - apply trimEnd_last.
Qed.

(** C3. Paragraph mode over the non-empty trimmed text values in document
    order: absent when the heading never occurs; otherwise the values that
    follow its first occurrence are collected up to, and without, the first
    value that is another member of the heading registry (or to the end),
    and the result is absent when nothing was collected and else the
    fragments joined by one space, white space collapsed and trimmed, which
    leaves single spaces only and none at either end. *)
Theorem extractSectionParagraph_collects (d : document) (headingText : jsstring) :
  (~ In headingText (texts d) -> extractSectionParagraph d headingText = None) /\
  (forall pre collected rest : list jsstring,
      texts d = pre ++ headingText :: collected ++ rest ->
      ~ In headingText pre ->
      Forall (fun v => ~ stops headingText v) collected ->
      rest = [] \/ (exists s r, rest = s :: r /\ stops headingText s) ->
      extractSectionParagraph d headingText =
      match collected with
      | [] => None
      | _ :: _ => Some (trim (collapse_spaces (join_space collected)))
      end) /\
  (forall r : jsstring,
      extractSectionParagraph d headingText = Some r ->
      single_spaced false r /\ trimmed r).
Proof.
  unfold extractSectionParagraph, texts. split; [|split].
  - intros H. rewrite loop_before_section by exact H. reflexivity.
  - intros pre collected rest Hs Hpre Hc Hr.
    rewrite loop_enter with (pre := pre) (collected := collected) (rest := rest)
      by assumption.
    reflexivity.
  - intros r.
    destruct (extractSectionParagraph_loop headingText false [] (createTreeWalker d));
      [discriminate|].
    intros H; injection H as <-. split.
    + unfold trim. apply trimEnd_single_spaced.
      apply trimStart_single_spaced with (b := false).
      apply collapse_from_single_spaced.
    + apply trim_trimmed.
Qed.

End Paragraph.

(** ** Section extractor, list mode *)

Module ListMode.

Definition ul : jsstring := lit "ul".
Definition li : jsstring := lit "li".

Lemma find_heading_absent (headingText : jsstring) (w : list text_node) :
  ~ In headingText (texts_of w) -> find_heading headingText w = None.
Proof.
  induction w as [|node w IH]; simpl; [reflexivity|].
  rewrite texts_of_cons. destruct (is_empty (textValue node)) eqn:E; [exact IH|].
  intros H. destruct (str_eqb (textValue node) headingText) eqn:Q.
  - apply str_eqb_eq in Q. exfalso; apply H; left; exact Q.
  - apply IH. intros Hin; apply H; right; exact Hin.
Qed.

Lemma find_heading_first (headingText : jsstring) (w pre post : list text_node)
    (n : text_node) :
  content_nodes w = pre ++ n :: post ->
  textValue n = headingText ->
  Forall (fun p => textValue p <> headingText) pre ->
  find_heading headingText w = Some n.
Proof.
  revert pre; induction w as [|node w IH]; intros pre; cbn [find_heading].
  - destruct pre; discriminate.
  - rewrite content_nodes_cons. destruct (is_empty (textValue node)) eqn:E.
    + apply IH.
    + intros Hs Hn Hpre. destruct pre as [|p pre]; simpl in Hs.
      * injection Hs as Hv Hw. subst node. rewrite Hn, str_eqb_refl. reflexivity.
      * injection Hs as Hv Hw. subst p. inversion Hpre as [|? ? Hp Hpre']; subst.
        apply str_eqb_neq in Hp. rewrite Hp. apply (IH pre Hw eq_refl Hpre').
Qed.

Lemma find_container_none (chain : list node) :
  Forall (fun a => querySelector ul a = None) chain ->
  find_container chain = None.
Proof.
  induction 1 as [|a chain Ha _ IH]; simpl; [reflexivity|].
  fold ul. rewrite Ha. exact IH.
Qed.

Lemma find_container_nearest (below above : list node) (c u : node) :
  Forall (fun a => querySelector ul a = None) below ->
  querySelector ul c = Some u ->
  find_container (below ++ c :: above) = Some c.
Proof.
  intros Hb Hc. induction Hb as [|a below Ha _ IH]; simpl; fold ul.
  - rewrite Hc. reflexivity.
  - rewrite Ha. exact IH.
Qed.

Lemma list_items_filter (items : list node) :
  list_items items =
  filter (fun t => negb (is_empty t)) (map (fun i => trim (textContent i)) items).
Proof.
  induction items as [|i items IH]; simpl; [reflexivity|].
  destruct (is_empty (trim (textContent i))); simpl; rewrite IH; reflexivity.
Qed.

(** The [li] elements that are children of an element. *)
Definition item_children (n : node) : list node :=
  match n with
  | Element _ _ cs => filter (has_tag li) cs
  | _ => []
  end.

(** The list-mode claim read with item children: whenever the heading node,
    its nearest ancestor with a [ul] below and the first such [ul] are as
    described, the result is the non-empty trimmed texts of the [li]
    children of that [ul]. *)
Definition children_reading (d : document) (headingText : jsstring) : Prop :=
  forall (pre post : list text_node) (n : text_node)
         (below above : list node) (c u : node),
    content_nodes (createTreeWalker d) = pre ++ n :: post ->
    textValue n = headingText ->
    Forall (fun p => textValue p <> headingText) pre ->
    ancestors n = below ++ c :: above ->
    Forall (fun a => querySelector ul a = None) below ->
    querySelector ul c = Some u ->
    extractSectionList d headingText =
    filter (fun t => negb (is_empty t))
           (map (fun i => trim (textContent i)) (item_children u)).

(** A page whose Detection list has a nested list:
    <h2>Detection</h2>
    <ul><li>Check tags<ul><li>Name tag</li></ul></li><li>Check age</li></ul> *)
Definition detection_h2 : node := Element (lit "h2") [] [Text (lit "Detection")].

Definition detection_list : node :=
  Element ul []
    [ Element li []
        [ Text (lit "Check tags");
          Element ul [] [Element li [] [Text (lit "Name tag")]] ];
      Element li [] [Text (lit "Check age")] ].

Definition nested_list_page : document :=
  {| doc_head := []; doc_body := [detection_h2; detection_list] |}.

Definition detection_text : text_node :=
  {| nodeValue := lit "Detection";
     ancestors := [ detection_h2; body nested_list_page;
                    documentElement nested_list_page ] |}.

(** The code returns every [li] below the list, the nested one too. *)
Example extractSectionList_nested_list_page :
  extractSectionList nested_list_page (lit "Detection") =
  [lit "Check tagsName tag"; lit "Name tag"; lit "Check age"].
Proof. vm_compute. reflexivity. Qed.

(** C5, as stated, fails on a nested list: the item children of the first
    list are two, the code returns three items. *)
Lemma children_reading_fails :
  ~ children_reading nested_list_page (lit "Detection").
Proof.
  intros H.
  specialize (H [] (tl (content_nodes (createTreeWalker nested_list_page)))
                detection_text [detection_h2] [documentElement nested_list_page]
                (body nested_list_page) detection_list).
  assert (E : extractSectionList nested_list_page (lit "Detection") =
              filter (fun t => negb (is_empty t))
                (map (fun i => trim (textContent i)) (item_children detection_list))).
  { apply H.
    - vm_compute; reflexivity.
    - vm_compute; reflexivity.
    - constructor.
    - reflexivity.
    - constructor; [vm_compute; reflexivity | constructor].
    - vm_compute; reflexivity. }
  vm_compute in E. discriminate E.
Qed.

(** C5, amended. List mode never fails: it returns the empty sequence when
    the heading is not among the non-empty trimmed text values, or when no
    element enclosing the first heading text node has a [ul] below it;
    otherwise, for the nearest enclosing element that has one and the first
    [ul] below it in document order, it returns the trimmed [textContent]
    of every [li] element below that [ul] (nested ones included), in
    document order, empty ones dropped, which is the empty sequence when
    every item is empty. *)
Theorem extractSectionList_items (d : document) (headingText : jsstring) :
  (~ In headingText (texts d) -> extractSectionList d headingText = []) /\
  (forall (pre post : list text_node) (n : text_node),
      content_nodes (createTreeWalker d) = pre ++ n :: post ->
      textValue n = headingText ->
      Forall (fun p => textValue p <> headingText) pre ->
      (Forall (fun a => querySelector ul a = None) (ancestors n) ->
       extractSectionList d headingText = []) /\
      (forall (below above : list node) (c u : node),
          ancestors n = below ++ c :: above ->
          Forall (fun a => querySelector ul a = None) below ->
          querySelector ul c = Some u ->
          extractSectionList d headingText =
          filter (fun t => negb (is_empty t))
                 (map (fun i => trim (textContent i)) (querySelectorAll li u)) /\
          (Forall (fun i => trim (textContent i) = []) (querySelectorAll li u) ->
           extractSectionList d headingText = []))).
Proof.
  unfold extractSectionList, texts. split.
  - intros H. rewrite (find_heading_absent _ _ H). reflexivity.
  - intros pre post n Hs Hn Hpre.
    rewrite (find_heading_first _ _ _ _ _ Hs Hn Hpre). split.
    + intros Hnone. rewrite (find_container_none _ Hnone). reflexivity.
    + intros below above c u Hanc Hb Hc. rewrite Hanc.
      rewrite (find_container_nearest _ above _ _ Hb Hc). fold ul. rewrite Hc.
      fold li. rewrite list_items_filter. split; [reflexivity|].
      intros Hall. induction Hall as [|i items Hi _ IH]; simpl; [reflexivity|].
      rewrite Hi. simpl. exact IH.
Qed.

End ListMode.


(** ** Slug derivation *)

Module Slug.

Lemma split_slash_not_nil (s : jsstring) : split_slash s <> [].
Proof.
  destruct s as [|c s]; simpl; [discriminate|].
  destruct (N.eqb c slash); [discriminate|].
  destruct (split_slash s); discriminate.
Qed.

Lemma split_slash_snoc_slash (s : jsstring) :
  split_slash (s ++ [slash]) = split_slash s ++ [[]].
Proof.
  induction s as [|x s IH]; simpl; [reflexivity|].
  rewrite IH. destruct (N.eqb x slash); [reflexivity|].
  destruct (split_slash s) as [|seg segs] eqn:E; [|reflexivity].
  exfalso; exact (split_slash_not_nil s E).
Qed.

Lemma split_slash_snoc_other (s : jsstring) (c : char) :
  c <> slash ->
  split_slash (s ++ [c]) =
  removelast (split_slash s) ++ [last (split_slash s) [] ++ [c]].
Proof.
  intros Hc. apply N.eqb_neq in Hc.
  induction s as [|x s IH].
  - simpl. rewrite Hc. reflexivity.
  - rewrite <- app_comm_cons. cbn [split_slash]. rewrite IH.
    pose proof (split_slash_not_nil s) as Hn.
    destruct (split_slash s) as [|seg segs] eqn:E; [contradiction|].
    destruct (N.eqb x slash).
    + reflexivity.
    + destruct segs as [|seg' segs']; reflexivity.
Qed.

Lemma strip_snoc_slash (s : jsstring) :
  strip_trailing_slashes (s ++ [slash]) = strip_trailing_slashes s.
Proof.
  induction s as [|x s IH]; simpl; [reflexivity|].
  rewrite IH. reflexivity.
Qed.

Lemma strip_snoc_other (s : jsstring) (c : char) :
  c <> slash -> strip_trailing_slashes (s ++ [c]) = s ++ [c].
Proof.
  intros Hc. apply N.eqb_neq in Hc.
  induction s as [|x s IH]; simpl.
  - rewrite Hc. reflexivity.
  - rewrite IH. destruct (s ++ [c]) eqn:E; [|reflexivity].
    destruct s; discriminate.
Qed.

(** The last segment after stripping the trailing slashes is the last
    non-empty segment of the whole path, and empty when there is none. *)
Lemma last_segment_stripped (s : jsstring) :
  last (split_slash (strip_trailing_slashes s)) [] =
  last (filter (fun seg => negb (is_empty seg)) (split_slash s)) [].
Proof.
  induction s as [|c s IH] using rev_ind; [reflexivity|].
  destruct (N.eq_dec c slash) as [-> | Hc].
  - rewrite strip_snoc_slash, split_slash_snoc_slash, filter_app. simpl.
    rewrite app_nil_r. exact IH.
  - rewrite (strip_snoc_other s c Hc), (split_slash_snoc_other s c Hc), filter_app.
    simpl. assert (E : is_empty (last (split_slash s) [] ++ [c]) = false).
    { destruct (last (split_slash s) []); reflexivity. }
    rewrite E. simpl. rewrite !last_last. reflexivity.
Qed.

(** [seg] is the last non-empty segment of the path. *)
Definition last_nonempty_segment (pathname seg : jsstring) : Prop :=
  seg <> [] /\
  exists before after : list jsstring,
    split_slash pathname = before ++ seg :: after /\
    Forall (fun s => s = []) after.

Lemma last_of_nonempty (l : list jsstring) :
  (Exists (fun s => s <> []) l ->
   last (filter (fun seg => negb (is_empty seg)) l) [] <> [] /\
   exists before after : list jsstring,
     l = before ++ last (filter (fun seg => negb (is_empty seg)) l) [] :: after /\
     Forall (fun s => s = []) after) /\
  (Forall (fun s => s = []) l ->
   last (filter (fun seg => negb (is_empty seg)) l) [] = []).
Proof.
  induction l as [|x l (IHsome & IHnone)] using rev_ind.
  - split; [intros H; inversion H | reflexivity].
  - rewrite filter_app. cbn [filter]. destruct x as [|c x]; cbn [is_empty negb].
    + rewrite app_nil_r. split.
      * intros H. apply Exists_app in H. destruct H as [H | H].
        -- destruct (IHsome H) as (Hne & before & after & E & Hall).
           split; [exact Hne|]. exists before, (after ++ [[]]).
           split; [rewrite E at 1; rewrite <- app_assoc; reflexivity|].
           apply Forall_app. split; [exact Hall | repeat constructor].
        -- inversion H as [? ? Hx|? ? Hx]; subst; [congruence | inversion Hx].
      * intros H. apply Forall_app in H. apply IHnone. apply H.
    + rewrite last_last. split.
      * intros _. split; [discriminate|]. exists l, [].
        split; [reflexivity | constructor].
      * intros H. apply Forall_app in H. destruct H as [_ H].
        inversion H as [|? ? Hx _]; subst. discriminate Hx.
Qed.

Section SlugProps.

Variable URL_pathname : jsstring -> option jsstring.

(** C7, as stated: on a URL that parses, the slug is the last non-empty
    segment of its path. *)
Definition slug_as_stated : Prop :=
  forall url pathname : jsstring,
    URL_pathname url = Some pathname ->
    last_nonempty_segment pathname (slugFromUrl URL_pathname url).

(** C7, amended. The slug is a function of the URL alone: when the URL
    does not parse it is the URL itself; otherwise the trailing slashes of
    the path are stripped and the last segment is returned, which is the
    last non-empty segment of the path when the path has one, and the
    empty string when it has none (as for the path "/"); the path
    /hub/inefficiencies/idle-ec2/ gives idle-ec2. *)
Theorem slugFromUrl_last_segment (url : jsstring) :
  (URL_pathname url = None -> slugFromUrl URL_pathname url = url) /\
  (forall pathname : jsstring,
      URL_pathname url = Some pathname ->
      slugFromUrl URL_pathname url =
        last (split_slash (strip_trailing_slashes pathname)) [] /\
      slugFromUrl URL_pathname url =
        last (filter (fun seg => negb (is_empty seg)) (split_slash pathname)) []) /\
  (URL_pathname (lit "https://site/hub/inefficiencies/idle-ec2/") =
     Some (lit "/hub/inefficiencies/idle-ec2/") ->
   slugFromUrl URL_pathname (lit "https://site/hub/inefficiencies/idle-ec2/") =
     lit "idle-ec2") /\
  (forall pathname : jsstring,
      URL_pathname url = Some pathname ->
      (Exists (fun s => s <> []) (split_slash pathname) ->
       last_nonempty_segment pathname (slugFromUrl URL_pathname url)) /\
      (Forall (fun s => s = []) (split_slash pathname) ->
       slugFromUrl URL_pathname url = [])).
Proof.
  unfold slugFromUrl, last_of. split; [|split; [|split]].
  - intros ->. reflexivity.
  - intros pathname ->. split; [reflexivity | apply last_segment_stripped].
  - intros ->. vm_compute. reflexivity.
  - intros pathname ->. rewrite last_segment_stripped.
    destruct (last_of_nonempty (split_slash pathname)) as (Hsome & Hnone).
    split; [|exact Hnone]. intros H. exact (Hsome H).
Qed.

End SlugProps.

End Slug.

(** ** Link collector *)

Module Links.

(** The entries of a sequence that are the first with their URL. *)
Fixpoint first_by_url (es : list link) : list link :=
  match es with
  | [] => []
  | e :: es' =>
      e :: filter (fun x => negb (str_eqb (link_url x) (link_url e)))
                  (first_by_url es')
  end.

Definition url_in (links : list link) (l : link) : bool :=
  existsb (fun x => str_eqb (link_url x) (link_url l)) links.

Lemma url_in_app (a b : list link) (l : link) :
  url_in (a ++ b) l = url_in a l || url_in b l.
Proof. unfold url_in. apply existsb_app. Qed.

Lemma url_in_true (links : list link) (l : link) :
  url_in links l = true <-> In (link_url l) (map link_url links).
Proof.
  unfold url_in. rewrite existsb_exists, in_map_iff. split.
  - intros (x & Hx & E). apply str_eqb_eq in E. exists x; split; assumption.
  - intros (x & E & Hx). exists x; split; [assumption|]. apply str_eqb_eq; exact E.
Qed.

Lemma keep_both (keep also : link -> bool) (entries : list link) :
  filter also (filter keep entries) =
  filter (fun e => andb (keep e) (also e)) entries.
Proof.
  induction entries as [|e entries IH]; simpl; [reflexivity|].
  case (keep e); simpl; [case (also e)|]; now rewrite IH.
Qed.

(** Pushing the entries one by one unless their URL is already there keeps
    the first entry of every URL, in the order met. *)
Lemma fold_push (es acc : list link) :
  fold_left push_unless_found es acc =
  acc ++ filter (fun x => negb (url_in acc x)) (first_by_url es).
Proof.
  revert acc; induction es as [|e es IH]; intros acc; simpl.
  - rewrite app_nil_r; reflexivity.
  - rewrite IH. unfold push_unless_found. fold (url_in acc e).
    rewrite keep_both. destruct (url_in acc e) eqn:E; simpl.
    + f_equal. apply filter_ext_in. intros x _.
      destruct (str_eqb (link_url x) (link_url e)) eqn:Q; simpl; [|reflexivity].
      apply str_eqb_eq in Q. apply url_in_true in E. rewrite <- Q in E.
      apply url_in_true in E. rewrite E. reflexivity.
    + rewrite <- app_assoc. simpl. do 2 f_equal. apply filter_ext. intros x.
      rewrite url_in_app. simpl. rewrite orb_false_r, negb_orb.
      rewrite (str_eqb_sym (link_url e) (link_url x)). apply andb_comm.
Qed.

Lemma distinct_urls_kept (keep : link -> bool) (entries : list link) :
  NoDup (map link_url entries) -> NoDup (map link_url (filter keep entries)).
Proof.
  induction entries as [|e entries IH]; simpl; [auto|].
  intros H. inversion H as [|? ? He Hrest]; subst.
  destruct (keep e); simpl; [|auto]. constructor; [|auto].
  intros Hin. apply He. apply in_map_iff in Hin. destruct Hin as (y & E & Hy).
  apply filter_In in Hy. apply in_map_iff. exists y. tauto.
Qed.

Lemma first_by_url_NoDup (es : list link) : NoDup (map link_url (first_by_url es)).
Proof.
  induction es as [|e es IH]; simpl; constructor.
  - intros Hin. apply in_map_iff in Hin. destruct Hin as (y & E & Hy).
    apply filter_In in Hy. destruct Hy as [_ Hy].
    apply negb_true_iff, str_eqb_neq in Hy. contradiction.
  - apply distinct_urls_kept. exact IH.
Qed.

(** An absolute URL string begins with a scheme: a letter, then letters,
    digits, [+], [-] or [.], then a colon. *)
Definition is_alpha (c : char) : bool :=
  ((65 <=? c) && (c <=? 90) || (97 <=? c) && (c <=? 122))%N.

Fixpoint scheme_rest (s : jsstring) : bool :=
  match s with
  | [] => false
  | c :: s' =>
      if N.eqb c 58 then true
      else if is_alpha c || is_digit c || N.eqb c 43 || N.eqb c 45 || N.eqb c 46
      then scheme_rest s'
      else false
  end.

Definition absolute_url (s : jsstring) : bool :=
  match s with
  | c :: s' => is_alpha c && scheme_rest s'
  | [] => false
  end.

Section LinkProps.

Variable URL_resolve : jsstring -> jsstring -> option jsstring.

Local Abbreviation anchor_entry := (Scraper.anchor_entry URL_resolve).
Local Abbreviation forEach_anchor := (Scraper.forEach_anchor URL_resolve).
Local Abbreviation extractDocumentationLinks_loop :=
  (Scraper.extractDocumentationLinks_loop URL_resolve).
Local Abbreviation extractDocumentationLinks :=
  (Scraper.extractDocumentationLinks URL_resolve).

(** The entries of a sequence of anchors, in order; it throws when the
    [href] of one of them cannot be resolved. *)
Fixpoint entries_of (anchors : list node) : result (list link) :=
  match anchors with
  | [] => Ok []
  | a :: anchors' =>
      e <~ anchor_entry a ;;
      es <~ entries_of anchors' ;;
      Ok (match e with Some l => l :: es | None => es end)
  end.

(** The anchors looked at for the text nodes [visited]: those below the
    parent element of each, in document order. *)
Definition candidates (visited : list text_node) : list node :=
  flat_map (fun n => match ancestors n with
                     | [] => []
                     | parentEl :: _ => querySelectorAll_a_href parentEl
                     end) visited.

Lemma entries_of_app (a b : list node) :
  entries_of (a ++ b) =
  (x <~ entries_of a ;; y <~ entries_of b ;; Ok (x ++ y)).
Proof.
  induction a as [|n a IH]; simpl.
  - destruct (entries_of b); reflexivity.
  - destruct (anchor_entry n) as [e|err]; simpl; [|reflexivity].
    rewrite IH. destruct (entries_of a) as [x|err]; simpl; [|reflexivity].
    destruct (entries_of b) as [y|err]; simpl; [|reflexivity].
    destruct e; reflexivity.
Qed.

Lemma forEach_entries (anchors : list node) (links : list link) :
  forEach_anchor anchors links =
  (es <~ entries_of anchors ;; Ok (fold_left push_unless_found es links)).
Proof.
  revert links; induction anchors as [|a anchors IH]; intros links; simpl.
  - reflexivity.
  - destruct (anchor_entry a) as [[l|]|err]; simpl; [| |reflexivity].
    + rewrite IH. destruct (entries_of anchors); reflexivity.
    + rewrite IH. destruct (entries_of anchors); reflexivity.
Qed.

Definition stops_node (n : text_node) : Prop :=
  stops RelevantDocumentation (textValue n).

Lemma loop_after_heading (w visited rest : list text_node) (links : list link) :
  content_nodes w = visited ++ rest ->
  Forall (fun n => ~ stops_node n) visited ->
  rest = [] \/ (exists s r, rest = s :: r /\ stops_node s) ->
  extractDocumentationLinks_loop true links w =
  (es <~ entries_of (candidates visited) ;;
   Ok (fold_left push_unless_found es links)).
Proof.
  revert visited links; induction w as [|node w IH]; intros visited links;
    cbn [Scraper.extractDocumentationLinks_loop negb].
  - intros Hs _ _. destruct visited; [|discriminate]. reflexivity.
  - rewrite content_nodes_cons. destruct (is_empty (textValue node)) eqn:E.
    + apply IH.
    + intros Hs Hv Hr. destruct visited as [|v visited]; simpl in Hs.
      * destruct Hr as [-> | (s & r & -> & Hstop)]; [discriminate|].
        injection Hs as Hn _. subst s. apply stops_test in Hstop.
        rewrite Hstop. reflexivity.
      * injection Hs as Hn Hw. subst v. inversion Hv as [|? ? Hn Hv']; subst.
        destruct (arr_includes SECTION_TITLES (textValue node)
                  && negb (str_eqb (textValue node) RelevantDocumentation)) eqn:T.
        { apply stops_test in T. contradiction. }
        unfold candidates; cbn [flat_map]; fold (candidates visited).
        destruct (ancestors node) as [|parentEl ups].
        { apply (IH visited links Hw Hv' Hr). }
        rewrite entries_of_app, forEach_entries.
        destruct (entries_of (querySelectorAll_a_href parentEl)) as [x|err];
          simpl; [|reflexivity].
        rewrite (IH visited _ Hw Hv' Hr).
        destruct (entries_of (candidates visited)) as [y|err]; simpl; [|reflexivity].
        rewrite fold_left_app. reflexivity.
Qed.

Lemma loop_no_heading (w : list text_node) (links : list link) :
  ~ In RelevantDocumentation (texts_of w) ->
  extractDocumentationLinks_loop false links w = Ok links.
Proof.
  induction w as [|node w IH]; cbn [Scraper.extractDocumentationLinks_loop negb];
    [reflexivity|].
  rewrite texts_of_cons. destruct (is_empty (textValue node)) eqn:E; [exact IH|].
  intros H. destruct (str_eqb (textValue node) RelevantDocumentation) eqn:Q.
  - apply str_eqb_eq in Q. exfalso; apply H; left; exact Q.
  - apply IH. intros Hin; apply H; right; exact Hin.
Qed.

Lemma loop_to_heading (w pre visited rest : list text_node) (h : text_node)
    (links : list link) :
  content_nodes w = pre ++ h :: visited ++ rest ->
  textValue h = RelevantDocumentation ->
  Forall (fun p => textValue p <> RelevantDocumentation) pre ->
  Forall (fun n => ~ stops_node n) visited ->
  rest = [] \/ (exists s r, rest = s :: r /\ stops_node s) ->
  extractDocumentationLinks_loop false links w =
  (es <~ entries_of (candidates visited) ;;
   Ok (fold_left push_unless_found es links)).
Proof.
  revert pre; induction w as [|node w IH]; intros pre;
    cbn [Scraper.extractDocumentationLinks_loop negb].
  - destruct pre; discriminate.
  - rewrite content_nodes_cons. destruct (is_empty (textValue node)) eqn:E.
    + apply IH.
    + intros Hs Hh Hpre Hv Hr. destruct pre as [|p pre]; simpl in Hs.
      * injection Hs as Hn Hw. subst node. rewrite Hh, str_eqb_refl.
        apply loop_after_heading with (rest := rest); assumption.
      * injection Hs as Hn Hw. subst p. inversion Hpre as [|? ? Hp Hpre']; subst.
        apply str_eqb_neq in Hp. rewrite Hp.
        apply (IH pre Hw Hh Hpre' Hv Hr).
Qed.

(** [a.getAttribute("href")] *)
Definition anchor_href (a : node) : option jsstring :=
  match a with
  | Element _ attrs _ => getAttribute attrs (lit "href")
  | _ => None
  end.

(** What an entry of the result owes to the anchor it was read from. *)
Definition entry_of_anchor (l : link) : Prop :=
  exists (a : node) (href : jsstring),
    is_anchor_with_href a = true /\
    anchor_href a = Some href /\
    href <> [] /\
    link_title l = anchor_title a /\
    (if startsWith href (lit "http")
     then link_url l = href
     else URL_resolve href BASE_URL = Some (link_url l)).

Definition collected (links : list link) : Prop :=
  NoDup (map link_url links) /\ Forall entry_of_anchor links.

Lemma NoDup_snoc {A : Type} (l : list A) (x : A) :
  NoDup l -> ~ In x l -> NoDup (l ++ [x]).
Proof.
  induction 1 as [|y l Hy Hl IH]; simpl; intros Hx.
  - constructor; [intros [] | constructor].
  - constructor.
    + rewrite in_app_iff. simpl. intros [H | [H | []]]; [contradiction|].
      apply Hx; left; symmetry; exact H.
    + apply IH. intros H; apply Hx; right; exact H.
Qed.

Lemma push_collected (links : list link) (l : link) :
  collected links -> entry_of_anchor l -> collected (push_unless_found links l).
Proof.
  intros [Hn Hf] Hl. unfold push_unless_found. fold (url_in links l).
  destruct (url_in links l) eqn:E; [split; assumption|]. split.
  - rewrite map_app. simpl. apply NoDup_snoc; [exact Hn|].
    intros Hin. apply url_in_true in Hin. congruence.
  - apply Forall_app. split; [exact Hf | constructor; [exact Hl | constructor]].
Qed.

Lemma anchor_entry_of_anchor (a : node) (l : link) :
  is_anchor_with_href a = true ->
  anchor_entry a = Ok (Some l) ->
  entry_of_anchor l.
Proof.
  intros Ha. unfold Scraper.anchor_entry. destruct a as [| |tag attrs cs];
    try discriminate.
  destruct (getAttribute attrs (lit "href")) as [href|] eqn:G; [|discriminate].
  destruct (is_empty href) eqn:E; [discriminate|].
  unfold absolute_or_resolved.
  destruct (startsWith href (lit "http")) eqn:S.
  - intros H; injection H as <-. exists (Element tag attrs cs), href.
    simpl. rewrite S. repeat split; try assumption.
    apply is_empty_false; exact E.
  - destruct (URL_resolve href BASE_URL) as [url|] eqn:R; [|discriminate].
    intros H; injection H as <-. exists (Element tag attrs cs), href.
    simpl. rewrite S. repeat split; try assumption.
    apply is_empty_false; exact E.
Qed.

Lemma forEach_collected (anchors : list node) (links links' : list link) :
  Forall (fun a => is_anchor_with_href a = true) anchors ->
  collected links ->
  forEach_anchor anchors links = Ok links' ->
  collected links'.
Proof.
  intros Ha; revert links; induction Ha as [|a anchors Hx _ IH]; intros links Hc;
    simpl.
  - intros H; injection H as <-; exact Hc.
  - destruct (anchor_entry a) as [[l|]|err] eqn:E; [| |discriminate].
    + apply IH. apply push_collected; [exact Hc|].
      apply (anchor_entry_of_anchor a l Hx E).
    + apply IH; exact Hc.
Qed.

Lemma loop_collected (w : list text_node) (b : bool) (links links' : list link) :
  collected links ->
  extractDocumentationLinks_loop b links w = Ok links' ->
  collected links'.
Proof.
  revert b links; induction w as [|node w IH]; intros b links Hc;
    cbn [Scraper.extractDocumentationLinks_loop].
  - intros H; injection H as <-; exact Hc.
  - destruct (is_empty (textValue node)); [apply IH; exact Hc|].
    destruct b; cbn [negb].
    + destruct (arr_includes SECTION_TITLES (textValue node)
                && negb (str_eqb (textValue node) RelevantDocumentation)).
      { intros H; injection H as <-; exact Hc. }
      destruct (ancestors node) as [|parentEl ups]; [apply IH; exact Hc|].
      destruct (forEach_anchor (querySelectorAll_a_href parentEl) links)
        as [links1|err] eqn:F; [|discriminate].
      apply IH. eapply forEach_collected; [|exact Hc|exact F].
      apply Forall_forall. intros a Hin. unfold querySelectorAll_a_href in Hin.
      apply filter_In in Hin. tauto.
    + destruct (str_eqb (textValue node) RelevantDocumentation); apply IH; exact Hc.
Qed.

(** C6, as stated: every URL of the result is an absolute URL. *)
Definition urls_absolute (d : document) : Prop :=
  forall links : list link,
    extractDocumentationLinks d = Ok links ->
    Forall (fun l => absolute_url (link_url l) = true) links.

(** C6, amended. The link collector returns no links for a document
    without the heading; its result never has two entries with the same
    URL; every entry comes from an anchor with a non-empty [href], has the
    trimmed text of the anchor as title ([null] when that is empty), and
    has as URL the [href] itself when it starts with "http" and otherwise
    the [href] resolved against the base URL; and the result keeps, in the
    order met, the first entry of every URL among the anchors below the
    parent elements of the non-empty text nodes between the heading and
    the next other registry heading (it throws when one of these [href]s
    cannot be resolved). *)
Theorem extractDocumentationLinks_collects (d : document) :
  (~ In RelevantDocumentation (texts d) -> extractDocumentationLinks d = Ok []) /\
  (forall links : list link,
      extractDocumentationLinks d = Ok links ->
      NoDup (map link_url links) /\ Forall entry_of_anchor links) /\
  (forall (pre visited rest : list text_node) (h : text_node),
      content_nodes (createTreeWalker d) = pre ++ h :: visited ++ rest ->
      textValue h = RelevantDocumentation ->
      Forall (fun p => textValue p <> RelevantDocumentation) pre ->
      Forall (fun n => ~ stops_node n) visited ->
      rest = [] \/ (exists s r, rest = s :: r /\ stops_node s) ->
      extractDocumentationLinks d =
      (es <~ entries_of (candidates visited) ;; Ok (first_by_url es))).
Proof.
  unfold Scraper.extractDocumentationLinks. split; [|split].
  - apply loop_no_heading.
  - intros links H. eapply loop_collected; [|exact H].
    split; constructor.
  - intros pre visited rest h Hs Hh Hpre Hv Hr.
    rewrite (loop_to_heading _ pre visited rest h [] Hs Hh Hpre Hv Hr).
    destruct (entries_of (candidates visited)) as [es|err]; simpl; [|reflexivity].
    rewrite fold_push. cbn [app]. f_equal.
    induction (first_by_url es) as [|x l IH]; simpl; [reflexivity|].
    f_equal. exact IH.
Qed.

End LinkProps.

End Links.

(** ** The validator *)

Module Validator.

(** A present, non-empty string. *)
Definition nonempty_string (v : value) : Prop :=
  exists s : jsstring, v = VStr s /\ s <> [].

(** A string that starts with "http". *)
Definition looks_absolute (v : value) : Prop :=
  exists s : jsstring, v = VStr s /\ startsWith s (lit "http") = true.

(** A string that is an absolute URL: it begins with a scheme. *)
Definition is_absolute (v : value) : Prop :=
  exists s : jsstring, v = VStr s /\ Links.absolute_url s = true.

(** A present, non-empty string that does not start with "http". *)
Definition present_not_http (v : value) : Prop :=
  exists s : jsstring, v = VStr s /\ s <> [] /\ startsWith s (lit "http") = false.

Lemma get_ok (v x : value) (k : string) : get v k = Ok x -> x = get_opt v k.
Proof. destruct v; simpl; intros H; inversion H; reflexivity. Qed.

Lemma not_nonempty_string (v : value) :
  negb (truthy v) || negb (is_string v) = true <-> ~ nonempty_string v.
Proof.
  unfold nonempty_string. destruct v as [| |b|n|s|l|p]; simpl;
    try (split; [intros _ (s' & E & _); discriminate | reflexivity]).
  - destruct b; simpl; (split; [intros _ (s' & E & _); discriminate | reflexivity]).
  - destruct (Z.eqb n 0); simpl;
      (split; [intros _ (s' & E & _); discriminate | reflexivity]).
  - rewrite orb_false_r, negb_involutive. split.
    + intros E (s' & H & Hs). injection H as <-. apply is_empty_true in E. contradiction.
    + intros H. destruct s; [reflexivity|]. exfalso. apply H. eexists; split; [reflexivity | discriminate].
Qed.

(** The check of one URL, shared by the source URL and the links. *)
Lemma url_check (url : value) (errors errors' : list jsstring) (msg : jsstring) :
  (if truthy url
   then http <~ value_startsWith url "http" ;;
        Ok (if negb http then errors ++ [msg] else errors)
   else Ok errors) = Ok errors' ->
  (present_not_http url /\ errors' = errors ++ [msg]) \/
  (~ present_not_http url /\ errors' = errors).
Proof.
  unfold present_not_http.
  destruct url as [| |b|n|s|l|p]; simpl;
    try (intros H; injection H as <-; right; split;
         [intros (s' & E & _); discriminate | reflexivity]).
  - destruct b; simpl; [discriminate|].
    intros H; injection H as <-; right; split;
      [intros (s' & E & _); discriminate | reflexivity].
  - destruct (Z.eqb n 0); simpl; [|discriminate].
    intros H; injection H as <-; right; split;
      [intros (s' & E & _); discriminate | reflexivity].
  - destruct (is_empty s) eqn:E; simpl.
    + intros H; injection H as <-. right. split; [|reflexivity].
      intros (s' & H & Hs & _). injection H as <-. apply is_empty_true in E.
      contradiction.
    + destruct (startsWith s (lit "http")) eqn:S; simpl;
        intros H; injection H as <-.
      * right. split; [|reflexivity]. intros (s' & H & _ & Hs).
        injection H as <-. congruence.
      * left. split; [|reflexivity]. exists s. repeat split; try assumption.
        apply is_empty_false; exact E.
  - discriminate.
  - discriminate.
Qed.

Lemma forEach_link_flags (items : list value) (idx : N)
    (errors errors' : list jsstring) :
  forEach_link items idx errors = Ok errors' ->
  exists extra : list jsstring,
    errors' = errors ++ extra /\
    (extra <> [] <-> Exists (fun link => present_not_http (get_opt link "url")) items).
Proof.
  revert idx errors; induction items as [|link items IH]; intros idx errors; simpl.
  - intros H; injection H as <-. exists []. rewrite app_nil_r. split; [reflexivity|].
    split; [congruence | intros H; inversion H].
  - destruct (get link "url") as [url|e] eqn:G; simpl; [|discriminate].
    apply get_ok in G. subst url.
    match goal with
    | |- rbind ?c _ = _ -> _ => destruct c as [errors1|e] eqn:C; simpl; [|discriminate]
    end.
    apply url_check in C. intros H. apply IH in H.
    destruct H as (extra & -> & Hx).
    destruct C as [[Hbad ->] | [Hgood ->]].
    + eexists. rewrite <- app_assoc. split; [reflexivity|]. split.
      * intros _. left. exact Hbad.
      * intros _. discriminate.
    + exists extra. split; [reflexivity|]. rewrite Hx. split.
      * intros H. right. exact H.
      * intros H. inversion H; [contradiction | assumption].
Qed.

(** On a string that is not empty the guarded test and the plain test
    agree. *)
Lemma present_not_http_iff (s : jsstring) :
  s <> [] -> (present_not_http (VStr s) <-> ~ looks_absolute (VStr s)).
Proof.
  intros Hs. unfold present_not_http, looks_absolute. split.
  - intros (s1 & E1 & _ & F) (s2 & E2 & T).
    assert (s1 = s) by congruence. assert (s2 = s) by congruence.
    subst s1 s2. rewrite T in F. discriminate F.
  - intros H. exists s. split; [reflexivity|]. split; [exact Hs|].
    destruct (startsWith s (lit "http")) eqn:T; [|reflexivity].
    exfalso. apply H. exists s. split; [reflexivity | exact T].
Qed.

Lemma link_url_read (l : link) : get_opt (link_value l) "url" = VStr (link_url l).
Proof. reflexivity. Qed.

Lemma links_flagged_iff (links : list link) :
  Forall (fun l => link_url l <> []) links ->
  (Exists (fun link => present_not_http (get_opt link "url")) (map link_value links) <->
   Exists (fun link => ~ looks_absolute (get_opt link "url")) (map link_value links)).
Proof.
  induction 1 as [|l links Hl _ IH]; cbn [map].
  - split; intros H; inversion H.
  - pose proof (present_not_http_iff (link_url l) Hl) as [P1 P2].
    destruct IH as [I1 I2].
    split; intros H; inversion H as [? ? Hx|? ? Hx]; subst.
    + apply Exists_cons_hd. rewrite link_url_read in *. apply P1. exact Hx.
    + apply Exists_cons_tl. apply I1. exact Hx.
    + apply Exists_cons_hd. rewrite link_url_read in *. apply P2. exact Hx.
    + apply Exists_cons_tl. apply I2. exact Hx.
Qed.

Section ValidatorProps.

Variable Date_parse : value -> option Z.

Local Abbreviation validateScrapedData := (Scraper.validateScrapedData Date_parse).

(** The timestamp is missing or does not parse. *)
Definition bad_timestamp (v : value) : Prop :=
  truthy v = false \/ Date_parse v = None.

(** The conditions under which the code flags a record. *)
Definition flagged (data : value) : Prop :=
  ~ nonempty_string (get_opt data "id") \/
  ~ nonempty_string (get_opt data "title") \/
  present_not_http (get_opt (get_opt data "source") "url") \/
  (exists items : list value,
      get_opt data "documentation_links" = VArr items /\
      Exists (fun link => present_not_http (get_opt link "url")) items) \/
  bad_timestamp (get_opt data "scraped_at").

(** The conditions without the guards of the URL tests: a URL is flagged
    when it does not start with "http". *)
Definition flagged_unguarded (data : value) : Prop :=
  ~ nonempty_string (get_opt data "id") \/
  ~ nonempty_string (get_opt data "title") \/
  ~ looks_absolute (get_opt (get_opt data "source") "url") \/
  (exists items : list value,
      get_opt data "documentation_links" = VArr items /\
      Exists (fun link => ~ looks_absolute (get_opt link "url")) items) \/
  bad_timestamp (get_opt data "scraped_at").

(** The conditions of C8 as stated: the source URL does not look absolute,
    or a documentation link has a URL that is not absolute. *)
Definition flagged_as_stated (data : value) : Prop :=
  ~ nonempty_string (get_opt data "id") \/
  ~ nonempty_string (get_opt data "title") \/
  ~ looks_absolute (get_opt (get_opt data "source") "url") \/
  (exists items : list value,
      get_opt data "documentation_links" = VArr items /\
      Exists (fun link => ~ is_absolute (get_opt link "url")) items) \/
  bad_timestamp (get_opt data "scraped_at").


Lemma snoc_not_nil {A : Type} (l : list A) (x : A) : l ++ [x] <> [].
Proof. destruct l; discriminate. Qed.

Lemma or_regroup (A B C D E : Prop) :
  ((A \/ B \/ C) \/ D) \/ E <-> A \/ B \/ C \/ D \/ E.
Proof. tauto. Qed.

(** The verdict of the validator, when it returns. *)
Lemma validateScrapedData_flags (data : value) (v : validation) :
  validateScrapedData data = Ok v ->
  (isValid v = false <-> flagged data).
Proof.
  unfold Scraper.validateScrapedData, flagged, bad_timestamp.
  destruct (get data "id") as [id|e] eqn:G1; simpl; [|discriminate].
  destruct (get data "title") as [title|e] eqn:G2; simpl; [|discriminate].
  destruct (get data "source") as [source|e] eqn:G3; simpl; [|discriminate].
  apply get_ok in G1, G2, G3. subst id title source.
  set (c1 := negb (truthy (get_opt data "id")) || negb (is_string (get_opt data "id"))).
  set (c2 := negb (truthy (get_opt data "title"))
             || negb (is_string (get_opt data "title"))).
  pose proof (not_nonempty_string (get_opt data "id")) as H1. fold c1 in H1.
  pose proof (not_nonempty_string (get_opt data "title")) as H2. fold c2 in H2.
  set (errors1 := if c1 then [lit "Missing or invalid id"] else []).
  set (errors2 := if c2 then errors1 ++ [lit "Missing or invalid title"] else errors1).
  match goal with
  | |- rbind ?c _ = _ -> _ => destruct c as [errors3|e] eqn:C3; simpl; [|discriminate]
  end.
  apply url_check in C3.
  destruct (get data "documentation_links") as [links|e] eqn:G4; simpl; [|discriminate].
  apply get_ok in G4. subst links.
  match goal with
  | |- rbind ?c _ = _ -> _ => destruct c as [errors4|e] eqn:C4; simpl; [|discriminate]
  end.
  destruct (get data "scraped_at") as [scraped|e] eqn:G5; simpl; [|discriminate].
  apply get_ok in G5. subst scraped.
  match goal with
  | |- rbind ?c _ = _ -> _ => destruct c as [text|e]; cbn [rbind]; [|discriminate]
  end.
  set (c5 := negb (truthy (get_opt data "scraped_at"))
             || match Date_parse (get_opt data "scraped_at") with
                | None => true | Some _ => false end).
  assert (H5 : c5 = true <->
               truthy (get_opt data "scraped_at") = false \/
               Date_parse (get_opt data "scraped_at") = None).
  { unfold c5. rewrite orb_true_iff, negb_true_iff.
    destruct (Date_parse (get_opt data "scraped_at")); split;
      intros [H | H]; auto; discriminate. }
  assert (H4 : exists extra,
             errors4 = errors3 ++ extra /\
             (extra <> [] <->
              exists items, get_opt data "documentation_links" = VArr items /\
                Exists (fun link => present_not_http (get_opt link "url")) items)).
  { destruct (get_opt data "documentation_links") as [| |b|n|s|items|p] eqn:L;
      try (injection C4 as <-; exists []; rewrite app_nil_r; split; [reflexivity|];
           split; [congruence | intros (items & E & _); discriminate]).
    apply forEach_link_flags in C4. destruct C4 as (extra & -> & Hx).
    exists extra. split; [reflexivity|]. rewrite Hx. split.
    - intros H. exists items. split; [reflexivity | exact H].
    - intros (items' & E & H). injection E as <-. exact H. }
  destruct H4 as (extra & -> & H4).
  intros H; injection H as <-. simpl.
  assert (V : forall l : list jsstring,
             match l with [] => true | _ :: _ => false end = false <-> l <> []).
  { intros [|x l]; split; congruence. }
  rewrite V. clear V.
  assert (E1 : errors1 <> [] <-> c1 = true).
  { unfold errors1. destruct c1; split; congruence. }
  assert (E2 : errors2 <> [] <-> c1 = true \/ c2 = true).
  { unfold errors2. destruct c2.
    - split; [auto | intros _; apply snoc_not_nil].
    - rewrite E1. split; [auto | intros [H | H]; [exact H | discriminate]]. }
  assert (E3 : errors3 <> [] <->
               c1 = true \/ c2 = true \/
               present_not_http (get_opt (get_opt data "source") "url")).
  { destruct C3 as [[Hb ->] | [Hg ->]].
    - split; [auto | intros _; apply snoc_not_nil].
    - rewrite E2. tauto. }
  assert (E4 : errors3 ++ extra <> [] <-> errors3 <> [] \/ extra <> []).
  { split.
    - intros H. destruct errors3; [right; intros ->; apply H; reflexivity|].
      left; discriminate.
    - intros [H | H] E; apply app_eq_nil in E; destruct E; contradiction. }
  assert (E5 : (if c5 then (errors3 ++ extra)
                           ++ [lit "Missing or invalid scraped_at timestamp"]
                else errors3 ++ extra) <> [] <->
               errors3 ++ extra <> [] \/ c5 = true).
  { destruct c5.
    - split; [auto | intros _; apply snoc_not_nil].
    - split; [auto | intros [H | H]; [exact H | discriminate]]. }
  rewrite E5, E4, E3, H4, H5, H1, H2. apply or_regroup.
Qed.

End ValidatorProps.

End Validator.

(** ** The record assembler *)

Module Assembler.

(** The world after a line was logged. *)
Definition logged (l : level) (msg : string) (w : World) : World :=
  snd (log l msg w).

Lemma bind_log {A : Type} (l : level) (msg : string) (k : unit -> M A) (w : World) :
  bind (log l msg) k w = k tt (logged l msg w).
Proof. reflexivity. Qed.

Lemma bind_ret {A B : Type} (a : A) (k : A -> M B) (w : World) :
  bind (ret a) k w = k a w.
Proof. reflexivity. Qed.

(** Decide the comparisons of property names. *)
Ltac eval_keys :=
  repeat match goal with
         | |- context [str_eqb (lit ?a) (lit ?b)] =>
             let r := eval vm_compute in (str_eqb (lit a) (lit b)) in
             change (str_eqb (lit a) (lit b)) with r
         end.

(** Read the properties of an object that is written out. *)
Ltac read_props := repeat (progress (cbn [get_opt lookup]; eval_keys; cbv iota)).

(** [v ?? ""] for a string or [null]. *)
Definition or_empty (o : option jsstring) : jsstring :=
  match o with Some s => s | None => [] end.

(** The record of a detail page, from the pieces read off the page. *)
Definition record_of (id : jsstring) (title author category provider service kind
                      explanation billing : option jsstring)
    (signals actions : list jsstring) (links : list link)
    (url scraped_at : jsstring) : value :=
  VObj
    [ (lit "id", VStr id);
      (lit "title", of_option title);
      (lit "author", of_option author);
      (lit "service_category", of_option category);
      (lit "cloud_provider", of_option provider);
      (lit "service_name", of_option service);
      (lit "inefficiency_type", of_option kind);
      (lit "explanation", VStr (or_empty explanation));
      (lit "billing_model", VStr (or_empty billing));
      (lit "detection_signals", of_strings signals);
      (lit "remediation_actions", of_strings actions);
      (lit "documentation_links", VArr (map link_value links));
      (lit "tags", VArr []);
      (lit "source", VObj [ (lit "url", VStr url); (lit "origin", VStr ORIGIN) ]);
      (lit "scraped_at", VStr scraped_at) ].

Section AssemblerProps.

Variable URL_pathname : jsstring -> option jsstring.
Variable URL_resolve : jsstring -> jsstring -> option jsstring.
Variable Date_parse : value -> option Z.

Local Abbreviation slugFromUrl := (Scraper.slugFromUrl URL_pathname).
Local Abbreviation extractDocumentationLinks :=
  (Scraper.extractDocumentationLinks URL_resolve).
Local Abbreviation parseInefficiencyDetail :=
  (Scraper.parseInefficiencyDetail URL_pathname URL_resolve).
Local Abbreviation validateScrapedData := (Scraper.validateScrapedData Date_parse).

Lemma coalesce_of_option (o : option jsstring) : coalesce (of_option o) VNull = of_option o.
Proof. destruct o; reflexivity. Qed.

Lemma coalesce_or_empty (o : option jsstring) :
  coalesce (of_option o) (VStr []) = VStr (or_empty o).
Proof. destruct o; reflexivity. Qed.

(** A detail page that was fetched and whose links resolve gives the record
    of its pieces, stamped with the clock as read after the fetch. *)
Lemma parseInefficiencyDetail_record (url : jsstring) (w w1 : World) (record : value) :
  parseInefficiencyDetail url w = (Ok record, w1) ->
  exists (document : document) (links : list link)
         (title author category provider service kind : option jsstring),
    fetchDocument url w = (Ok document, w1) /\
    extractDocumentationLinks document = Ok links /\
    record =
      record_of (slugFromUrl url) title author category provider service kind
        (extractSectionParagraph document (lit "Explanation"))
        (extractSectionParagraph document (lit "Relevant Billing Model"))
        (extractSectionList document (lit "Detection"))
        (extractSectionList document (lit "Remediation"))
        links url (clock w1 (tick w1)).
Proof.
  unfold Scraper.parseInefficiencyDetail. unfold bind at 1.
  destruct (fetchDocument url w) as [[document|e] w'] eqn:F; [|discriminate].
  unfold bind at 1. unfold lift at 1.
  destruct (extractDocumentationLinks document) as [links|e] eqn:L; [|discriminate].
  unfold bind at 1. unfold now_iso at 1.
  unfold mapToSchema, bind, lift, get, get_opt, ret. cbn [lookup].
  eval_keys. cbv iota. cbn [nullish].
  rewrite !coalesce_of_option, !coalesce_or_empty.
  intros H. injection H as <- <-.
  exists document, links. do 6 eexists.
  split; [reflexivity|]. split; [exact L|].
  unfold record_of, array_or_empty, of_strings, coalesce. cbn [isArray nullish].
  reflexivity.
Qed.

Lemma forEach_link_values (links : list link) (idx : N) (errors : list jsstring) :
  exists errors' : list jsstring,
    forEach_link (map link_value links) idx errors = Ok errors'.
Proof.
  revert idx errors; induction links as [|l links IH]; intros idx errors.
  - exists errors. reflexivity.
  - cbn [map forEach_link]. unfold link_value at 1. unfold get.
    cbn [lookup rbind]. eval_keys. cbv iota. cbn [rbind truthy value_startsWith].
    destruct (negb (is_empty (link_url l))); cbn [rbind]; apply IH.
Qed.

(** The validator returns on every record of a detail page. *)
Lemma validateScrapedData_record_of (id : jsstring)
    (title author category provider service kind explanation billing : option jsstring)
    (signals actions : list jsstring) (links : list link) (url scraped_at : jsstring) :
  exists v : validation,
    validateScrapedData
      (record_of id title author category provider service kind explanation billing
                 signals actions links url scraped_at) = Ok v.
Proof.
  unfold Scraper.validateScrapedData, record_of, get, get_opt.
  cbn [lookup rbind]. eval_keys. cbv iota.
  cbn [lookup rbind]. eval_keys. cbv iota.
  cbn [lookup rbind truthy value_startsWith].
  destruct (negb (is_empty url)); cbn [rbind].
  all: match goal with
    | |- context [forEach_link (map link_value ?ls) ?i ?e] =>
        destruct (forEach_link_values ls i e) as [errors4 E4]; rewrite E4
    end; cbn [rbind lookup]; eval_keys; cbv iota; cbn [truthy to_String];
    destruct (negb (is_empty scraped_at)); cbn [rbind]; eexists; reflexivity.
Qed.

Lemma isArray_array_or_empty (v : value) : isArray (array_or_empty v) = true.
Proof. unfold array_or_empty. destruct (isArray v) eqn:E; [exact E | reflexivity]. Qed.

(** Whatever it is given, the schema mapping returns arrays in the four
    sequence fields, the constant origin and a timestamp that is there. *)
Lemma mapToSchema_shape (raw out : value) (w w' : World) :
  mapToSchema raw w = (Ok out, w') ->
  isArray (get_opt out "detection_signals") = true /\
  isArray (get_opt out "remediation_actions") = true /\
  isArray (get_opt out "documentation_links") = true /\
  isArray (get_opt out "tags") = true /\
  get_opt (get_opt out "source") "origin" = VStr ORIGIN /\
  nullish (get_opt out "scraped_at") = false.
Proof.
  unfold mapToSchema, bind, lift, ret, now_iso.
  destruct (get raw "id") as [id|e] eqn:G; [|discriminate].
  assert (Hget : forall k, get raw k = Ok (get_opt raw k)).
  { intros k. destruct raw; try discriminate; reflexivity. }
  rewrite !Hget.
  destruct (nullish (get_opt raw "scraped_at")) eqn:S;
    intros H; injection H as <- _; read_props;
    rewrite !isArray_array_or_empty; repeat split; try reflexivity; exact S.
Qed.

Lemma last_In {A : Type} (l : list A) (d : A) : l <> [] -> In (last l d) l.
Proof.
  induction l as [|x l IH]; [congruence|]. intros _.
  destruct l as [|y l]; [left; reflexivity|].
  right. apply IH. discriminate.
Qed.

(** The slug is not empty when the path has a segment that is not. *)
Lemma slugFromUrl_nonempty (url pathname seg : jsstring) :
  URL_pathname url = Some pathname ->
  In seg (split_slash pathname) -> seg <> [] ->
  slugFromUrl url <> [].
Proof.
  intros Hp Hin Hseg. unfold Scraper.slugFromUrl, last_of. rewrite Hp.
  rewrite Slug.last_segment_stripped.
  set (segs := filter (fun s => negb (is_empty s)) (split_slash pathname)).
  assert (Hne : segs <> []).
  { intros E. assert (Hs : In seg segs).
    { apply filter_In. split; [exact Hin|]. apply negb_true_iff, is_empty_false.
      exact Hseg. }
    rewrite E in Hs. exact Hs. }
  pose proof (last_In segs [] Hne) as Hl. apply filter_In in Hl.
  destruct Hl as [_ Hl]. apply negb_true_iff, is_empty_false in Hl. exact Hl.
Qed.

(** The record of a detail page carries the URL it was asked for. *)
Lemma parsed_record_source_url (url : jsstring) (w w1 : World) (record : value) :
  parseInefficiencyDetail url w = (Ok record, w1) ->
  get_opt (get_opt record "source") "url" = VStr url.
Proof.
  intros H. apply parseInefficiencyDetail_record in H.
  destruct H as (document & links & title & author & category & provider
                 & service & kind & _ & _ & ->).
  reflexivity.
Qed.

(** C9, as stated for the id: every record has a non-empty id. *)
Definition ids_nonempty : Prop :=
  forall (url : jsstring) (w w1 : World) (record : value),
    parseInefficiencyDetail url w = (Ok record, w1) ->
    Validator.nonempty_string (get_opt record "id").

(** C9, amended. Every record the assembler produces has as id a string,
    the slug of its URL, which is non-empty whenever the path of the URL
    has a non-empty segment; has as scraped_at the string the clock gives
    in ISO form; has arrays in detection_signals, remediation_actions,
    documentation_links and tags, the last one empty; and has the constant
    origin in its source, next to the URL it was asked for. The schema
    mapping alone already gives the arrays, the origin and a timestamp for
    any input it returns on. *)
Theorem assembled_record_invariants :
  (forall (raw out : value) (w w' : World),
      mapToSchema raw w = (Ok out, w') ->
      isArray (get_opt out "detection_signals") = true /\
      isArray (get_opt out "remediation_actions") = true /\
      isArray (get_opt out "documentation_links") = true /\
      isArray (get_opt out "tags") = true /\
      get_opt (get_opt out "source") "origin" = VStr ORIGIN /\
      nullish (get_opt out "scraped_at") = false) /\
  (forall (url : jsstring) (w w1 : World) (record : value),
      parseInefficiencyDetail url w = (Ok record, w1) ->
      get_opt record "id" = VStr (slugFromUrl url) /\
      (forall pathname seg : jsstring,
          URL_pathname url = Some pathname ->
          In seg (split_slash pathname) -> seg <> [] ->
          slugFromUrl url <> []) /\
      get_opt record "scraped_at" = VStr (clock w1 (tick w1)) /\
      (exists signals, get_opt record "detection_signals" = of_strings signals) /\
      (exists actions, get_opt record "remediation_actions" = of_strings actions) /\
      (exists links,
          get_opt record "documentation_links" = VArr (map link_value links)) /\
      get_opt record "tags" = VArr [] /\
      get_opt (get_opt record "source") "origin" = VStr ORIGIN /\
      get_opt (get_opt record "source") "url" = VStr url).
Proof.
  split; [exact mapToSchema_shape|].
  intros url w w1 record H.
  apply parseInefficiencyDetail_record in H.
  destruct H as (document & links & title & author & category & provider
                 & service & kind & _ & _ & ->).
  split; [reflexivity|]. split; [apply slugFromUrl_nonempty|].
  split; [reflexivity|]. split; [eexists; reflexivity|].
  split; [eexists; reflexivity|]. split; [eexists; reflexivity|].
  repeat split; reflexivity.
Qed.

End AssemblerProps.

End Assembler.

(** ** The request handler *)

Module Handler.

Import Assembler.

Section HandlerProps.

Variable URL_pathname : jsstring -> option jsstring.
Variable URL_resolve : jsstring -> jsstring -> option jsstring.
Variable Date_parse : value -> option Z.

Local Abbreviation parseInefficiencyDetail :=
  (Scraper.parseInefficiencyDetail URL_pathname URL_resolve).
Local Abbreviation validateScrapedData := (Scraper.validateScrapedData Date_parse).
Local Abbreviation scrape_one :=
  (Scraper.scrape_one URL_pathname URL_resolve Date_parse).
Local Abbreviation batch_loop :=
  (Scraper.batch_loop URL_pathname URL_resolve Date_parse).
Local Abbreviation extractInefficiencyUrls :=
  (Scraper.extractInefficiencyUrls URL_resolve).
Local Abbreviation handler := (Scraper.handler URL_pathname URL_resolve Date_parse).

(** The validator returns on what the assembler produces. *)
Lemma validateScrapedData_parsed (url : jsstring) (w w1 : World) (record : value) :
  parseInefficiencyDetail url w = (Ok record, w1) ->
  exists v : validation, validateScrapedData record = Ok v.
Proof.
  intros H. apply parseInefficiencyDetail_record in H.
  destruct H as (document & links & title & author & category & provider
                 & service & kind & _ & _ & ->).
  apply validateScrapedData_record_of.
Qed.

(** The world after the validation of a record was reported. *)
Definition warned (v : validation) (w : World) : World :=
  if isValid v then w else logged Warn "Data validation warnings" w.

Lemma scrape_one_ok (url : jsstring) (w w1 : World) (record : value) :
  parseInefficiencyDetail url (logged Info "Scraping URL" w) = (Ok record, w1) ->
  exists v : validation,
    validateScrapedData record = Ok v /\
    scrape_one url w = (Ok record, warned v w1).
Proof.
  intros H. destruct (validateScrapedData_parsed url _ w1 record H) as [v Hv].
  exists v. split; [exact Hv|].
  unfold Scraper.scrape_one. rewrite bind_log. unfold bind at 1. rewrite H.
  unfold bind at 1, lift at 1. rewrite Hv. unfold warned.
  destruct (isValid v); reflexivity.
Qed.

Lemma scrape_one_throw (url : jsstring) (w w1 : World) (e : error) :
  parseInefficiencyDetail url (logged Info "Scraping URL" w) = (Throw e, w1) ->
  scrape_one url w = (Throw e, w1).
Proof.
  intros H. unfold Scraper.scrape_one. rewrite bind_log. unfold bind at 1.
  rewrite H. reflexivity.
Qed.

Lemma handler_single_ok (req : request) (url : jsstring) (w w1 : World)
    (record : value) :
  urlParam req = Some url -> url <> [] ->
  parseInefficiencyDetail url (logged Info "Scraper request started" w)
    = (Ok record, w1) ->
  exists v : validation,
    validateScrapedData record = Ok v /\
    handler req w =
      (Ok (SingleRecord record),
       logged Info "Single URL scraped successfully" (warned v w1)).
Proof.
  intros Hu Hne H. destruct (validateScrapedData_parsed url _ w1 record H) as [v Hv].
  exists v. split; [exact Hv|].
  unfold Scraper.handler, Scraper.handler_try, Scraper.handler_catch. rewrite Hu. destruct url as [|c url]; [congruence|].
  unfold try_catch at 1. rewrite bind_log. unfold try_catch at 1.
  unfold bind at 1. rewrite H. unfold bind at 1, lift at 1. rewrite Hv.
  unfold warned. destruct (isValid v); reflexivity.
Qed.

(** What [new URL(href, base).href] gives is never the empty string. *)
Definition resolved_nonempty : Prop :=
  forall href base resolved : jsstring,
    URL_resolve href base = Some resolved -> resolved <> [].

Lemma entry_url_nonempty (l : link) :
  resolved_nonempty -> Links.entry_of_anchor URL_resolve l -> link_url l <> [].
Proof.
  intros Hr (a & href & _ & _ & Hne & _ & Hu).
  destruct (startsWith href (lit "http")).
  - rewrite Hu. exact Hne.
  - exact (Hr _ _ _ Hu).
Qed.

(** On the record of a page the guards of the URL tests make no
    difference: the URLs of the record are not empty. *)
Lemma record_of_flagged (id : jsstring)
    (title author category provider service kind explanation billing : option jsstring)
    (signals actions : list jsstring) (links : list link) (url scraped_at : jsstring) :
  url <> [] ->
  Forall (fun l => link_url l <> []) links ->
  Validator.flagged Date_parse
    (record_of id title author category provider service kind explanation billing
       signals actions links url scraped_at) <->
  Validator.flagged_unguarded Date_parse
    (record_of id title author category provider service kind explanation billing
       signals actions links url scraped_at).
Proof.
  intros Hu Hl. unfold Validator.flagged, Validator.flagged_unguarded, record_of.
  read_props.
  pose proof (Validator.present_not_http_iff url Hu) as [P1 P2].
  pose proof (Validator.links_flagged_iff links Hl) as [L1 L2].
  split.
  - intros [H | [H | [H | [H | H]]]].
    + left; exact H.
    + right; left; exact H.
    + right; right; left. apply P1. exact H.
    + right; right; right; left. destruct H as (items & E & H).
      exists items. split; [exact E|].
      assert (I : items = map link_value links) by congruence.
      rewrite I in *. apply L1. exact H.
    + right; right; right; right; exact H.
  - intros [H | [H | [H | [H | H]]]].
    + left; exact H.
    + right; left; exact H.
    + right; right; left. apply P2. exact H.
    + right; right; right; left. destruct H as (items & E & H).
      exists items. split; [exact E|].
      assert (I : items = map link_value links) by congruence.
      rewrite I in *. apply L2. exact H.
    + right; right; right; right; exact H.
Qed.

(** The validator on a record the assembler produced. *)
Lemma validateScrapedData_parsed_flags (url : jsstring) (w w1 : World)
    (record : value) :
  resolved_nonempty ->
  url <> [] ->
  parseInefficiencyDetail url w = (Ok record, w1) ->
  exists v : validation,
    validateScrapedData record = Ok v /\
    (isValid v = false <-> Validator.flagged_unguarded Date_parse record).
Proof.
  intros Hr Hu H.
  destruct (validateScrapedData_parsed url w w1 record H) as [v Hv].
  exists v. split; [exact Hv|].
  pose proof (Validator.validateScrapedData_flags Date_parse record v Hv) as [F1 F2].
  apply parseInefficiencyDetail_record in H.
  destruct H as (document & links & title & author & category & provider
                 & service & kind & _ & L & E).
  assert (Hl : Forall (fun l => link_url l <> []) links).
  { assert (C : Links.collected URL_resolve links).
    { unfold Scraper.extractDocumentationLinks in L.
      eapply Links.loop_collected; [|exact L]. split; constructor. }
    destruct C as [_ C]. revert C. apply Forall_impl.
    intros l. apply entry_url_nonempty. exact Hr. }
  subst record.
  pose proof (record_of_flagged (Scraper.slugFromUrl URL_pathname url) title author
                category provider service kind
                (extractSectionParagraph document (lit "Explanation"))
                (extractSectionParagraph document (lit "Relevant Billing Model"))
                (extractSectionList document (lit "Detection"))
                (extractSectionList document (lit "Remediation"))
                links url (clock w1 (tick w1)) Hu Hl) as [R1 R2].
  split.
  - intros I. apply R1. apply F1. exact I.
  - intros I. apply F2. apply R2. exact I.
Qed.

(** C8, as stated: a record the assembler produced is flagged exactly
    under the conditions of the claim. *)
Definition validator_flags_as_stated : Prop :=
  forall (url : jsstring) (w w1 : World) (record : value) (v : validation),
    url <> [] ->
    parseInefficiencyDetail url w = (Ok record, w1) ->
    validateScrapedData record = Ok v ->
    (isValid v = false <-> Validator.flagged_as_stated Date_parse record).

(** C8, amended. The validator is called on the records the assembler
    produces, and nowhere else. On such a record, for a URL that is not
    empty (the handler takes no other, and [new URL(...).href] is never
    empty), the validator returns, and it flags the record invalid if and
    only if the id is missing (null, undefined or empty) or not a string,
    or the title is missing or not a string, or source.url does not start
    with "http", or some documentation link has a url that does not start
    with "http", or scraped_at is missing or does not parse. On any value
    whatever the tests of the URLs are guarded: a URL is flagged when it is
    there and does not start with "http". The record is handed on whatever
    the verdict: the single-URL request answers with it, the batch keeps it
    as the result of its URL, and an invalid one leaves one warning on the
    console. *)
Theorem validateScrapedData_flags_and_keeps :
  (resolved_nonempty ->
   forall (url : jsstring) (w w1 : World) (record : value),
      url <> [] ->
      parseInefficiencyDetail url w = (Ok record, w1) ->
      exists v : validation,
        validateScrapedData record = Ok v /\
        (isValid v = false <-> Validator.flagged_unguarded Date_parse record)) /\
  (forall (data : value) (v : validation),
      validateScrapedData data = Ok v ->
      (isValid v = false <-> Validator.flagged Date_parse data)) /\
  (forall (req : request) (url : jsstring) (w w1 : World) (record : value),
      urlParam req = Some url -> url <> [] ->
      parseInefficiencyDetail url (logged Info "Scraper request started" w)
        = (Ok record, w1) ->
      exists v : validation,
        validateScrapedData record = Ok v /\
        handler req w =
          (Ok (SingleRecord record),
           logged Info "Single URL scraped successfully" (warned v w1))) /\
  (forall (url : jsstring) (w w1 : World) (record : value),
      parseInefficiencyDetail url (logged Info "Scraping URL" w) = (Ok record, w1) ->
      exists v : validation,
        validateScrapedData record = Ok v /\
        scrape_one url w = (Ok record, warned v w1)) /\
  (forall (v : validation) (w : World),
      isValid v = false ->
      console (warned v w) =
      console w ++ [{| log_level := Warn;
                       log_message := lit "Data validation warnings" |}]).
Proof.
  split.
  { intros Hr url w w1 record Hu H.
    exact (validateScrapedData_parsed_flags url w w1 record Hr Hu H). }
  split; [apply Validator.validateScrapedData_flags|].
  split; [apply handler_single_ok|].
  split; [apply scrape_one_ok|].
  intros v w Hv. unfold warned. rewrite Hv. reflexivity.
Qed.

(** *** The batch loop *)

(** The world when the [i]-th URL is taken up: the delay has passed, except
    before the first. *)
Definition slept (i : nat) (w : World) : World :=
  if Nat.ltb 0 i then advance w else w.

Definition failure (url : jsstring) (e : error) (i : nat) : error_entry :=
  {| entry_url := url; entry_error := message e; entry_index := i + 1 |}.

(** One turn of the loop: the record joins the results, or the failure
    joins the errors, and the loop goes on with the next URL. *)
Lemma batch_loop_step (url : jsstring) (urls : list jsstring) (i : nat)
    (results : list value) (errors : list error_entry) (w : World) :
  batch_loop (url :: urls) i results errors w =
  match scrape_one url (slept i w) with
  | (Ok record, w1) =>
      batch_loop urls (S i) (results ++ [record]) errors
                 (logged Info "URL scraped successfully" w1)
  | (Throw e, w1) =>
      batch_loop urls (S i) results (errors ++ [failure url e i])
                 (logged Err "Failed to scrape URL" w1)
  end.
Proof.
  cbn [Scraper.batch_loop]. unfold slept.
  destruct (Nat.ltb 0 i); unfold bind at 1; cbn [sleep ret];
    unfold bind at 1, try_catch at 1, bind at 1;
    destruct (scrape_one url _) as [[record|e] w1]; reflexivity.
Qed.

(** The loop never throws and accounts for every URL once. *)
Lemma batch_loop_total (urls : list jsstring) (i : nat) (results : list value)
    (errors : list error_entry) (w : World) :
  exists (more : list value) (failures : list error_entry) (w' : World),
    batch_loop urls i results errors w = (Ok (results ++ more, errors ++ failures), w') /\
    List.length more + List.length failures = List.length urls /\
    Forall (fun f => In (entry_url f) urls) failures.
Proof.
  revert i results errors w; induction urls as [|url urls IH];
    intros i results errors w.
  - exists [], [], w. rewrite !app_nil_r. repeat split. constructor.
  - rewrite batch_loop_step.
    destruct (scrape_one url (slept i w)) as [[record|e] w1].
    + destruct (IH (S i) (results ++ [record]) errors
                   (logged Info "URL scraped successfully" w1))
        as (more & failures & w' & -> & Hlen & Hin).
      exists (record :: more), failures, w'. rewrite <- app_assoc.
      split; [reflexivity|]. split; [simpl; lia|].
      eapply Forall_impl; [|exact Hin]. intros f Hf; right; exact Hf.
    + destruct (IH (S i) results (errors ++ [failure url e i])
                   (logged Err "Failed to scrape URL" w1))
        as (more & failures & w' & -> & Hlen & Hin).
      exists more, (failure url e i :: failures), w'. rewrite <- app_assoc.
      split; [reflexivity|]. split; [simpl; lia|].
      constructor; [left; reflexivity|].
      eapply Forall_impl; [|exact Hin]. intros f Hf; right; exact Hf.
Qed.

(** *** What a fetch gives *)

Definition timeout_message (url : jsstring) : jsstring :=
  lit "Fetch timeout after " ++ number_to_string FETCH_TIMEOUT_MS ++ lit "ms: " ++ url.

Definition http_failure_message (url : jsstring) (r : response) : jsstring :=
  lit "Failed to fetch " ++ url ++ lit ": "
  ++ (lit "HTTP " ++ number_to_string (status r) ++ lit " " ++ statusText r).

Lemma fetchDocument_ok (url : jsstring) (w : World) (r : response) :
  network w (tick w) url = Ok r -> ok r = true ->
  fetchDocument url w =
  (Ok (parsed r),
   logged Info "Document fetched successfully"
     (advance (logged Info "Fetching document" w))).
Proof.
  intros Hn Hok. unfold fetchDocument, try_catch. rewrite bind_log.
  unfold bind at 1, fetch. cbn [logged log snd tick network].
  rewrite Hn, Hok. reflexivity.
Qed.

Lemma fetchDocument_timeout (url : jsstring) (w : World) (e : error) :
  network w (tick w) url = Throw e -> name e = lit "AbortError" ->
  fetchDocument url w =
  (Throw (Error (timeout_message url)),
   logged Err "Fetch timeout" (advance (logged Info "Fetching document" w))).
Proof.
  intros Hn Hname. unfold fetchDocument, try_catch. rewrite bind_log.
  unfold bind at 1, fetch. cbn [logged log snd tick network].
  rewrite Hn, Hname. reflexivity.
Qed.

Lemma fetchDocument_http_failure (url : jsstring) (w : World) (r : response) :
  network w (tick w) url = Ok r -> ok r = false ->
  fetchDocument url w =
  (Throw (Error (http_failure_message url r)),
   logged Err "Fetch failed" (advance (logged Info "Fetching document" w))).
Proof.
  intros Hn Hok. unfold fetchDocument, try_catch. rewrite bind_log.
  unfold bind at 1, fetch. cbn [logged log snd tick network].
  rewrite Hn, Hok. reflexivity.
Qed.

Local Abbreviation extractDocumentationLinks :=
  (Scraper.extractDocumentationLinks URL_resolve).

Lemma parse_fetch_throw (url : jsstring) (w w1 : World) (e : error) :
  fetchDocument url w = (Throw e, w1) ->
  parseInefficiencyDetail url w = (Throw e, w1).
Proof.
  intros H. unfold Scraper.parseInefficiencyDetail. unfold bind at 1.
  rewrite H. reflexivity.
Qed.

Lemma parse_fetch_ok (url : jsstring) (w w1 : World) (document : document)
    (links : list link) :
  fetchDocument url w = (Ok document, w1) ->
  extractDocumentationLinks document = Ok links ->
  exists record : value, parseInefficiencyDetail url w = (Ok record, w1).
Proof.
  intros H L. unfold Scraper.parseInefficiencyDetail. unfold bind at 1.
  rewrite H. unfold bind at 1, lift at 1. rewrite L.
  unfold bind at 1, now_iso at 1.
  unfold mapToSchema, bind, lift, get, ret. cbn [lookup nullish str_eqb].
  eexists. reflexivity.
Qed.

(** A URL whose page is served and whose links resolve is scraped. *)
Lemma scrape_one_fetched (url : jsstring) (w : World) (r : response)
    (links : list link) :
  network w (tick w) url = Ok r -> ok r = true ->
  extractDocumentationLinks (parsed r) = Ok links ->
  exists (record : value) (w1 : World),
    scrape_one url w = (Ok record, w1) /\ network w1 = network w.
Proof.
  intros Hn Hok L.
  pose proof (fetchDocument_ok url (logged Info "Scraping URL" w) r Hn Hok) as F.
  destruct (parse_fetch_ok url _ _ _ links F L) as [record P].
  destruct (scrape_one_ok url w _ record P) as (v & _ & S).
  exists record. eexists. split; [exact S|].
  unfold warned. destruct (isValid v); reflexivity.
Qed.

(** A URL whose fetch times out fails with the timeout message. *)
Lemma scrape_one_timeout (url : jsstring) (w : World) (e : error) :
  network w (tick w) url = Throw e -> name e = lit "AbortError" ->
  exists w1 : World,
    scrape_one url w = (Throw (Error (timeout_message url)), w1) /\
    network w1 = network w.
Proof.
  intros Hn Hname.
  pose proof (fetchDocument_timeout url (logged Info "Scraping URL" w) e Hn Hname) as F.
  apply parse_fetch_throw in F. apply scrape_one_throw in F.
  eexists. split; [exact F | reflexivity].
Qed.

(** A URL answered with a status outside 200..299 fails with that status. *)
Lemma scrape_one_http_failure (url : jsstring) (w : World) (r : response) :
  network w (tick w) url = Ok r -> ok r = false ->
  exists w1 : World,
    scrape_one url w = (Throw (Error (http_failure_message url r)), w1) /\
    network w1 = network w.
Proof.
  intros Hn Hok.
  pose proof (fetchDocument_http_failure url (logged Info "Scraping URL" w) r Hn Hok) as F.
  apply parse_fetch_throw in F. apply scrape_one_throw in F.
  eexists. split; [exact F | reflexivity].
Qed.

Lemma network_slept (i : nat) (w : World) : network (slept i w) = network w.
Proof. unfold slept. destruct (Nat.ltb 0 i); reflexivity. Qed.

(** C1. The batch loop takes the URLs in order. A URL that is scraped adds
    its record to the results; a URL whose scrape throws adds an entry with
    its URL, the message and its position to the error list; either way
    the loop goes on with the next URL, so that it never throws and every
    URL ends up in exactly one of the two lists. A fetch that times out or
    is answered with a status outside 200..299 is such a failure. For three
    URLs of which the first and the third are served and the second times
    out, there are two results and one error, that of the second URL. *)
Theorem batch_partial_failure :
  (forall (url : jsstring) (urls : list jsstring) (i : nat) (results : list value)
          (errors : list error_entry) (w : World),
      batch_loop (url :: urls) i results errors w =
      match scrape_one url (slept i w) with
      | (Ok record, w1) =>
          batch_loop urls (S i) (results ++ [record]) errors
                     (logged Info "URL scraped successfully" w1)
      | (Throw e, w1) =>
          batch_loop urls (S i) results (errors ++ [failure url e i])
                     (logged Err "Failed to scrape URL" w1)
      end) /\
  (forall (urls : list jsstring) (w : World),
      exists (results : list value) (errors : list error_entry) (w' : World),
        batch_loop urls 0 [] [] w = (Ok (results, errors), w') /\
        List.length results + List.length errors = List.length urls /\
        Forall (fun f => In (entry_url f) urls) errors) /\
  (forall (url : jsstring) (w : World) (e : error),
      network w (tick w) url = Throw e -> name e = lit "AbortError" ->
      exists w1 : World,
        scrape_one url w = (Throw (Error (timeout_message url)), w1)) /\
  (forall (url : jsstring) (w : World) (r : response),
      network w (tick w) url = Ok r -> ok r = false ->
      exists w1 : World,
        scrape_one url w = (Throw (Error (http_failure_message url r)), w1)) /\
  (forall (u1 u2 u3 : jsstring) (w : World) (r1 r3 : response)
          (l1 l3 : list link) (e : error),
      (forall t, network w t u1 = Ok r1) -> ok r1 = true ->
      extractDocumentationLinks (parsed r1) = Ok l1 ->
      (forall t, network w t u2 = Throw e) -> name e = lit "AbortError" ->
      (forall t, network w t u3 = Ok r3) -> ok r3 = true ->
      extractDocumentationLinks (parsed r3) = Ok l3 ->
      exists (record1 record3 : value) (w' : World),
        batch_loop [u1; u2; u3] 0 [] [] w =
        (Ok ([record1; record3],
             [{| entry_url := u2; entry_error := timeout_message u2;
                 entry_index := 2 |}]), w')).
Proof.
  split; [exact batch_loop_step|].
  split; [intros urls w; apply (batch_loop_total urls 0 [] [] w)|].
  split.
  { intros url w e Hn Hname.
    destruct (scrape_one_timeout url w e Hn Hname) as (w1 & H & _).
    exists w1; exact H. }
  split.
  { intros url w r Hn Hok.
    destruct (scrape_one_http_failure url w r Hn Hok) as (w1 & H & _).
    exists w1; exact H. }
  intros u1 u2 u3 w r1 r3 l1 l3 e H1 Hok1 L1 H2 Hname H3 Hok3 L3.
  rewrite batch_loop_step.
  destruct (scrape_one_fetched u1 (slept 0 w) r1 l1) as (record1 & w1 & S1 & N1);
    [rewrite network_slept; apply H1 | exact Hok1 | exact L1 |].
  rewrite S1. rewrite batch_loop_step.
  set (wa := logged Info "URL scraped successfully" w1).
  assert (Na : network (slept 1 wa) = network w).
  { rewrite network_slept. unfold wa. cbn [logged log snd network].
    rewrite N1. apply network_slept. }
  destruct (scrape_one_timeout u2 (slept 1 wa) e) as (w2 & S2 & N2);
    [rewrite Na; apply H2 | exact Hname |].
  rewrite S2. rewrite batch_loop_step.
  set (wb := logged Err "Failed to scrape URL" w2).
  assert (Nb : network (slept 2 wb) = network w).
  { rewrite network_slept. unfold wb. cbn [logged log snd network].
    rewrite N2. exact Na. }
  destruct (scrape_one_fetched u3 (slept 2 wb) r3 l3) as (record3 & w3 & S3 & N3);
    [rewrite Nb; apply H3 | exact Hok3 | exact L3 |].
  rewrite S3. exists record1, record3. eexists. reflexivity.
Qed.

End HandlerProps.

End Handler.

(** ** Sorting and sets of strings *)

Module SortFacts.

(** [a <= b] in the order of [sort]: [b] is not before [a]. *)
Definition str_le (a b : jsstring) : Prop := str_ltb b a = false.

Lemma str_ltb_irrefl (a : jsstring) : str_ltb a a = false.
Proof.
  induction a as [|x a IH]; simpl; [reflexivity|].
  rewrite N.ltb_irrefl, N.eqb_refl. exact IH.
Qed.

Lemma str_ltb_trans (a b c : jsstring) :
  str_ltb a b = true -> str_ltb b c = true -> str_ltb a c = true.
Proof.
  revert b c; induction a as [|x a IH]; intros [|y b] [|z c]; simpl;
    try congruence.
  rewrite !orb_true_iff, !andb_true_iff, !N.ltb_lt, !N.eqb_eq.
  intros [H1 | [H1 H1']] [H2 | [H2 H2']].
  - left; lia.
  - left; lia.
  - left; lia.
  - right; split; [lia | eapply IH; eassumption].
Qed.

Lemma str_ltb_connected (a b : jsstring) :
  str_ltb a b = false -> str_ltb b a = false -> a = b.
Proof.
  revert b; induction a as [|x a IH]; intros [|y b]; simpl; try congruence.
  rewrite !orb_false_iff, !andb_false_iff, !N.ltb_ge, !N.eqb_neq.
  intros [H1 H1'] [H2 H2']. assert (x = y) by lia. subst y.
  f_equal. apply IH.
  - destruct H1' as [H | H]; [congruence | exact H].
  - destruct H2' as [H | H]; [congruence | exact H].
Qed.

Lemma str_le_refl (a : jsstring) : str_le a a.
Proof. apply str_ltb_irrefl. Qed.

Lemma str_le_trans (a b c : jsstring) : str_le a b -> str_le b c -> str_le a c.
Proof.
  unfold str_le. intros Hab Hbc.
  destruct (str_ltb c a) eqn:Hca; [|reflexivity].
  destruct (str_ltb a b) eqn:Hlt.
  - rewrite (str_ltb_trans c a b Hca Hlt) in Hbc. discriminate.
  - rewrite (str_ltb_connected a b Hlt Hab) in Hca. congruence.
Qed.

Lemma str_le_antisym (a b : jsstring) : str_le a b -> str_le b a -> a = b.
Proof. unfold str_le. intros H1 H2. apply str_ltb_connected; assumption. Qed.

Lemma str_ltb_le (a b : jsstring) : str_ltb a b = true -> str_le a b.
Proof.
  unfold str_le. intros H. destruct (str_ltb b a) eqn:E; [|reflexivity].
  pose proof (str_ltb_trans a b a H E) as C. rewrite str_ltb_irrefl in C.
  discriminate.
Qed.

Lemma sort_insert_perm (x : jsstring) (l : list jsstring) :
  Permutation (sort_insert x l) (x :: l).
Proof.
  induction l as [|y l IH]; simpl; [reflexivity|].
  destruct (str_ltb y x); [|reflexivity].
  rewrite IH. apply perm_swap.
Qed.

Lemma sort_perm (l : list jsstring) : Permutation (sort l) l.
Proof.
  induction l as [|x l IH]; simpl; [reflexivity|].
  rewrite sort_insert_perm. constructor. exact IH.
Qed.

Lemma sort_insert_sorted (x : jsstring) (l : list jsstring) :
  StronglySorted str_le l -> StronglySorted str_le (sort_insert x l).
Proof.
  induction 1 as [|y l Hl IH Hy]; simpl.
  - constructor; constructor.
  - destruct (str_ltb y x) eqn:E.
    + constructor; [exact IH|].
      rewrite sort_insert_perm.
      constructor; [apply str_ltb_le; exact E | exact Hy].
    + constructor; [constructor; assumption|].
      constructor; [exact E|].
      eapply Forall_impl; [|exact Hy]. intros z Hz.
      apply (str_le_trans x y z); [exact E | exact Hz].
Qed.

Lemma sort_sorted (l : list jsstring) : StronglySorted str_le (sort l).
Proof.
  induction l as [|x l IH]; simpl; [constructor|].
  apply sort_insert_sorted. exact IH.
Qed.

(** An ascending arrangement is unique. *)
Lemma sorted_unique (l1 l2 : list jsstring) :
  StronglySorted str_le l1 -> StronglySorted str_le l2 ->
  Permutation l1 l2 -> l1 = l2.
Proof.
  intros H1; revert l2; induction H1 as [|a l1 Hs1 IH Ha]; intros l2 H2 P.
  - apply Permutation_nil in P. congruence.
  - destruct H2 as [|b l2 Hs2 Hb].
    + apply Permutation_sym, Permutation_nil in P. discriminate.
    + assert (E : a = b).
      { assert (Hab : str_le b a).
        { assert (Hin : In a (b :: l2))
            by (apply (Permutation_in _ P); left; reflexivity).
          destruct Hin as [<- | Hin]; [apply str_le_refl|].
          rewrite Forall_forall in Hb. apply Hb; exact Hin. }
        assert (Hba : str_le a b).
        { assert (Hin : In b (a :: l1))
            by (apply (Permutation_in _ (Permutation_sym P)); left; reflexivity).
          destruct Hin as [<- | Hin]; [apply str_le_refl|].
          rewrite Forall_forall in Ha. apply Ha; exact Hin. }
        apply str_le_antisym; assumption. }
      subst b. f_equal. apply IH; [exact Hs2|].
      apply Permutation_cons_inv in P. exact P.
Qed.

Lemma sort_permuted (l1 l2 : list jsstring) :
  Permutation l1 l2 -> sort l1 = sort l2.
Proof.
  intros P. apply sorted_unique; try apply sort_sorted.
  rewrite !sort_perm. exact P.
Qed.

(** The set built by adding the elements of [us] to [set] in turn. *)
Definition add_all (us set : list jsstring) : list jsstring :=
  fold_left (fun s u => set_add u s) us set.

Lemma set_add_In (x u : jsstring) (set : list jsstring) :
  In u (set_add x set) <-> In u set \/ u = x.
Proof.
  unfold set_add. destruct (arr_includes set x) eqn:E.
  - apply arr_includes_In in E. split; [auto | intros [H | ->]; assumption].
  - rewrite in_app_iff. simpl. split.
    + intros [H | [H | []]]; [left; exact H | right; symmetry; exact H].
    + intros [H | H]; [left; exact H | right; left; symmetry; exact H].
Qed.

Lemma set_add_NoDup (x : jsstring) (set : list jsstring) :
  NoDup set -> NoDup (set_add x set).
Proof.
  intros H. unfold set_add. destruct (arr_includes set x) eqn:E; [exact H|].
  apply Links.NoDup_snoc; [exact H|]. intros Hin.
  apply arr_includes_In in Hin. congruence.
Qed.

Lemma add_all_In (us set : list jsstring) (u : jsstring) :
  In u (add_all us set) <-> In u set \/ In u us.
Proof.
  unfold add_all. revert set; induction us as [|x us IH]; intros set; simpl.
  - tauto.
  - rewrite IH, set_add_In. split; intros H; intuition auto.
Qed.

Lemma add_all_NoDup (us set : list jsstring) :
  NoDup set -> NoDup (add_all us set).
Proof.
  unfold add_all. revert set; induction us as [|x us IH]; intros set H; simpl.
  - exact H.
  - apply IH, set_add_NoDup, H.
Qed.

Lemma add_all_app (us vs set : list jsstring) :
  add_all (us ++ vs) set = add_all vs (add_all us set).
Proof. unfold add_all. apply fold_left_app. Qed.

End SortFacts.

(** ** Discovery of the detail pages *)

Module Discovery.

Import SortFacts Assembler.

(** The de-duplicated union of the links of pages 1..n, sorted. *)
Definition discovered (pages : nat -> list jsstring) (n : nat) : list jsstring :=
  sort (add_all (List.concat (map pages (seq 1 n))) []).

(** The cut to the first [limit] entries, made for a positive limit. *)
Definition cut (limit : option Z) (urls : list jsstring) : list jsstring :=
  match limit with
  | Some n => if Z.ltb 0 n then slice_to urls n else urls
  | None => urls
  end.

Lemma discovered_In (pages : nat -> list jsstring) (n : nat) (u : jsstring) :
  In u (discovered pages n) <-> exists i, 1 <= i <= n /\ In u (pages i).
Proof.
  unfold discovered. split.
  - intros H. apply (Permutation_in _ (sort_perm _)) in H.
    apply add_all_In in H. destruct H as [[] | H].
    apply List.in_concat in H. destruct H as (l & Hl & Hu).
    apply in_map_iff in Hl. destruct Hl as (i & <- & Hi).
    apply in_seq in Hi. exists i. split; [lia | exact Hu].
  - intros (i & Hi & Hu). apply (Permutation_in _ (Permutation_sym (sort_perm _))).
    apply add_all_In. right. apply List.in_concat. exists (pages i). split; [|exact Hu].
    apply in_map. apply in_seq. lia.
Qed.

Lemma discovered_NoDup (pages : nat -> list jsstring) (n : nat) :
  NoDup (discovered pages n).
Proof.
  unfold discovered. apply (Permutation_NoDup (Permutation_sym (sort_perm _))).
  apply add_all_NoDup. constructor.
Qed.

(** The result does not depend on the order of the links within a page
    (nor on how often a link occurs): only on which links each page has. *)
Lemma discovered_order_insensitive (pages pages' : nat -> list jsstring) (n : nat) :
  (forall i u, 1 <= i <= n -> (In u (pages i) <-> In u (pages' i))) ->
  discovered pages n = discovered pages' n.
Proof.
  intros H. apply sorted_unique; try apply sort_sorted.
  apply NoDup_Permutation; try apply discovered_NoDup.
  intros u. rewrite !discovered_In. split; intros (i & Hi & Hu); exists i;
    (split; [exact Hi | apply (H i u Hi); exact Hu]).
Qed.

Section DiscoveryProps.

Variable URL_resolve : jsstring -> jsstring -> option jsstring.

Local Abbreviation absolute_or_resolved := (Scraper.absolute_or_resolved URL_resolve).
Local Abbreviation forEach_index_anchor := (Scraper.forEach_index_anchor URL_resolve).
Local Abbreviation page_body := (Scraper.page_body URL_resolve).
Local Abbreviation pages_loop := (Scraper.pages_loop URL_resolve).
Local Abbreviation extractInefficiencyUrls :=
  (Scraper.extractInefficiencyUrls URL_resolve).

(** The URLs of the detail-page links among a sequence of anchors, in
    order: those with a non-empty [href] that contains "/inefficiencies/",
    taken as they are when they start with "http" and resolved against the
    base otherwise. *)
Fixpoint detail_urls (anchors : list node) : result (list jsstring) :=
  match anchors with
  | [] => Ok []
  | a :: anchors' =>
      match Links.anchor_href a with
      | Some href =>
          if negb (is_empty href) && includes href (lit "/inefficiencies/")
          then u <~ absolute_or_resolved href ;;
               us <~ detail_urls anchors' ;;
               Ok (u :: us)
          else detail_urls anchors'
      | None => detail_urls anchors'
      end
  end.

(** The detail-page links of an index page. *)
Definition page_links (d : document) : result (list jsstring) :=
  detail_urls (querySelectorAll_a_href (documentElement d)).

(** Page [page] is served, whenever asked for, with a document whose
    detail-page links are [us]. *)
Definition serves (w : World) (page : nat) (us : list jsstring) : Prop :=
  exists r : response,
    (forall t, network w t (indexUrl page) = Ok r) /\
    ok r = true /\
    page_links (parsed r) = Ok us.

Lemma forEach_index_anchor_urls (anchors : list node) (us set : list jsstring)
    (found : nat) :
  detail_urls anchors = Ok us ->
  forEach_index_anchor anchors set found =
  (Ok (found + List.length us), add_all us set).
Proof.
  revert us set found; induction anchors as [|a anchors IH]; intros us set found;
    simpl.
  - intros H; injection H as <-. simpl. rewrite Nat.add_0_r. reflexivity.
  - destruct a as [data|data|tag attrs cs]; simpl; try apply IH.
    destruct (getAttribute attrs (lit "href")) as [href|]; [|apply IH].
    destruct (is_empty href); simpl; [apply IH|].
    destruct (includes href (lit "/inefficiencies/")); [|apply IH].
    destruct (absolute_or_resolved href) as [u|e]; simpl; [|discriminate].
    destruct (detail_urls anchors) as [us'|e] eqn:D; simpl; [|discriminate].
    intros H; injection H as <-. rewrite (IH us' (set_add u set) (S found) eq_refl).
    simpl. f_equal. f_equal. lia.
Qed.

Lemma page_body_served (page : nat) (set us : list jsstring) (w : World)
    (r : response) :
  network w (tick w) (indexUrl page) = Ok r -> ok r = true ->
  page_links (parsed r) = Ok us ->
  exists w' : World,
    page_body page set w =
      (Ok (add_all us set, match us with [] => true | _ :: _ => false end), w') /\
    network w' = network w.
Proof.
  intros Hn Hok Hl. unfold Scraper.page_body, try_catch. unfold bind at 1.
  rewrite (Handler.fetchDocument_ok _ _ _ Hn Hok).
  unfold page_links in Hl.
  rewrite (forEach_index_anchor_urls _ _ set 0 Hl). rewrite bind_log.
  destruct us as [|u us]; simpl.
  - eexists. split; reflexivity.
  - unfold bind. destruct (Nat.ltb page MAX_PAGES); simpl;
      eexists; split; reflexivity.
Qed.

(** The page loop over [k] pages with links, ended by a page without
    links or by the cap. *)
Lemma pages_loop_served (pages : nat -> list jsstring) (remaining : nat) :
  forall (k page : nat) (set : list jsstring) (w : World),
    k <= remaining ->
    (forall i, page <= i < page + k -> serves w i (pages i) /\ pages i <> []) ->
    (k < remaining -> serves w (page + k) []) ->
    exists w' : World,
      pages_loop remaining page set w =
        (Ok (add_all (List.concat (map pages (seq page k))) set), w') /\
      network w' = network w.
Proof.
  induction remaining as [|remaining IH]; intros k page set w Hk Hpages Hend.
  - assert (k = 0) by lia. subst k. exists w. split; reflexivity.
  - cbn [Scraper.pages_loop]. unfold bind at 1. destruct k as [|k].
    + destruct Hend as (r & Hn & Hok & Hl); [lia|].
      rewrite Nat.add_0_r in Hn.
      destruct (page_body_served page set [] w r (Hn _) Hok Hl) as (w' & -> & Hw).
      simpl. exists w'. split; [reflexivity | exact Hw].
    + destruct (Hpages page) as [(r & Hn & Hok & Hl) Hne]; [lia|].
      destruct (page_body_served page set (pages page) w r (Hn _) Hok Hl)
        as (w1 & -> & Hw1).
      destruct (pages page) as [|u us] eqn:P; [congruence|]. cbn [snd fst].
      destruct (IH k (S page) (add_all (u :: us) set) w1) as (w' & Hloop & Hw').
      * lia.
      * intros i Hi. destruct (Hpages i) as [(ri & Hni & Hoki & Hli) Hnei]; [lia|].
        split; [|exact Hnei]. exists ri. rewrite Hw1. repeat split; assumption.
      * intros Hlt. destruct Hend as (re & Hne' & Hoke & Hle); [lia|].
        exists re. rewrite Hw1. replace (S page + k) with (page + S k) by lia.
        repeat split; assumption.
      * exists w'. split; [|congruence].
        rewrite Hloop. cbn [seq map List.concat]. rewrite P, add_all_app. reflexivity.
Qed.

Lemma serves_logged (l : level) (msg : string) (w : World) (page : nat)
    (us : list jsstring) :
  serves w page us -> serves (logged l msg w) page us.
Proof. intros H. exact H. Qed.

(** Discovery over [N] pages with links followed by a page without. *)
Lemma extractInefficiencyUrls_served (w : World) (pages : nat -> list jsstring)
    (N : nat) (limit : option Z) :
  (forall i, 1 <= i <= N -> serves w i (pages i) /\ pages i <> []) ->
  serves w (N + 1) [] ->
  exists w' : World,
    extractInefficiencyUrls limit w =
    (Ok (cut limit (discovered pages (Nat.min N MAX_PAGES))), w').
Proof.
  intros Hpages Hend. unfold Scraper.extractInefficiencyUrls. rewrite bind_log.
  unfold bind at 1.
  destruct (pages_loop_served pages MAX_PAGES (Nat.min N MAX_PAGES) 1 []
              (logged Info "Starting URL extraction from paginated hub" w))
    as (w1 & -> & _).
  - apply Nat.le_min_r.
  - intros i Hi. destruct (Hpages i) as [Hs Hne]; [lia|].
    split; [apply serves_logged; exact Hs | exact Hne].
  - intros Hlt. apply serves_logged.
    replace (1 + Nat.min N MAX_PAGES) with (N + 1) by lia. exact Hend.
  - rewrite bind_log. fold (discovered pages (Nat.min N MAX_PAGES)). unfold cut.
    destruct limit as [n|]; [destruct (Z.ltb 0 n)|]; eexists; reflexivity.
Qed.

(** C2, as stated: for any number [N] of pages with links followed by a
    page without, all of pages 1..N is discovered. *)
Definition discovery_as_stated : Prop :=
  forall (w : World) (pages : nat -> list jsstring) (N : nat),
    (forall i, 1 <= i <= N -> serves w i (pages i) /\ pages i <> []) ->
    serves w (N + 1) [] ->
    fst (extractInefficiencyUrls None w) = Ok (discovered pages N).

(** C2, amended. When index pages 1..N are served with detail-page links
    and page N+1 without any, discovery returns the links of pages 1..N,
    and of pages 1..30 only when N is larger than the cap of 30 pages:
    their de-duplicated union in ascending order of code units, cut to the
    first [limit] entries for a positive limit. That sequence has no
    duplicates, holds exactly the links of those pages, and depends only
    on which links each page has, not on their order within the page. *)
Theorem discovery_sorted_union :
  (forall (w : World) (pages : nat -> list jsstring) (N : nat) (limit : option Z),
      (forall i, 1 <= i <= N -> serves w i (pages i) /\ pages i <> []) ->
      serves w (N + 1) [] ->
      exists w' : World,
        extractInefficiencyUrls limit w =
        (Ok (cut limit (discovered pages (Nat.min N MAX_PAGES))), w')) /\
  (forall (pages : nat -> list jsstring) (n : nat),
      StronglySorted str_le (discovered pages n) /\
      NoDup (discovered pages n) /\
      (forall u, In u (discovered pages n) <->
                 exists i, 1 <= i <= n /\ In u (pages i))) /\
  (forall (pages pages' : nat -> list jsstring) (n : nat),
      (forall i, 1 <= i <= n -> Permutation (pages i) (pages' i)) ->
      discovered pages n = discovered pages' n).
Proof.
  split; [exact extractInefficiencyUrls_served|]. split.
  - intros pages n. split; [apply sort_sorted|].
    split; [apply discovered_NoDup | apply discovered_In].
  - intros pages pages' n H. apply discovered_order_insensitive.
    intros i u Hi. split; apply Permutation_in;
      [exact (H i Hi) | symmetry; exact (H i Hi)].
Qed.

(** *** The page loop never throws *)

Lemma page_body_total (page : nat) (set : list jsstring) (w : World) :
  exists (step : list jsstring * bool) (w' : World),
    page_body page set w = (Ok step, w').
Proof.
  unfold Scraper.page_body, try_catch. unfold bind at 1.
  destruct (fetchDocument (indexUrl page) w) as [[document|e] w1].
  - destruct (forEach_index_anchor _ set 0) as [[found|e] set'].
    + rewrite bind_log. destruct (Nat.eqb found 0).
      * rewrite bind_log. eexists. eexists. reflexivity.
      * unfold bind. destruct (Nat.ltb page MAX_PAGES); simpl;
          eexists; eexists; reflexivity.
    + rewrite bind_log. eexists. eexists. reflexivity.
  - rewrite bind_log. eexists. eexists. reflexivity.
Qed.

Lemma pages_loop_total (remaining page : nat) (set : list jsstring) (w : World) :
  exists (set' : list jsstring) (w' : World),
    pages_loop remaining page set w = (Ok set', w').
Proof.
  revert page set w; induction remaining as [|remaining IH]; intros page set w.
  - exists set, w. reflexivity.
  - cbn [Scraper.pages_loop]. unfold bind at 1.
    destruct (page_body_total page set w) as ([set1 stop] & w1 & ->).
    cbn [snd fst]. destruct stop; [eexists; eexists; reflexivity | apply IH].
Qed.

(** Discovery returns the sorted set of the page loop, cut to the limit. *)
Lemma extractInefficiencyUrls_total (limit : option Z) (w : World) :
  exists (set : list jsstring) (w1 w' : World),
    pages_loop MAX_PAGES 1 []
      (logged Info "Starting URL extraction from paginated hub" w) = (Ok set, w1) /\
    extractInefficiencyUrls limit w = (Ok (cut limit (sort set)), w').
Proof.
  destruct (pages_loop_total MAX_PAGES 1 []
              (logged Info "Starting URL extraction from paginated hub" w))
    as (set & w1 & H).
  exists set, w1. unfold Scraper.extractInefficiencyUrls. rewrite bind_log.
  unfold bind at 1. rewrite H. rewrite bind_log. unfold cut.
  destruct limit as [n|]; [destruct (Z.ltb 0 n)|]; eexists; split; try exact eq_refl;
    reflexivity.
Qed.

End DiscoveryProps.

End Discovery.

(** ** The default limit *)

Module Limit.

Import SortFacts Assembler Discovery.

Section LimitProps.

Variable URL_pathname : jsstring -> option jsstring.
Variable URL_resolve : jsstring -> jsstring -> option jsstring.
Variable Date_parse : value -> option Z.

Local Abbreviation pages_loop := (Scraper.pages_loop URL_resolve).
Local Abbreviation batch_loop :=
  (Scraper.batch_loop URL_pathname URL_resolve Date_parse).
Local Abbreviation extractInefficiencyUrls :=
  (Scraper.extractInefficiencyUrls URL_resolve).
Local Abbreviation handler := (Scraper.handler URL_pathname URL_resolve Date_parse).

(** A request without a [url] parameter (or with an empty one). *)
Definition batch_request (req : request) : Prop :=
  urlParam req = None \/ urlParam req = Some [].

(** The batch response, from what discovery and the loop return. *)
Lemma handler_batch (req : request) (w w1 w2 : World) (urls : list jsstring)
    (results : list value) (errors : list error_entry) :
  batch_request req ->
  extractInefficiencyUrls (request_limit req)
    (logged Info "Scraper request started" w) = (Ok urls, w1) ->
  batch_loop urls 0 [] [] (logged Info "URLs discovered" w1)
    = (Ok (results, errors), w2) ->
  handler req w =
  (Ok (Batch (List.length results) (List.length urls) (List.length errors)
             urls results
             (match errors with [] => None | _ :: _ => Some errors end)),
   logged Info "Scraping batch completed" w2).
Proof.
  intros Hreq Hd Hb. unfold Scraper.handler, Scraper.handler_try, Scraper.handler_catch. unfold try_catch at 1.
  rewrite bind_log.
  assert (E : forall (k1 : jsstring -> M http_response) (k2 : M http_response),
             match urlParam req with
             | Some ((_ :: _) as url) => k1 url
             | _ => k2
             end = k2).
  { intros k1 k2. destruct Hreq as [-> | ->]; reflexivity. }
  rewrite E. unfold bind at 1. unfold try_catch at 1. unfold bind at 1.
  rewrite Hd. rewrite bind_log. cbn [ret]. unfold bind at 1. rewrite Hb.
  cbn [fst snd]. rewrite bind_log. reflexivity.
Qed.

(** C10. Without a [limit] parameter the limit is 5: a batch request then
    processes the first five URLs of the sorted discovery output (all of
    them when there are fewer), each of which ends up as an item or as an
    error. *)
Theorem default_limit_five (req : request) (w : World) :
  limitParam req = None ->
  batch_request req ->
  request_limit req = Some 5%Z /\
  exists (set : list jsstring) (w1 w' : World) (items : list value)
         (errors : option (list error_entry)) (count failed : nat),
    pages_loop MAX_PAGES 1 []
      (logged Info "Starting URL extraction from paginated hub"
         (logged Info "Scraper request started" w)) = (Ok set, w1) /\
    handler req w =
      (Ok (Batch count (List.length (firstn 5 (sort set))) failed
                 (firstn 5 (sort set)) items errors), w') /\
    List.length (firstn 5 (sort set)) <= 5 /\
    count + failed = List.length (firstn 5 (sort set)).
Proof.
  intros Hl Hreq. assert (L : request_limit req = Some 5%Z).
  { unfold request_limit. rewrite Hl. reflexivity. }
  split; [exact L|].
  destruct (extractInefficiencyUrls_total URL_resolve (request_limit req)
              (logged Info "Scraper request started" w))
    as (set & w1 & w2 & Hloop & Hd).
  rewrite L in Hd. change (cut (Some 5%Z) (sort set)) with (firstn 5 (sort set)) in Hd.
  destruct (Handler.batch_loop_total URL_pathname URL_resolve Date_parse
              (firstn 5 (sort set)) 0 [] [] (logged Info "URLs discovered" w2))
    as (results & errors & w3 & Hb & Hlen & _).
  cbn [app] in Hb.
  exists set, w1. eexists. exists results. eexists. exists (List.length results).
  exists (List.length errors).
  split; [exact Hloop|]. split.
  - rewrite <- L in Hd. rewrite (handler_batch req w w2 w3 _ results errors Hreq Hd Hb).
    reflexivity.
  - split; [apply firstn_le_length | exact Hlen].
Qed.

End LimitProps.

End Limit.

(** ** The scan loops as a pipeline over the text sequence *)

Module Pipeline.

(** What follows the first occurrence of [x], none when [x] does not occur. *)
Fixpoint after_first (x : jsstring) (l : list jsstring) : option (list jsstring) :=
  match l with
  | [] => None
  | y :: l' => if str_eqb y x then Some l' else after_first x l'
  end.

(** The values before the first one that [stop] accepts. *)
Fixpoint take_until (stop : jsstring -> bool) (l : list jsstring) : list jsstring :=
  match l with
  | [] => []
  | y :: l' => if stop y then [] else y :: take_until stop l'
  end.

(** The test that ends the section of [headingText]. *)
Definition is_stop (headingText v : jsstring) : bool :=
  arr_includes SECTION_TITLES v && negb (str_eqb v headingText).

Lemma field_loop_pipeline (labelText : jsstring) (w : list text_node) :
  findFieldValue_loop labelText false w =
  match after_first labelText (texts_of w) with
  | Some rest => hd_error rest
  | None => None
  end.
Proof.
  induction w as [|node w IH]; cbn [findFieldValue_loop]; [reflexivity|].
  rewrite texts_of_cons. destruct (is_empty (textValue node)); [exact IH|].
  cbn [after_first]. destruct (str_eqb (textValue node) labelText); [|exact IH].
  apply FieldLocator.loop_seen.
Qed.

Lemma paragraph_loop_in (headingText : jsstring) (w : list text_node)
    (acc : list jsstring) :
  extractSectionParagraph_loop headingText true acc w =
  acc ++ take_until (is_stop headingText) (texts_of w).
Proof.
  revert acc; induction w as [|node w IH]; intros acc;
    cbn [extractSectionParagraph_loop negb].
  - cbn. rewrite app_nil_r. reflexivity.
  - rewrite texts_of_cons. destruct (is_empty (textValue node)); [apply IH|].
    cbn [take_until]. unfold is_stop at 1.
    destruct (arr_includes SECTION_TITLES (textValue node)
              && negb (str_eqb (textValue node) headingText)).
    + rewrite app_nil_r. reflexivity.
    + rewrite IH, <- app_assoc. reflexivity.
Qed.

Lemma paragraph_loop_pipeline (headingText : jsstring) (w : list text_node) :
  extractSectionParagraph_loop headingText false [] w =
  match after_first headingText (texts_of w) with
  | Some rest => take_until (is_stop headingText) rest
  | None => []
  end.
Proof.
  induction w as [|node w IH]; cbn [extractSectionParagraph_loop negb];
    [reflexivity|].
  rewrite texts_of_cons. destruct (is_empty (textValue node)); [exact IH|].
  cbn [after_first]. destruct (str_eqb (textValue node) headingText); [|exact IH].
  apply (paragraph_loop_in headingText w []).
Qed.

Lemma scans_pipeline (d : document) (labelText headingText : jsstring) :
  findFieldValue d labelText =
    match after_first labelText (texts d) with
    | Some rest => hd_error rest
    | None => None
    end /\
  extractSectionParagraph d headingText =
    match after_first headingText (texts d) with
    | None => None
    | Some rest =>
        match take_until (is_stop headingText) rest with
        | [] => None
        | fragments => Some (trim (collapse_spaces (join_space fragments)))
        end
    end.
Proof.
  split.
  - apply field_loop_pipeline.
  - unfold extractSectionParagraph, texts. rewrite paragraph_loop_pipeline.
    destruct (after_first headingText (texts_of (createTreeWalker d))) as [rest|];
      [|reflexivity].
    destruct (take_until (is_stop headingText) rest); reflexivity.
Qed.

(** X1. The field locator and the paragraph extractor are the pipeline "drop
    up to the first match, then take": on the non-empty trimmed text values
    of the document, the field value is the head of what follows the first
    occurrence of the label, and the paragraph is made of the values that
    follow the first occurrence of the heading up to the first other
    registry heading. *)
Theorem scans_are_pipelines (d : document) (labelText headingText : jsstring) :
  findFieldValue d labelText =
    match after_first labelText (texts d) with
    | Some rest => hd_error rest
    | None => None
    end /\
  extractSectionParagraph d headingText =
    match after_first headingText (texts d) with
    | None => None
    | Some rest =>
        match take_until (is_stop headingText) rest with
        | [] => None
        | fragments => Some (trim (collapse_spaces (join_space fragments)))
        end
    end.
Proof. exact (scans_pipeline d labelText headingText). Qed.

End Pipeline.

(** ** What the extractors return is clean text *)

Module Clean.

Import Paragraph.

(** Not empty, and without white space at either end. *)
Definition clean (s : jsstring) : Prop := s <> [] /\ trimmed s.

Lemma trimmed_nil : trimmed [].
Proof. split; [exact I | reflexivity]. Qed.

Lemma textValue_trimmed (node : text_node) : trimmed (textValue node).
Proof.
  unfold textValue. destruct (is_empty (nodeValue node));
    [apply trimmed_nil | apply trim_trimmed].
Qed.

Lemma texts_of_clean (w : list text_node) : Forall clean (texts_of w).
Proof.
  apply Forall_forall. intros v Hv. split; [eapply texts_of_nonempty; exact Hv|].
  unfold texts_of in Hv. apply filter_In in Hv. destruct Hv as [Hv _].
  apply in_map_iff in Hv. destruct Hv as (n & <- & _). apply textValue_trimmed.
Qed.

Lemma after_first_incl (x : jsstring) (l rest : list jsstring) :
  Pipeline.after_first x l = Some rest -> incl rest l.
Proof.
  revert rest; induction l as [|y l IH]; intros rest; simpl; [discriminate|].
  destruct (str_eqb y x).
  - intros H; injection H as <-. apply incl_tl, incl_refl.
  - intros H. apply incl_tl. apply IH; exact H.
Qed.

Lemma take_until_incl (stop : jsstring -> bool) (l : list jsstring) :
  incl (Pipeline.take_until stop l) l.
Proof.
  induction l as [|y l IH]; simpl; [apply incl_refl|].
  destruct (stop y); [intros x []|].
  intros x [<- | Hx]; [left; reflexivity | right; apply IH; exact Hx].
Qed.

(** White space is not read past a code unit that is none. *)
Lemma trimEnd_keeps_head (c : char) (s : jsstring) :
  is_space c = false -> exists r, trimEnd (c :: s) = c :: r.
Proof.
  intros E. simpl. destruct (trimEnd s) as [|x r].
  - rewrite E. exists []. reflexivity.
  - exists (x :: r). reflexivity.
Qed.

Lemma join_space_head (c : char) (s : jsstring) (fragments : list jsstring) :
  exists r, join_space ((c :: s) :: fragments) = c :: r.
Proof.
  destruct fragments as [|f fragments]; simpl; eexists; reflexivity.
Qed.

Lemma normalized_nonempty (fragments : list jsstring) :
  Forall clean fragments -> fragments <> [] ->
  trim (collapse_spaces (join_space fragments)) <> [].
Proof.
  intros Hc Hne. destruct fragments as [|f fragments]; [congruence|].
  apply Forall_inv in Hc. destruct Hc as [Hf [Hhead _]].
  destruct f as [|c s]; [congruence|].
  destruct (join_space_head c s fragments) as [r E].
  unfold jsstring in *. rewrite E.
  unfold collapse_spaces, trim. cbn [collapse_from]. rewrite Hhead.
  cbn [trimStart]. rewrite Hhead.
  destruct (trimEnd_keeps_head c (collapse_from false r) Hhead) as [r' E'].
  rewrite E'. discriminate.
Qed.

Lemma clean_text (d : document) (labelText headingText : jsstring) :
  (forall v, findFieldValue d labelText = Some v -> clean v) /\
  Forall clean (extractSectionList d headingText) /\
  (forall r, extractSectionParagraph d headingText = Some r ->
             clean r /\ single_spaced false r).
Proof.
  split; [|split].
  - intros v Hv. rewrite (proj1 (Pipeline.scans_pipeline d labelText headingText)) in Hv.
    destruct (Pipeline.after_first labelText (texts d)) as [rest|] eqn:A;
      [|discriminate].
    destruct rest as [|x rest]; [discriminate|]. injection Hv as <-.
    pose proof (texts_of_clean (createTreeWalker d)) as Hc.
    rewrite Forall_forall in Hc. apply Hc.
    apply (after_first_incl _ _ _ A). left. reflexivity.
  - unfold extractSectionList.
    destruct (find_heading headingText (createTreeWalker d)); [|constructor].
    destruct (find_container (ancestors t)); [|constructor].
    destruct (querySelector (lit "ul") n) as [u|]; [|constructor].
    induction (querySelectorAll (lit "li") u) as [|i items IH]; simpl;
      [constructor|].
    destruct (is_empty (trim (textContent i))) eqn:E; [exact IH|].
    constructor; [|exact IH]. split; [apply is_empty_false; exact E|].
    apply trim_trimmed.
  - intros r Hr.
    pose proof (proj2 (Pipeline.scans_pipeline d labelText headingText)) as P.
    rewrite P in Hr.
    destruct (Pipeline.after_first headingText (texts d)) as [rest|] eqn:A;
      [|discriminate].
    destruct (Pipeline.take_until (Pipeline.is_stop headingText) rest)
      as [|f fragments] eqn:T; [discriminate|].
    assert (E : r = trim (collapse_spaces (join_space (f :: fragments))))
      by congruence.
    rewrite E. clear E Hr. split; [split|].
    + apply normalized_nonempty; [|discriminate].
      apply Forall_forall. intros v Hv.
      pose proof (texts_of_clean (createTreeWalker d)) as Hc.
      rewrite Forall_forall in Hc. apply Hc.
      apply (after_first_incl _ _ _ A). rewrite <- T in Hv.
      apply (take_until_incl _ _ _ Hv).
    + apply trim_trimmed.
    + unfold trim. apply trimEnd_single_spaced.
      apply trimStart_single_spaced with (b := false).
      apply collapse_from_single_spaced.
Qed.

(** X2. Every scalar, item and paragraph the extractors return is non-empty
    and has no white space at either end; a paragraph moreover has single
    spaces only. *)
Theorem extracted_text_is_clean (d : document) (labelText headingText : jsstring) :
  (forall v, findFieldValue d labelText = Some v -> clean v) /\
  Forall clean (extractSectionList d headingText) /\
  (forall r, extractSectionParagraph d headingText = Some r ->
             clean r /\ single_spaced false r).
Proof. exact (clean_text d labelText headingText). Qed.

End Clean.

(** ** The value of a field *)

Module FieldValue.

Import JsFacts TextSeq Paragraph Clean.

(** White space throughout. *)
Definition white (s : jsstring) : Prop := Forall (fun c => is_space c = true) s.

(** [v] is [raw] without the white space at its two ends. *)
Definition stripped (raw v : jsstring) : Prop :=
  exists pre post : jsstring,
    raw = pre ++ v ++ post /\ white pre /\ white post /\ trimmed v.

(** What a walk is read as: a node whose value is white space throughout
    is passed over, any other node gives its value without the white
    space at its ends. *)
Inductive read_as : list text_node -> list jsstring -> Prop :=
| read_end : read_as [] []
| read_over (n : text_node) (w : list text_node) (vs : list jsstring) :
    white (nodeValue n) -> read_as w vs -> read_as (n :: w) vs
| read_value (n : text_node) (w : list text_node) (v : jsstring)
    (vs : list jsstring) :
    stripped (nodeValue n) v -> v <> [] -> read_as w vs ->
    read_as (n :: w) (v :: vs).

Lemma trimStart_split (s : jsstring) :
  exists pre, s = pre ++ trimStart s /\ white pre.
Proof.
  induction s as [|c s (pre & E & W)]; [exists []; split; [reflexivity | constructor]|].
  cbn [trimStart]. destruct (is_space c) eqn:S.
  - exists (c :: pre). split; [cbn [List.app]; rewrite <- E; reflexivity|].
    constructor; assumption.
  - exists []. split; [reflexivity | constructor].
Qed.

Lemma trimEnd_split (s : jsstring) :
  exists post, s = trimEnd s ++ post /\ white post.
Proof.
  induction s as [|c s (post & E & W)]; [exists []; split; [reflexivity | constructor]|].
  cbn [trimEnd]. destruct (trimEnd s) as [|x r] eqn:T.
  - cbn [List.app] in E. subst s. destruct (is_space c) eqn:S.
    + exists (c :: post). split; [reflexivity | constructor; assumption].
    + exists post. split; [reflexivity | exact W].
  - exists post. split; [rewrite E at 1; reflexivity | exact W].
Qed.

Lemma trim_stripped (s : jsstring) : stripped s (trim s).
Proof.
  destruct (trimStart_split s) as (pre & E1 & W1).
  destruct (trimEnd_split (trimStart s)) as (post & E2 & W2).
  exists pre, post. unfold trim. split; [rewrite <- E2; exact E1|].
  split; [exact W1|]. split; [exact W2 | apply trim_trimmed].
Qed.

Lemma trim_nil_white (s : jsstring) : trim s = [] -> white s.
Proof.
  intros H. destruct (trim_stripped s) as (pre & post & E & W1 & W2 & _).
  rewrite H in E. rewrite E. apply Forall_app. split; assumption.
Qed.

Lemma textValue_stripped (n : text_node) :
  (textValue n = [] -> white (nodeValue n)) /\
  stripped (nodeValue n) (textValue n).
Proof.
  unfold textValue. destruct (nodeValue n) as [|c s] eqn:E; cbn [is_empty].
  - split; [intros _; constructor|]. exists [], []. repeat split; constructor.
  - split; [apply trim_nil_white | apply trim_stripped].
Qed.

Lemma texts_of_read (w : list text_node) : read_as w (texts_of w).
Proof.
  induction w as [|n w IH]; [constructor|]. rewrite texts_of_cons.
  destruct (textValue_stripped n) as (Hw & Hs).
  destruct (is_empty (textValue n)) eqn:E.
  - apply read_over; [apply Hw; apply is_empty_true; exact E | exact IH].
  - apply read_value; [exact Hs | apply is_empty_false; exact E | exact IH].
Qed.

Lemma texts_of_from_node (w : list text_node) (v : jsstring) :
  In v (texts_of w) -> exists n, In n w /\ v = textValue n.
Proof.
  unfold texts_of. rewrite filter_In, in_map_iff.
  intros ((n & E & Hn) & _). exists n. split; [exact Hn | symmetry; exact E].
Qed.

Lemma found_in_texts (labelText : jsstring) (w : list text_node) (seen : bool)
    (v : jsstring) :
  findFieldValue_loop labelText seen w = Some v -> In v (texts_of w).
Proof.
  revert seen; induction w as [|node w IH]; intros seen;
    cbn [findFieldValue_loop]; [discriminate|].
  rewrite texts_of_cons. destruct (is_empty (textValue node)); [apply IH|].
  destruct seen.
  - intros H; injection H as <-. left. reflexivity.
  - intros H. right.
    destruct (str_eqb (textValue node) labelText); exact (IH _ H).
Qed.

(** C4. The field locator scans the text values of the document in
    document order, each read trimmed: the value of a text node without
    the white space at its two ends, a node of white space only being
    passed over. When the label never occurs among them the result is
    absent; otherwise the value right after the first occurrence of the
    label is returned, absent when nothing follows it; later occurrences
    of the label play no role. A value that is returned is non-empty, has
    no white space at either end, and is the value of a text node of the
    document without the white space at its ends. *)
Theorem findFieldValue_first_label (d : document) (labelText : jsstring) :
  (~ In labelText (texts d) -> findFieldValue d labelText = None) /\
  (forall pre post : list jsstring,
      texts d = pre ++ labelText :: post ->
      ~ In labelText pre ->
      findFieldValue d labelText = hd_error post) /\
  (forall v : jsstring, findFieldValue d labelText = Some v -> v <> []) /\
  read_as (createTreeWalker d) (texts d) /\
  (forall v : jsstring,
      findFieldValue d labelText = Some v ->
      trimmed v /\
      exists n : text_node,
        In n (createTreeWalker d) /\ stripped (nodeValue n) v).
Proof.
  split; [apply FieldLocator.loop_absent|].
  split; [intros pre post; apply FieldLocator.loop_first|].
  split; [intros v Hv; exact (proj1 (proj1 (clean_text d labelText []) v Hv))|].
  split; [apply texts_of_read|].
  intros v Hv. split; [exact (proj2 (proj1 (clean_text d labelText []) v Hv))|].
  apply found_in_texts in Hv. apply texts_of_from_node in Hv.
  destruct Hv as (n & Hn & ->). exists n. split; [exact Hn|].
  exact (proj2 (textValue_stripped n)).
Qed.

End FieldValue.

(** ** How the handler uses the network and the timers *)

Module Traffic.

Import Assembler SortFacts Discovery.

(** The fetches so far: every call of [fetchDocument] leaves the line
    "Fetching document" on the console, and nothing else does. *)
Definition is_fetch_line (e : log_entry) : bool :=
  str_eqb (log_message e) (lit "Fetching document").

Definition fetch_count (w : World) : nat :=
  List.length (filter is_fetch_line (console w)).

(** [w'] is [w] after [k] interactions (fetches and delays), [f] of them
    fetches: the same network and clock, the counter [k] further. *)
Definition after_steps (k f : nat) (w w' : World) : Prop :=
  tick w' = tick w + k /\
  fetch_count w' = fetch_count w + f /\
  network w' = network w /\
  clock w' = clock w.

Lemma after_steps_refl (w : World) : after_steps 0 0 w w.
Proof. unfold after_steps. rewrite !Nat.add_0_r. repeat split. Qed.

Lemma after_steps_trans (j k f g : nat) (w1 w2 w3 : World) :
  after_steps j f w1 w2 -> after_steps k g w2 w3 ->
  after_steps (j + k) (f + g) w1 w3.
Proof.
  unfold after_steps. intros (T1 & F1 & N1 & C1) (T2 & F2 & N2 & C2).
  repeat split; [lia | lia | congruence | congruence].
Qed.

Lemma after_steps_eq (j k f g : nat) (w w' : World) :
  j = k -> f = g -> after_steps j f w w' -> after_steps k g w w'.
Proof. intros -> ->. auto. Qed.

Lemma after_steps_logged (l : level) (msg : string) (w : World) :
  after_steps 0 (if str_eqb (lit msg) (lit "Fetching document") then 1 else 0)
              w (logged l msg w).
Proof.
  unfold after_steps, logged, fetch_count. cbn [log snd tick console network clock].
  rewrite Nat.add_0_r, filter_app, length_app. cbn [filter].
  change (is_fetch_line {| log_level := l; log_message := lit msg |})
    with (str_eqb (lit msg) (lit "Fetching document")).
  destruct (str_eqb (lit msg) (lit "Fetching document")); repeat split.
Qed.

Lemma after_steps_advance (w : World) : after_steps 1 0 w (advance w).
Proof.
  unfold after_steps, advance, fetch_count. simpl. repeat split; lia.
Qed.

(** A line other than that of a fetch, logged after or before. *)
Lemma after_steps_logged_r (k f : nat) (l : level) (msg : string) (w w' : World) :
  str_eqb (lit msg) (lit "Fetching document") = false ->
  after_steps k f w w' -> after_steps k f w (logged l msg w').
Proof.
  intros E H. pose proof (after_steps_logged l msg w') as L. rewrite E in L.
  refine (after_steps_eq _ _ _ _ _ _ _ _ (after_steps_trans _ _ _ _ _ _ _ H L)); lia.
Qed.

Lemma after_steps_logged_l (k f : nat) (l : level) (msg : string) (w w' : World) :
  str_eqb (lit msg) (lit "Fetching document") = false ->
  after_steps k f (logged l msg w) w' -> after_steps k f w w'.
Proof.
  intros E H. pose proof (after_steps_logged l msg w) as L. rewrite E in L.
  refine (after_steps_eq _ _ _ _ _ _ _ _ (after_steps_trans _ _ _ _ _ _ _ L H)); lia.
Qed.

Ltac other_line := vm_compute; reflexivity.

(** A call of [fetchDocument] is one interaction, a fetch, however it ends. *)
Lemma fetchDocument_steps (url : jsstring) (w : World) :
  after_steps 1 1 w (snd (fetchDocument url w)).
Proof.
  unfold fetchDocument, try_catch. rewrite bind_log. unfold bind at 1, fetch.
  assert (L : after_steps 1 1 w (advance (logged Info "Fetching document" w))).
  { refine (after_steps_eq _ _ _ _ _ _ _ _
              (after_steps_trans _ _ _ _ _ _ _
                 (after_steps_logged Info "Fetching document" w)
                 (after_steps_advance _))); reflexivity. }
  fold (logged Info "Fetching document" w).
  destruct (network _ _ url) as [r|e]; cbn [fst snd].
  - destruct (negb (ok r)); cbn [throw snd fst].
    + destruct (str_eqb _ _); rewrite bind_log; cbn [throw snd];
        (apply after_steps_logged_r; [other_line | exact L]).
    + rewrite bind_log. cbn [ret snd].
      apply after_steps_logged_r; [other_line | exact L].
  - destruct (str_eqb _ _); rewrite bind_log; cbn [throw snd];
      (apply after_steps_logged_r; [other_line | exact L]).
Qed.

(** The schema mapping leaves the world as it is. *)
Lemma mapToSchema_world (raw : value) (w : World) : snd (mapToSchema raw w) = w.
Proof.
  unfold mapToSchema, bind, lift, ret, now_iso.
  destruct (get raw "id") as [id|e] eqn:G; [|reflexivity].
  assert (Hget : forall k, get raw k = Ok (get_opt raw k)).
  { intros k. destruct raw; try discriminate; reflexivity. }
  rewrite !Hget. destruct (nullish (get_opt raw "scraped_at")); reflexivity.
Qed.

Lemma firstn_subset (n : nat) (l : list jsstring) (x : jsstring) :
  In x (firstn n l) -> In x l.
Proof.
  revert n; induction l as [|y l IH]; intros [|n]; simpl; try tauto.
  intros [H | H]; [left; exact H | right; apply (IH n); exact H].
Qed.

Lemma firstn_sorted (n : nat) (l : list jsstring) :
  StronglySorted str_le l -> StronglySorted str_le (firstn n l).
Proof.
  intros H; revert n; induction H as [|x l Hl IH Hx]; intros [|n]; simpl;
    try constructor.
  - apply IH.
  - apply Forall_forall. intros y Hy. rewrite Forall_forall in Hx.
    apply Hx. eapply firstn_subset. exact Hy.
Qed.

Lemma firstn_NoDup (n : nat) (l : list jsstring) : NoDup l -> NoDup (firstn n l).
Proof.
  intros H; revert n; induction H as [|x l Hx Hl IH]; intros [|n]; simpl;
    try constructor.
  - intros Hin. apply Hx. eapply firstn_subset. exact Hin.
  - apply IH.
Qed.

Lemma cut_sorted (limit : option Z) (l : list jsstring) :
  StronglySorted str_le l -> StronglySorted str_le (cut limit l).
Proof.
  intros H. unfold cut, slice_to. destruct limit as [n|]; [|exact H].
  destruct (Z.ltb 0 n); [apply firstn_sorted|]; exact H.
Qed.

Lemma cut_NoDup (limit : option Z) (l : list jsstring) :
  NoDup l -> NoDup (cut limit l).
Proof.
  intros H. unfold cut, slice_to. destruct limit as [n|]; [|exact H].
  destruct (Z.ltb 0 n); [apply firstn_NoDup|]; exact H.
Qed.

(** The cut keeps at most [n] entries for a positive limit [n], and all of
    them for any other limit. *)
Lemma cut_limit (limit : option Z) (l : list jsstring) :
  match limit with
  | Some n =>
      if Z.ltb 0 n then (Z.of_nat (List.length (cut limit l)) <= n)%Z
                        /\ cut limit l = firstn (Z.to_nat n) l
      else cut limit l = l
  | None => cut limit l = l
  end.
Proof.
  unfold cut, slice_to. destruct limit as [n|]; [|reflexivity].
  destruct (Z.ltb 0 n) eqn:E; [|reflexivity]. split; [|reflexivity].
  apply Z.ltb_lt in E. pose proof (firstn_le_length (Z.to_nat n) l). lia.
Qed.

Section TrafficProps.

Variable URL_pathname : jsstring -> option jsstring.
Variable URL_resolve : jsstring -> jsstring -> option jsstring.
Variable Date_parse : value -> option Z.

Local Abbreviation parseInefficiencyDetail :=
  (Scraper.parseInefficiencyDetail URL_pathname URL_resolve).
Local Abbreviation scrape_one :=
  (Scraper.scrape_one URL_pathname URL_resolve Date_parse).
Local Abbreviation batch_loop :=
  (Scraper.batch_loop URL_pathname URL_resolve Date_parse).
Local Abbreviation page_body := (Scraper.page_body URL_resolve).
Local Abbreviation pages_loop := (Scraper.pages_loop URL_resolve).
Local Abbreviation extractInefficiencyUrls :=
  (Scraper.extractInefficiencyUrls URL_resolve).
Local Abbreviation handler := (Scraper.handler URL_pathname URL_resolve Date_parse).

(** A detail page costs one fetch, whether it succeeds or not. *)
Lemma parseInefficiencyDetail_steps (url : jsstring) (w : World) :
  after_steps 1 1 w (snd (parseInefficiencyDetail url w)).
Proof.
  unfold Scraper.parseInefficiencyDetail. unfold bind at 1.
  pose proof (fetchDocument_steps url w) as F.
  destruct (fetchDocument url w) as [[document|e] w1]; cbn [snd] in *; [|exact F].
  unfold bind at 1, lift at 1.
  destruct (Scraper.extractDocumentationLinks URL_resolve document);
    cbn [snd]; [|exact F].
  unfold bind at 1, now_iso at 1. rewrite mapToSchema_world. exact F.
Qed.

Lemma scrape_one_steps (url : jsstring) (w : World) :
  after_steps 1 1 w (snd (scrape_one url w)).
Proof.
  unfold Scraper.scrape_one. rewrite bind_log.
  apply after_steps_logged_l with (l := Info) (msg := "Scraping URL"%string);
    [other_line|].
  unfold bind at 1.
  pose proof (parseInefficiencyDetail_steps url (logged Info "Scraping URL" w)) as P.
  destruct (parseInefficiencyDetail url _) as [[record|e] w1]; cbn [snd] in *;
    [|exact P].
  unfold bind at 1, lift at 1.
  destruct (Scraper.validateScrapedData Date_parse record) as [v|e]; cbn [snd];
    [|exact P].
  destruct (negb (isValid v));
    [rewrite bind_log; apply after_steps_logged_r; [other_line|]|]; exact P.
Qed.

(** The batch loop: one fetch for each URL and one delay before each URL
    but the first. *)
Lemma batch_loop_steps (urls : list jsstring) (i : nat) (results : list value)
    (errors : list error_entry) (w : World) :
  after_steps (List.length urls + (if Nat.ltb 0 i then List.length urls
                                   else List.length urls - 1))
              (List.length urls)
              w (snd (batch_loop urls i results errors w)).
Proof.
  revert i results errors w; induction urls as [|url urls IH];
    intros i results errors w.
  - simpl. destruct (Nat.ltb 0 i); apply after_steps_refl.
  - rewrite Handler.batch_loop_step.
    pose proof (scrape_one_steps url (Handler.slept i w)) as Hone.
    assert (Hs : after_steps (if Nat.ltb 0 i then 1 else 0) 0 w (Handler.slept i w)).
    { unfold Handler.slept. destruct (Nat.ltb 0 i);
        [apply after_steps_advance | apply after_steps_refl]. }
    destruct (scrape_one url (Handler.slept i w)) as [[record|e] w1];
      cbn [snd] in Hone.
    + specialize (IH (S i) (results ++ [record]) errors
                     (logged Info "URL scraped successfully" w1)).
      cbn [Nat.ltb Nat.leb] in IH.
      apply after_steps_logged_l in IH; [|other_line].
      pose proof (after_steps_trans _ _ _ _ _ _ _
                    (after_steps_trans _ _ _ _ _ _ _ Hs Hone) IH) as H.
      cbn [List.length].
      refine (after_steps_eq _ _ _ _ _ _ _ _ H); [destruct (Nat.ltb 0 i); lia | lia].
    + specialize (IH (S i) results
                     (errors ++ [Handler.failure url e i])
                     (logged Err "Failed to scrape URL" w1)).
      cbn [Nat.ltb Nat.leb] in IH.
      apply after_steps_logged_l in IH; [|other_line].
      pose proof (after_steps_trans _ _ _ _ _ _ _
                    (after_steps_trans _ _ _ _ _ _ _ Hs Hone) IH) as H.
      cbn [List.length].
      refine (after_steps_eq _ _ _ _ _ _ _ _ H); [destruct (Nat.ltb 0 i); lia | lia].
Qed.

(** X3. The batch makes a single attempt at every URL and waits between any two
    of them: over [n] URLs it fetches [n] times and waits [n - 1] times,
    whatever fails. *)
Theorem batch_single_attempts (urls : list jsstring) (w : World) :
  (forall (url : jsstring) (w0 : World),
      after_steps 1 1 w0 (snd (scrape_one url w0))) /\
  after_steps (List.length urls + (List.length urls - 1)) (List.length urls)
              w (snd (batch_loop urls 0 [] [] w)).
Proof.
  split; [exact scrape_one_steps|]. exact (batch_loop_steps urls 0 [] [] w).
Qed.

(** *** Discovery, whatever the network does *)

Lemma forEach_index_anchor_NoDup (anchors : list node) (set : list jsstring)
    (found : nat) :
  NoDup set ->
  NoDup (snd (Scraper.forEach_index_anchor URL_resolve anchors set found)).
Proof.
  revert set found; induction anchors as [|a anchors IH]; intros set found H;
    cbn [Scraper.forEach_index_anchor]; [exact H|].
  destruct a as [data|data|tag attrs cs]; try (apply IH; exact H).
  destruct (getAttribute attrs (lit "href")) as [href|]; [|apply IH; exact H].
  destruct (is_empty href); [apply IH; exact H|].
  destruct (includes href (lit "/inefficiencies/")); [|apply IH; exact H].
  destruct (Scraper.absolute_or_resolved URL_resolve href) as [u|e]; [|exact H].
  apply IH. apply set_add_NoDup. exact H.
Qed.

(** One index page: always a result, one fetch, at most one delay, and a
    set that stays without duplicates. *)
Lemma page_body_always (page : nat) (set : list jsstring) (w : World) :
  NoDup set ->
  exists (step : list jsstring * bool) (w' : World) (k : nat),
    page_body page set w = (Ok step, w') /\
    NoDup (fst step) /\ after_steps k 1 w w' /\ k <= 2.
Proof.
  intros Hset. unfold Scraper.page_body, try_catch. unfold bind at 1.
  pose proof (fetchDocument_steps (indexUrl page) w) as F.
  destruct (fetchDocument (indexUrl page) w) as [[document|e] w1]; cbn [snd] in F.
  - pose proof (forEach_index_anchor_NoDup
                  (querySelectorAll_a_href (documentElement document)) set 0 Hset) as Hn.
    destruct (Scraper.forEach_index_anchor URL_resolve _ set 0) as [[found|e] set'];
      cbn [snd] in Hn.
    + rewrite bind_log. destruct (Nat.eqb found 0).
      * rewrite bind_log. eexists. eexists. exists 1.
        split; [reflexivity|]. split; [exact Hn|]. split; [|lia].
        do 2 (apply after_steps_logged_r; [other_line|]). exact F.
      * unfold bind. destruct (Nat.ltb page MAX_PAGES); cbn [sleep ret].
        -- eexists. eexists. exists 2. split; [reflexivity|].
           split; [exact Hn|]. split; [|lia].
           refine (after_steps_eq _ _ _ _ _ _ _ _
                     (after_steps_trans _ _ _ _ _ _ _
                        (after_steps_logged_r _ _ Info "Extracted URLs from page"
                           _ _ _ F)
                        (after_steps_advance _))); [lia | lia | other_line].
        -- eexists. eexists. exists 1. split; [reflexivity|].
           split; [exact Hn|]. split; [|lia].
           apply after_steps_logged_r; [other_line | exact F].
    + rewrite bind_log. eexists. eexists. exists 1.
      split; [reflexivity|]. split; [exact Hn|]. split; [|lia].
      apply after_steps_logged_r; [other_line | exact F].
  - rewrite bind_log. eexists. eexists. exists 1.
    split; [reflexivity|]. split; [exact Hset|]. split; [|lia].
    apply after_steps_logged_r; [other_line | exact F].
Qed.

Lemma pages_loop_always (remaining page : nat) (set : list jsstring) (w : World) :
  NoDup set ->
  exists (set' : list jsstring) (w' : World) (k f : nat),
    pages_loop remaining page set w = (Ok set', w') /\
    NoDup set' /\ after_steps k f w w' /\ f <= remaining /\ k <= 2 * remaining.
Proof.
  revert page set w; induction remaining as [|remaining IH]; intros page set w Hset.
  - exists set, w, 0, 0. split; [reflexivity|]. split; [exact Hset|].
    split; [apply after_steps_refl | lia].
  - cbn [Scraper.pages_loop]. unfold bind at 1.
    destruct (page_body_always page set w Hset)
      as ([set1 stop] & w1 & k1 & -> & Hn1 & S1 & Hk1).
    cbn [snd fst] in *. destruct stop.
    + exists set1, w1, k1, 1. split; [reflexivity|]. split; [exact Hn1|].
      split; [exact S1 | lia].
    + destruct (IH (S page) set1 w1 Hn1) as (set' & w' & k & f & -> & Hn & S2 & Hf & Hk).
      exists set', w', (k1 + k), (1 + f). split; [reflexivity|].
      split; [exact Hn|]. split; [exact (after_steps_trans _ _ _ _ _ _ _ S1 S2)|].
      lia.
Qed.

Lemma extractInefficiencyUrls_always (limit : option Z) (w : World) :
  exists (urls : list jsstring) (w' : World) (k f : nat),
    extractInefficiencyUrls limit w = (Ok urls, w') /\
    StronglySorted str_le urls /\ NoDup urls /\
    (forall n, limit = Some n -> (0 < n)%Z -> (Z.of_nat (List.length urls) <= n)%Z) /\
    after_steps k f w w' /\ f <= MAX_PAGES.
Proof using URL_resolve.
  unfold Scraper.extractInefficiencyUrls. rewrite bind_log. unfold bind at 1.
  destruct (pages_loop_always MAX_PAGES 1 []
              (logged Info "Starting URL extraction from paginated hub" w)
              (NoDup_nil _))
    as (set & w1 & k & f & -> & Hn & Hs & Hf & _).
  rewrite bind_log. fold (cut limit (sort set)).
  assert (E : exists w', (match limit with
                | Some n => if Z.ltb 0 n then ret (slice_to (sort set) n)
                            else ret (sort set)
                | None => ret (sort set)
                end) (logged Info "URL extraction completed" w1)
              = (Ok (cut limit (sort set)), w') /\
              w' = logged Info "URL extraction completed" w1).
  { eexists. unfold cut. destruct limit as [n|]; [destruct (Z.ltb 0 n)|];
      split; reflexivity. }
  destruct E as (w' & -> & ->).
  exists (cut limit (sort set)). eexists. exists k, f.
  split; [reflexivity|].
  split; [apply cut_sorted, sort_sorted|].
  split; [apply cut_NoDup; apply (Permutation_NoDup (Permutation_sym (sort_perm set)));
          exact Hn|].
  split.
  - intros n -> Hpos. pose proof (cut_limit (Some n) (sort set)) as C.
    cbv beta iota in C. apply Z.ltb_lt in Hpos. rewrite Hpos in C. apply C.
  - split; [|exact Hf].
    apply after_steps_logged_r; [other_line|].
    apply after_steps_logged_l with (l := Info)
      (msg := "Starting URL extraction from paginated hub"%string); [other_line|].
    exact Hs.
Qed.

(** X4. Discovery never fails: whatever the pages answer, it returns a sequence
    in ascending order and without duplicates, cut to the limit when that
    is positive, after at most thirty page fetches. *)
Theorem discovery_always_returns (limit : option Z) (w : World) :
  exists (urls : list jsstring) (w' : World) (k f : nat),
    extractInefficiencyUrls limit w = (Ok urls, w') /\
    StronglySorted str_le urls /\ NoDup urls /\
    (forall n, limit = Some n -> (0 < n)%Z -> (Z.of_nat (List.length urls) <= n)%Z) /\
    after_steps k f w w' /\ f <= MAX_PAGES.
Proof. exact (extractInefficiencyUrls_always limit w). Qed.

(** *** The answers of the handler *)

Lemma handler_single_throw (req : request) (url : jsstring) (w w1 : World)
    (e : error) :
  urlParam req = Some url -> url <> [] ->
  parseInefficiencyDetail url (logged Info "Scraper request started" w)
    = (Throw e, w1) ->
  handler req w =
    (Ok (SingleFailure url (message e)),
     logged Err "Failed to scrape single URL" w1).
Proof.
  intros Hu Hne H. unfold Scraper.handler, Scraper.handler_try, Scraper.handler_catch. rewrite Hu.
  destruct url as [|c url]; [congruence|].
  unfold try_catch at 1. rewrite bind_log. unfold try_catch at 1.
  unfold bind at 1. rewrite H. rewrite bind_log. reflexivity.
Qed.

Lemma not_batch_request (req : request) :
  ~ Limit.batch_request req ->
  exists url, urlParam req = Some url /\ url <> [].
Proof.
  unfold Limit.batch_request. intros H.
  destruct (urlParam req) as [[|c url]|]; try tauto.
  exists (c :: url). split; [reflexivity | discriminate].
Qed.

(** What a batch request is answered with. *)
Definition batch_answer (req : request) (resp : http_response) : Prop :=
  match resp with
  | Batch count total failed urls items errors =>
      count = List.length items /\
      total = List.length urls /\
      count + failed = total /\
      (errors = None <-> failed = 0) /\
      (forall es, errors = Some es -> List.length es = failed) /\
      StronglySorted str_le urls /\ NoDup urls /\
      (forall n, request_limit req = Some n -> (0 < n)%Z ->
                 (Z.of_nat total <= n)%Z)
  | _ => False
  end.

(** What a request for one URL is answered with. *)
Definition single_answer (url : jsstring) (resp : http_response) : Prop :=
  match resp with
  | SingleRecord record =>
      get_opt (get_opt record "source") "url" = VStr url
  | SingleFailure url' details => url' = url
  | _ => False
  end.

(** Once the query is read the handler answers: a request with a [url]
    parameter with the record of that URL or with the failure of that URL,
    after exactly one fetch; any other request with a batch. *)
Lemma handler_answers (req : request) (w : World) :
  exists (resp : http_response) (w' : World),
    handler req w = (Ok resp, w') /\
    (Limit.batch_request req -> batch_answer req resp) /\
    (forall url, urlParam req = Some url -> url <> [] ->
                 single_answer url resp /\ after_steps 1 1 w w').
Proof.
  destruct (urlParam req) as [[|c url]|] eqn:U.
  - (* url= *)
    destruct (extractInefficiencyUrls_always (request_limit req)
                (logged Info "Scraper request started" w))
      as (urls & w1 & k & f & Hd & Hsorted & Hnodup & Hlimit & _).
    destruct (Handler.batch_loop_total URL_pathname URL_resolve Date_parse
                urls 0 [] [] (logged Info "URLs discovered" w1))
      as (results & errors & w2 & Hb & Hlen & _).
    cbn [app] in Hb.
    assert (Hreq : Limit.batch_request req) by (right; exact U).
    rewrite (Limit.handler_batch URL_pathname URL_resolve Date_parse
               req w w1 w2 urls results errors Hreq Hd Hb).
    eexists. eexists. split; [reflexivity|]. split.
    + intros _. cbn [batch_answer]. repeat split; try assumption.
      * destruct errors; [reflexivity | discriminate].
      * destruct errors; [reflexivity | discriminate].
      * intros es. destruct errors; [discriminate|]. intros E; injection E as <-.
        reflexivity.
    + intros url' E Hne. injection E as <-. congruence.
  - pose proof (parseInefficiencyDetail_steps (c :: url)
                 (logged Info "Scraper request started" w)) as P.
    destruct (parseInefficiencyDetail (c :: url)
                (logged Info "Scraper request started" w)) as [[record|e] w1] eqn:H;
      cbn [snd] in P.
    + destruct (Handler.handler_single_ok URL_pathname URL_resolve Date_parse
                  req (c :: url) w w1 record U) as (v & _ & ->);
        [discriminate | exact H |].
      eexists. eexists. split; [reflexivity|]. split.
      * intros [B | B]; rewrite U in B; discriminate B.
      * intros url' E Hne. injection E as <-. split.
        -- cbn [single_answer].
           exact (Assembler.parsed_record_source_url URL_pathname URL_resolve
                    _ _ _ _ H).
        -- apply after_steps_logged_r; [other_line|].
           unfold Handler.warned. destruct (isValid v).
           ++ apply after_steps_logged_l in P; [exact P | other_line].
           ++ apply after_steps_logged_r; [other_line|].
              apply after_steps_logged_l in P; [exact P | other_line].
    + rewrite (handler_single_throw req (c :: url) w w1 e U); [|discriminate | exact H].
      eexists. eexists. split; [reflexivity|]. split.
      * intros [B | B]; rewrite U in B; discriminate B.
      * intros url' E Hne. injection E as <-. split; [reflexivity|].
        apply after_steps_logged_r; [other_line|].
        apply after_steps_logged_l in P; [exact P | other_line].
  - destruct (extractInefficiencyUrls_always (request_limit req)
                (logged Info "Scraper request started" w))
      as (urls & w1 & k & f & Hd & Hsorted & Hnodup & Hlimit & _).
    destruct (Handler.batch_loop_total URL_pathname URL_resolve Date_parse
                urls 0 [] [] (logged Info "URLs discovered" w1))
      as (results & errors & w2 & Hb & Hlen & _).
    cbn [app] in Hb.
    assert (Hreq : Limit.batch_request req) by (left; exact U).
    rewrite (Limit.handler_batch URL_pathname URL_resolve Date_parse
               req w w1 w2 urls results errors Hreq Hd Hb).
    eexists. eexists. split; [reflexivity|]. split.
    + intros _. cbn [batch_answer]. repeat split; try assumption.
      * destruct errors; [reflexivity | discriminate].
      * destruct errors; [reflexivity | discriminate].
      * intros es. destruct errors; [discriminate|]. intros E; injection E as <-.
        reflexivity.
    + intros url' E. discriminate E.
Qed.

(** Once the query is read, the exported function goes on as the handler
    does from that query. *)
Lemma module_exports_read (URL_query : jsstring -> option request)
    (req_url : jsstring) (req : request) (w : World) :
  URL_query req_url = Some req ->
  Scraper.module_exports URL_pathname URL_resolve Date_parse URL_query req_url w
    = handler req w.
Proof. intros Q. unfold Scraper.module_exports. rewrite Q. reflexivity. Qed.

(** When the URL of the request cannot be read, the [catch] answers. *)
Lemma module_exports_unread (URL_query : jsstring -> option request)
    (req_url : jsstring) (w : World) :
  URL_query req_url = None ->
  Scraper.module_exports URL_pathname URL_resolve Date_parse URL_query req_url w
    = (Ok (Unexpected (message InvalidURL)),
       logged Err "Unexpected scraper error" w).
Proof. intros Q. unfold Scraper.module_exports. rewrite Q. reflexivity. Qed.

(** X5. The function the module exports always answers. A request whose
    URL cannot be read is answered "Unexpected scraper error" with the
    message of the error, and nothing is fetched; this is the only way to
    that answer. A request that was read is answered, when it has a [url]
    parameter, with the record of that URL or with the failure of that
    URL, after exactly one fetch; otherwise with a batch in which every
    URL is counted once as an item or as an error, the URLs in ascending
    order, without duplicates and no more than a positive limit allows.
    No request is answered "Failed to discover inefficiency URLs". *)
Theorem module_exports_answers (URL_query : jsstring -> option request)
    (req_url : jsstring) (w : World) :
  exists (resp : http_response) (w' : World),
    Scraper.module_exports URL_pathname URL_resolve Date_parse URL_query req_url w
      = (Ok resp, w') /\
    (URL_query req_url = None ->
     resp = Unexpected (message InvalidURL) /\ after_steps 0 0 w w') /\
    (forall req : request,
        URL_query req_url = Some req ->
        handler req w = (Ok resp, w') /\
        (Limit.batch_request req -> batch_answer req resp) /\
        (forall url, urlParam req = Some url -> url <> [] ->
                     single_answer url resp /\ after_steps 1 1 w w')) /\
    ((exists details, resp = Unexpected details) <-> URL_query req_url = None) /\
    (forall details, resp <> DiscoveryFailure details).
Proof.
  destruct (URL_query req_url) as [req|] eqn:Q.
  - destruct (handler_answers req w) as (resp & w' & E & Hb & Hs).
    exists resp, w'. rewrite (module_exports_read URL_query req_url req w Q).
    split; [exact E|]. split; [discriminate|].
    assert (Shape : batch_answer req resp \/ exists url, single_answer url resp).
    { destruct (urlParam req) as [[|c url]|] eqn:U.
      - left. apply Hb. right. exact U.
      - right. exists (c :: url). apply (Hs (c :: url) eq_refl). discriminate.
      - left. apply Hb. left. exact U. }
    split; [|split].
    + intros req' E'. injection E' as <-. split; [exact E|].
      split; [exact Hb | exact Hs].
    + split; [|discriminate]. intros (details & ->).
      destruct Shape as [F | (url & F)]; destruct F.
    + intros details ->. destruct Shape as [F | (url & F)]; destruct F.
  - exists (Unexpected (message InvalidURL)),
           (logged Err "Unexpected scraper error" w).
    split; [exact (module_exports_unread URL_query req_url w Q)|]. split.
    + intros _. split; [reflexivity|].
      apply after_steps_logged_r; [other_line | apply after_steps_refl].
    + split; [intros req E; discriminate E|]. split.
      * split; [reflexivity|]. intros _. eexists. reflexivity.
      * intros details E. discriminate E.
Qed.

End TrafficProps.

End Traffic.

(** ** What a fetch gives, in full *)

Module Fetching.

Import Assembler.

Lemma startsWith_app (p s : jsstring) : startsWith (p ++ s) p = true.
Proof.
  induction p as [|c p IH]; simpl; [destruct s; reflexivity|].
  rewrite N.eqb_refl. exact IH.
Qed.

Lemma includes_startsWith (s p : jsstring) :
  startsWith s p = true -> includes s p = true.
Proof. intros H. destruct s; cbn [includes]; rewrite H; reflexivity. Qed.

Lemma includes_app_r (x s p : jsstring) :
  includes s p = true -> includes (x ++ s) p = true.
Proof.
  intros H. induction x as [|c x IH]; [exact H|].
  rewrite <- app_comm_cons. cbn [includes]. rewrite IH. apply orb_true_r.
Qed.

Lemma includes_middle (x s y : jsstring) : includes (x ++ s ++ y) s = true.
Proof. apply includes_app_r, includes_startsWith, startsWith_app. Qed.

Lemma includes_end (x s : jsstring) : includes (x ++ s) s = true.
Proof.
  replace (x ++ s) with (x ++ s ++ []) by (rewrite app_nil_r; reflexivity).
  apply includes_middle.
Qed.

Lemma fetchDocument_rejected (url : jsstring) (w : World) (cause : error) :
  network w (tick w) url = Throw cause ->
  str_eqb (name cause) (lit "AbortError") = false ->
  fetchDocument url w =
  (Throw (Error (lit "Failed to fetch " ++ url ++ lit ": " ++ message cause)),
   logged Err "Fetch failed" (advance (logged Info "Fetching document" w))).
Proof.
  intros Hn Hname. unfold fetchDocument, try_catch. rewrite bind_log.
  unfold bind at 1, fetch. cbn [logged log snd tick network].
  rewrite Hn, Hname. reflexivity.
Qed.

(** X6. [fetchDocument] returns the parsed page exactly when the network
    answers with a status within 200..299. In every other case it throws
    an [Error] whose message contains the URL and starts with "Fetch
    timeout after 8000ms: " when the request was aborted and with "Failed
    to fetch " otherwise (a status outside 200..299 or a rejected
    request). *)
Theorem fetchDocument_outcomes (url : jsstring) (w : World) :
  (forall (d : document) (w' : World),
      fetchDocument url w = (Ok d, w') ->
      exists r, network w (tick w) url = Ok r /\ ok r = true /\ d = parsed r) /\
  (forall r, network w (tick w) url = Ok r -> ok r = true ->
             fst (fetchDocument url w) = Ok (parsed r)) /\
  (forall (e : error) (w' : World),
      fetchDocument url w = (Throw e, w') ->
      name e = lit "Error" /\
      includes (message e) url = true /\
      (match network w (tick w) url with
       | Throw cause =>
           if str_eqb (name cause) (lit "AbortError")
           then message e = lit "Fetch timeout after 8000ms: " ++ url
           else message e = lit "Failed to fetch " ++ url ++ lit ": " ++ message cause
       | Ok r =>
           ok r = false /\
           message e = lit "Failed to fetch " ++ url ++ lit ": HTTP "
                       ++ number_to_string (status r) ++ lit " " ++ statusText r
       end)).
Proof.
  destruct (network w (tick w) url) as [r|cause] eqn:N.
  - destruct (ok r) eqn:O.
    + rewrite (Handler.fetchDocument_ok url w r N O). split; [|split].
      * intros d w' H. injection H as <- _. exists r. repeat split. exact O.
      * intros r' H _. injection H as <-. reflexivity.
      * intros e w' H. discriminate H.
    + rewrite (Handler.fetchDocument_http_failure url w r N O). split; [|split].
      * intros d w' H. discriminate H.
      * intros r' H O'. injection H as <-. congruence.
      * intros e w' H. injection H as <- _. cbn [name message Error].
        split; [reflexivity|]. split; [apply includes_middle|].
        split; reflexivity.
  - destruct (str_eqb (name cause) (lit "AbortError")) eqn:A.
    + apply str_eqb_eq in A.
      rewrite (Handler.fetchDocument_timeout url w cause N A). split; [|split].
      * intros d w' H. discriminate H.
      * intros r' H. discriminate H.
      * intros e w' H. injection H as <- _. cbn [name message Error].
        split; [reflexivity|]. split; [|reflexivity].
        change (Handler.timeout_message url)
          with (lit "Fetch timeout after 8000ms: " ++ url).
        apply includes_end.
    + rewrite (fetchDocument_rejected url w cause N A). split; [|split].
      * intros d w' H. discriminate H.
      * intros r' H. discriminate H.
      * intros e w' H. injection H as <- _. cbn [name message Error].
        split; [reflexivity|]. split; [|reflexivity].
        exact (includes_middle (lit "Failed to fetch ") url
                 (lit ": " ++ message cause)).
Qed.

End Fetching.

(** ** The schema mapping *)

Module Schema.

Import Assembler.

Lemma coalesce_idem (x d : value) : coalesce (coalesce x d) d = coalesce x d.
Proof.
  unfold coalesce. destruct (nullish x) eqn:E; [|rewrite E; reflexivity].
  destruct (nullish d); reflexivity.
Qed.

Lemma array_or_empty_idem (x : value) :
  array_or_empty (array_or_empty x) = array_or_empty x.
Proof. unfold array_or_empty. destruct (isArray x) eqn:E; [rewrite E|]; reflexivity. Qed.

(** X7. The schema mapping throws on [undefined] and [null] only; on any other
    input it returns, without touching the world beyond reading the clock,
    a record that it maps to itself: mapping twice is mapping once. *)
Theorem mapToSchema_idempotent (raw : value) (w : World) :
  (nullish raw = true -> mapToSchema raw w = (Throw TypeError, w)) /\
  (nullish raw = false ->
   exists out : value,
     mapToSchema raw w = (Ok out, w) /\
     forall w2 : World, mapToSchema out w2 = (Ok out, w2)).
Proof.
  split.
  - intros H. destruct raw; try discriminate H; reflexivity.
  - intros H.
    assert (Hget : forall k, get raw k = Ok (get_opt raw k)).
    { intros k. destruct raw; try discriminate; reflexivity. }
    unfold mapToSchema at 1. unfold bind, lift, ret, now_iso. rewrite !Hget.
    eexists. split.
    + destruct (nullish (get_opt raw "scraped_at")) eqn:S.
      * instantiate (1 := VObj
          [ (lit "id", coalesce (get_opt raw "id") VNull);
            (lit "title", coalesce (get_opt raw "title") VNull);
            (lit "author", coalesce (get_opt raw "author") VNull);
            (lit "service_category", coalesce (get_opt raw "service_category") VNull);
            (lit "cloud_provider", coalesce (get_opt raw "cloud_provider") VNull);
            (lit "service_name", coalesce (get_opt raw "service_name") VNull);
            (lit "inefficiency_type", coalesce (get_opt raw "inefficiency_type") VNull);
            (lit "explanation", coalesce (get_opt raw "explanation") (VStr []));
            (lit "billing_model", coalesce (get_opt raw "billing_model") (VStr []));
            (lit "detection_signals", array_or_empty (get_opt raw "detection_signals"));
            (lit "remediation_actions",
             array_or_empty (get_opt raw "remediation_actions"));
            (lit "documentation_links",
             array_or_empty (get_opt raw "documentation_links"));
            (lit "tags", array_or_empty (get_opt raw "tags"));
            (lit "source",
             VObj [ (lit "url", coalesce (get_opt (get_opt raw "source") "url") VNull);
                    (lit "origin", VStr ORIGIN) ]);
            (lit "scraped_at",
             if nullish (get_opt raw "scraped_at")
             then VStr (clock w (tick w)) else get_opt raw "scraped_at") ]).
        rewrite S. reflexivity.
      * rewrite S. reflexivity.
    + intros w2. unfold mapToSchema, bind, lift, ret, now_iso, get.
      read_props. rewrite !coalesce_idem, !array_or_empty_idem.
      destruct (nullish (get_opt raw "scraped_at")) eqn:S; cbn [nullish];
        [|rewrite S]; reflexivity.
Qed.

End Schema.


(** ** Title and author of a detail page *)

Module Details.

Import JsFacts TextSeq Assembler Paragraph Clean.

(** The title of a page: the trimmed text of the first [h1] when that text
    is not empty, else the first non-empty text of the body. *)
Definition detail_title (d : document) : option jsstring :=
  match first_with_siblings (lit "h1") (documentElement d) with
  | Some (el, _) =>
      if negb (is_empty (textContent el)) then Some (trim (textContent el))
      else first_text (createTreeWalker d)
  | None => first_text (createTreeWalker d)
  end.

(** The author of a page: found among the nodes that follow the first [h1]
    under its parent. *)
Definition detail_author (d : document) : option jsstring :=
  match first_with_siblings (lit "h1") (documentElement d) with
  | Some (_, siblings) => author_loop (detail_title d) siblings
  | None => None
  end.

(** The element the search with siblings finds is the one
    [querySelector] finds. *)
Fixpoint first_with_siblings_querySelector (tag : jsstring) (n : node) {struct n} :
  option_map fst (first_with_siblings tag n) = querySelector tag n.
Proof.
  destruct n as [data|data|name attrs cs]; try reflexivity.
  unfold querySelector, querySelectorAll. cbn [descendants first_with_siblings].
  induction cs as [|c cs IH]; [reflexivity|].
  cbn [flat_map]. rewrite filter_app.
  pose proof (first_with_siblings_querySelector tag c) as Hc.
  unfold querySelector, querySelectorAll in Hc.
  destruct c as [data|data|cname cattrs ccs].
  - cbn [has_tag filter app]. exact IH.
  - cbn [has_tag filter app]. exact IH.
  - cbn [filter]. destruct (has_tag tag (Element cname cattrs ccs)) eqn:T.
    + reflexivity.
    + destruct (first_with_siblings tag (Element cname cattrs ccs)) as [found|].
      * cbn [option_map] in Hc |- *.
        destruct (filter (has_tag tag) (descendants (Element cname cattrs ccs)));
          [discriminate Hc | exact Hc].
      * cbn [option_map] in Hc.
        destruct (filter (has_tag tag) (descendants (Element cname cattrs ccs)));
          [exact IH | discriminate Hc].
Qed.

Lemma first_text_head (w : list text_node) : first_text w = hd_error (texts_of w).
Proof.
  induction w as [|node w IH]; cbn [first_text]; [reflexivity|].
  rewrite texts_of_cons. destruct (is_empty (textValue node)); [exact IH | reflexivity].
Qed.

Lemma author_loop_clean (title : option jsstring) (siblings : list node)
    (a : jsstring) :
  author_loop title siblings = Some a -> clean a /\ ~ In a SECTION_TITLES.
Proof.
  induction siblings as [|n siblings IH]; cbn [author_loop]; [discriminate|].
  destruct n as [data|data|name attrs cs]; [| exact IH |].
  - destruct (is_empty (textValue_of data)) eqn:E; cbn [negb andb]; [exact IH|].
    destruct (arr_includes SECTION_TITLES (textValue_of data)) eqn:S;
      cbn [negb]; [exact IH|].
    intros H; injection H as <-. split; [split|].
    + apply is_empty_false; exact E.
    + apply textValue_trimmed.
    + intros Hin. apply arr_includes_In in Hin. unfold jsstring in *.
      rewrite Hin in S. discriminate S.
  - pose proof (trim_trimmed (textContent (Element name attrs cs))) as T.
    remember (trim (textContent (Element name attrs cs))) as v eqn:Ev. clear Ev.
    destruct (is_empty v) eqn:E; cbn [negb andb]; [exact IH|].
    destruct (negb match title with
                   | Some t => str_eqb v t
                   | None => false
                   end); cbn [andb]; [|exact IH].
    destruct (arr_includes SECTION_TITLES v) eqn:S; cbn [negb]; [exact IH|].
    intros H; injection H as <-. split; [split|].
    + apply is_empty_false; exact E.
    + exact T.
    + intros Hin. apply arr_includes_In in Hin. unfold jsstring in *.
      rewrite Hin in S. discriminate S.
Qed.

(** An element that follows the title and repeats it is never the author. *)
Lemma author_loop_elements (title : jsstring) (siblings : list node) :
  Forall (fun n => match n with Element _ _ _ => True | _ => False end) siblings ->
  author_loop (Some title) siblings <> Some title.
Proof.
  induction 1 as [|n siblings Hn _ IH]; cbn [author_loop]; [discriminate|].
  destruct n as [data|data|name attrs cs]; try contradiction.
  remember (trim (textContent (Element name attrs cs))) as v eqn:Ev. clear Ev.
  destruct (negb (is_empty v)); cbn [andb]; [|exact IH].
  destruct (str_eqb v title) eqn:E; cbn [negb andb]; [exact IH|].
  destruct (negb (arr_includes SECTION_TITLES v)); [|exact IH].
  apply str_eqb_neq in E. intros H; injection H as H. exact (E H).
Qed.

Section DetailProps.

Variable URL_pathname : jsstring -> option jsstring.
Variable URL_resolve : jsstring -> jsstring -> option jsstring.

Local Abbreviation parseInefficiencyDetail :=
  (Scraper.parseInefficiencyDetail URL_pathname URL_resolve).

(** The title and author of a parsed record are those of the fetched page. *)
Lemma parsed_title_author (url : jsstring) (w w1 : World) (record : value) :
  parseInefficiencyDetail url w = (Ok record, w1) ->
  exists document : document,
    fetchDocument url w = (Ok document, w1) /\
    get_opt record "title" = of_option (detail_title document) /\
    get_opt record "author" = of_option (detail_author document).
Proof.
  unfold Scraper.parseInefficiencyDetail. unfold bind at 1.
  destruct (fetchDocument url w) as [[document|e] w'] eqn:F; [|discriminate].
  unfold bind at 1. unfold lift at 1.
  destruct (Scraper.extractDocumentationLinks URL_resolve document)
    as [links|e] eqn:L; [|discriminate].
  unfold bind at 1. unfold now_iso at 1.
  unfold mapToSchema, bind, lift, get, get_opt, ret. cbn [lookup].
  eval_keys. cbv iota. cbn [nullish].
  rewrite !coalesce_of_option, !coalesce_or_empty.
  intros H. injection H as <- <-.
  exists document. split; [reflexivity|].
  split; cbn [lookup]; eval_keys; cbv iota; reflexivity.
Qed.

(** X8. The title of a record is the trimmed text of the page's first [h1] (as
    [querySelector] finds it) when that element has text, else the first
    non-empty trimmed text of the body, [null] if there is none; the author
    is [null] on a page without [h1], and otherwise [null] or a non-empty
    trimmed string that is no section title; when only elements follow the
    [h1] and the title is not [null], the author differs from the title. *)
Theorem title_and_author (url : jsstring) (w w1 : World) (record : value) :
  parseInefficiencyDetail url w = (Ok record, w1) ->
  exists d : document,
    fetchDocument url w = (Ok d, w1) /\
    (match querySelector (lit "h1") (documentElement d) with
     | Some h1 =>
         if is_empty (textContent h1)
         then get_opt record "title" = of_option (hd_error (texts d))
         else get_opt record "title" = VStr (trim (textContent h1))
     | None =>
         get_opt record "title" = of_option (hd_error (texts d)) /\
         get_opt record "author" = VNull
     end) /\
    (get_opt record "author" = VNull \/
     exists a : jsstring,
       get_opt record "author" = VStr a /\ clean a /\ ~ In a SECTION_TITLES) /\
    (forall (h1 : node) (siblings : list node),
        first_with_siblings (lit "h1") (documentElement d) = Some (h1, siblings) ->
        Forall (fun n => match n with Element _ _ _ => True | _ => False end)
          siblings ->
        get_opt record "title" <> VNull ->
        get_opt record "author" <> get_opt record "title").
Proof.
  intros H. destruct (parsed_title_author url w w1 record H) as (d & F & T & A).
  exists d. split; [exact F|]. rewrite T, A. clear T A H F.
  pose proof (first_with_siblings_querySelector (lit "h1") (documentElement d)) as Q.
  unfold detail_author, detail_title. unfold texts. rewrite <- first_text_head.
  destruct (first_with_siblings (lit "h1") (documentElement d))
    as [[h1 siblings]|] eqn:E; cbn [option_map fst] in Q; rewrite <- Q.
  - split; [|split].
    + destruct (is_empty (textContent h1)); reflexivity.
    + match goal with
      | |- context [author_loop ?t siblings] =>
          destruct (author_loop t siblings) as [a|] eqn:Ha
      end; [right|left; reflexivity].
      exists a. split; [reflexivity|]. exact (author_loop_clean _ _ _ Ha).
    + intros h1' siblings' Heq Hall Ht. injection Heq as <- <-.
      match goal with
      | |- of_option (author_loop ?t siblings) <> _ =>
          destruct t as [title|] eqn:Et
      end.
      * intros Heq. apply (author_loop_elements title siblings Hall).
        destruct (author_loop (Some title) siblings); cbn [of_option] in Heq;
          congruence.
      * exfalso. apply Ht. reflexivity.
  - split; [split; reflexivity|]. split; [left; reflexivity|].
    intros h1 siblings Heq. discriminate Heq.
Qed.

End DetailProps.

End Details.

(** ** The [limit] parameter of a batch request *)

Module Quota.

Import JsFacts SortFacts Assembler Discovery Limit.

(** The number a string of decimal digits denotes, read onto [acc]. *)
Fixpoint read_uint (acc : Z) (u : Decimal.uint) : Z :=
  match u with
  | Decimal.Nil => acc
  | Decimal.D0 u => read_uint (10 * acc + 0) u
  | Decimal.D1 u => read_uint (10 * acc + 1) u
  | Decimal.D2 u => read_uint (10 * acc + 2) u
  | Decimal.D3 u => read_uint (10 * acc + 3) u
  | Decimal.D4 u => read_uint (10 * acc + 4) u
  | Decimal.D5 u => read_uint (10 * acc + 5) u
  | Decimal.D6 u => read_uint (10 * acc + 6) u
  | Decimal.D7 u => read_uint (10 * acc + 7) u
  | Decimal.D8 u => read_uint (10 * acc + 8) u
  | Decimal.D9 u => read_uint (10 * acc + 9) u
  end.

Definition digits (u : Decimal.uint) : jsstring := lit (NilEmpty.string_of_uint u).

Lemma lit_cons (c : ascii) (s : string) : lit (String c s) = N_of_ascii c :: lit s.
Proof. reflexivity. Qed.

Lemma parse_digits_uint (u : Decimal.uint) (seen : bool) (acc : Z) :
  parse_digits seen acc (digits u) =
  match u with
  | Decimal.Nil => if seen then Some acc else None
  | _ => Some (read_uint acc u)
  end.
Proof.
  revert seen acc; induction u as [|u IH|u IH|u IH|u IH|u IH|u IH|u IH|u IH|u IH|u IH];
    intros seen acc; [reflexivity|..];
    unfold digits in *; cbn [NilEmpty.string_of_uint]; rewrite lit_cons;
    cbn [parse_digits];
    match goal with
    | |- context [is_digit ?c] =>
        let r := eval vm_compute in (is_digit c) in change (is_digit c) with r;
        let z := eval vm_compute in (Z.of_N (c - 48)) in
        change (Z.of_N (c - 48)) with z
    end; cbv iota; rewrite IH; destruct u; reflexivity.
Qed.

Lemma read_uint_pos (u : Decimal.uint) (p : positive) :
  read_uint (Z.pos p) u = Z.pos (Pos.of_uint_acc u p).
Proof.
  revert p; induction u; intros p; cbn [read_uint Pos.of_uint_acc];
    [reflexivity|..];
    match goal with
    | |- read_uint ?z _ = Z.pos (Pos.of_uint_acc _ ?q) =>
        replace z with (Z.pos q) by lia
    end; apply IHu.
Qed.

Lemma read_uint_zero (u : Decimal.uint) : read_uint 0 u = Z.of_N (Pos.of_uint u).
Proof.
  induction u; cbn [read_uint Pos.of_uint]; [reflexivity | exact IHu |..];
    apply (read_uint_pos u).
Qed.

Lemma to_uint_digit (n : N) :
  exists (c : char) (s : jsstring),
    digits (N.to_uint n) = c :: s /\ is_digit c = true.
Proof.
  pose proof (DecimalN.Unsigned.of_to n) as E.
  destruct (N.to_uint n) eqn:U;
    try (eexists; eexists; split; [reflexivity | vm_compute; reflexivity]).
  cbn in E. subst n. discriminate U.
Qed.

Lemma digit_plain (c : char) :
  is_digit c = true ->
  is_space c = false /\ N.eqb c 45 = false /\ N.eqb c 43 = false.
Proof.
  unfold is_digit. rewrite andb_true_iff, !N.leb_le. intros [L U].
  split; [|split; apply N.eqb_neq; lia].
  destruct (is_space c) eqn:E; [|reflexivity]. unfold is_space in E.
  repeat rewrite ?orb_true_iff, ?andb_true_iff, ?N.leb_le, ?N.eqb_eq in E. lia.
Qed.

(** Reading back the digits a number is written with gives the number. *)
Lemma parseInt_number_to_string (n : N) :
  parseInt (number_to_string n) = Some (Z.of_N n).
Proof.
  unfold number_to_string. fold (digits (N.to_uint n)).
  destruct (to_uint_digit n) as (c & s & E & D).
  destruct (digit_plain c D) as (Sp & Minus & Plus).
  unfold parseInt. rewrite E. cbn [trimStart]. rewrite Sp, Minus, Plus.
  rewrite <- E. rewrite parse_digits_uint.
  assert (V : read_uint 0 (N.to_uint n) = Z.of_N n).
  { rewrite read_uint_zero. f_equal. apply DecimalN.Unsigned.of_to. }
  rewrite V. destruct (N.to_uint n) eqn:U; try reflexivity.
  cbn in E. discriminate E.
Qed.

Section QuotaProps.

Variable URL_pathname : jsstring -> option jsstring.
Variable URL_resolve : jsstring -> jsstring -> option jsstring.
Variable Date_parse : value -> option Z.

Local Abbreviation pages_loop := (Scraper.pages_loop URL_resolve).
Local Abbreviation handler := (Scraper.handler URL_pathname URL_resolve Date_parse).

(** What a batch request processes: the sorted discovery output, cut by the
    limit of the request. *)
Lemma batch_processes_cut (req : request) (w : World) :
  batch_request req ->
  exists (set : list jsstring) (w1 w' : World) (items : list value)
         (errors : option (list error_entry)) (count failed : nat),
    pages_loop MAX_PAGES 1 []
      (logged Info "Starting URL extraction from paginated hub"
         (logged Info "Scraper request started" w)) = (Ok set, w1) /\
    handler req w =
      (Ok (Batch count (List.length (cut (request_limit req) (sort set))) failed
                 (cut (request_limit req) (sort set)) items errors), w') /\
    count + failed = List.length (cut (request_limit req) (sort set)).
Proof.
  intros Hreq.
  destruct (extractInefficiencyUrls_total URL_resolve (request_limit req)
              (logged Info "Scraper request started" w))
    as (set & w1 & w2 & Hloop & Hd).
  destruct (Handler.batch_loop_total URL_pathname URL_resolve Date_parse
              (cut (request_limit req) (sort set)) 0 [] []
              (logged Info "URLs discovered" w2))
    as (results & errors & w3 & Hb & Hlen & _).
  cbn [app] in Hb.
  exists set, w1. eexists. exists results. eexists. exists (List.length results).
  exists (List.length errors).
  split; [exact Hloop|]. split; [|exact Hlen].
  rewrite (handler_batch URL_pathname URL_resolve Date_parse
             req w w2 w3 _ results errors Hreq Hd Hb).
  reflexivity.
Qed.

(** X9. A batch request with [limit=<n>] in decimal digits processes the first
    [n] URLs of the sorted discovery output when [n] is positive, and all
    of them when [n] is zero; with a [limit] that does not start with a
    number, or with a negative one, it processes all of them as well. *)
Theorem limit_parameter (req : request) (w : World) (s : jsstring) :
  batch_request req ->
  limitParam req = Some s ->
  s <> [] ->
  exists (set : list jsstring) (w1 w' : World) (items : list value)
         (errors : option (list error_entry)) (count failed : nat)
         (urls : list jsstring),
    pages_loop MAX_PAGES 1 []
      (logged Info "Starting URL extraction from paginated hub"
         (logged Info "Scraper request started" w)) = (Ok set, w1) /\
    handler req w =
      (Ok (Batch count (List.length urls) failed urls items errors), w') /\
    count + failed = List.length urls /\
    (forall n : N, s = number_to_string n ->
       urls = if N.eqb n 0 then sort set else firstn (N.to_nat n) (sort set)) /\
    (parseInt s = None -> urls = sort set) /\
    (forall z : Z, parseInt s = Some z -> (z <= 0)%Z -> urls = sort set).
Proof.
  intros Hreq Hs Hne.
  destruct (batch_processes_cut req w Hreq)
    as (set & w1 & w' & items & errors & count & failed & Hloop & Hh & Hlen).
  exists set, w1, w', items, errors, count, failed,
    (cut (request_limit req) (sort set)).
  split; [exact Hloop|]. split; [exact Hh|]. split; [exact Hlen|].
  assert (L : request_limit req = parseInt s).
  { unfold request_limit. rewrite Hs. destruct s; [contradiction|reflexivity]. }
  rewrite L. split; [|split].
  - intros n ->. rewrite parseInt_number_to_string. unfold cut, slice_to.
    destruct n as [|p]; [reflexivity|]. cbn [N.eqb Z.of_N Z.ltb Z.compare].
    rewrite <- Z_N_nat. reflexivity.
  - intros ->. reflexivity.
  - intros z -> Hz. unfold cut. apply Z.ltb_ge in Hz. rewrite Hz. reflexivity.
Qed.

End QuotaProps.

End Quota.

(** ** The batch runner *)

Module RunnerFacts.

Import JsFacts Paragraph Clean Quota Runner.

Lemma endsWith_snoc (s : jsstring) (c : char) : endsWith (s ++ [c]) [c] = true.
Proof.
  unfold endsWith. rewrite rev_app_distr.
  change (List.rev [c] ++ List.rev s) with (c :: List.rev s).
  change (List.rev [c]) with [c]. cbn [startsWith].
  rewrite N.eqb_refl. destruct (List.rev s); reflexivity.
Qed.

(** X10. Normalising a prefix twice changes nothing more; the empty prefix stays
    empty, any other prefix ends with a slash afterwards, and is the prefix
    given or that prefix with one slash added. The prefix the script uses
    is never empty and ends with a slash. *)
Theorem normalizePrefix_closed (prefix : jsstring) :
  normalizePrefix (normalizePrefix prefix) = normalizePrefix prefix /\
  (normalizePrefix prefix = [] <-> prefix = []) /\
  (prefix <> [] ->
   endsWith (normalizePrefix prefix) (lit "/") = true /\
   (normalizePrefix prefix = prefix \/ normalizePrefix prefix = prefix ++ lit "/")) /\
  (forall S3_PREFIX : option jsstring,
      PREFIX S3_PREFIX <> [] /\ endsWith (PREFIX S3_PREFIX) (lit "/") = true).
Proof.
  assert (Hne : forall p : jsstring, p <> [] ->
            normalizePrefix p <> [] /\
            endsWith (normalizePrefix p) (lit "/") = true /\
            (normalizePrefix p = p \/ normalizePrefix p = p ++ lit "/")).
  { intros p Hp. unfold normalizePrefix.
    destruct p as [|c p]; [contradiction|]. cbn [is_empty].
    destruct (endsWith (c :: p) (lit "/")) eqn:E.
    - split; [discriminate|]. split; [exact E|]. left; reflexivity.
    - split; [discriminate|]. split; [|right; reflexivity].
      apply (endsWith_snoc (c :: p)). }
  split; [|split; [|split]].
  - destruct prefix as [|c p]; [reflexivity|].
    destruct (Hne (c :: p)) as (Hn & He & _); [discriminate|].
    unfold normalizePrefix at 1.
    destruct (normalizePrefix (c :: p)) as [|c' p'] eqn:N; [contradiction|].
    cbn [is_empty]. rewrite He. reflexivity.
  - split.
    + intros H. destruct prefix as [|c p]; [reflexivity|].
      destruct (Hne (c :: p)) as (Hn & _); [discriminate|]. contradiction.
    + intros ->. reflexivity.
  - intros Hp. destruct (Hne prefix Hp) as (_ & He & Hor). split; assumption.
  - intros env. unfold PREFIX.
    assert (Hd : env_or env DEFAULT_PREFIX <> []).
    { destruct env as [[|c s]|]; discriminate. }
    destruct (Hne _ Hd) as (Hn & He & _). split; assumption.
Qed.

(** *** The limit of the command line *)

Lemma digits_all (u : Decimal.uint) : Forall (fun c => is_digit c = true) (digits u).
Proof.
  unfold digits. induction u; cbn [NilEmpty.string_of_uint];
    [constructor | rewrite lit_cons; constructor; [vm_compute; reflexivity | exact IHu]..].
Qed.

Lemma number_to_string_digits (n : N) :
  Forall (fun c => is_digit c = true) (number_to_string n).
Proof. apply digits_all. Qed.

Lemma number_to_string_nonempty (n : N) : number_to_string n <> [].
Proof.
  unfold number_to_string. fold (digits (N.to_uint n)).
  destruct (to_uint_digit n) as (c & s & E & _). rewrite E. discriminate.
Qed.

Lemma split_at_without (sep : char) (s : jsstring) :
  Forall (fun c => N.eqb c sep = false) s -> split_at sep s = [s].
Proof.
  induction 1 as [|c s Hc _ IH]; [reflexivity|].
  cbn [split_at]. rewrite Hc, IH. reflexivity.
Qed.

Lemma split_at_first (sep : char) (a s : jsstring) :
  Forall (fun c => N.eqb c sep = false) a ->
  split_at sep (a ++ sep :: s) = a :: split_at sep s.
Proof.
  induction 1 as [|c a Hc _ IH]; cbn [List.app split_at].
  - rewrite N.eqb_refl. reflexivity.
  - rewrite Hc, IH. reflexivity.
Qed.

Lemma find_skips (p : jsstring -> bool) (before : list jsstring) (l : list jsstring) :
  Forall (fun a => p a = false) before -> find p (before ++ l) = find p l.
Proof.
  induction 1 as [|a before Ha _ IH]; [reflexivity|].
  cbn [List.app find]. rewrite Ha. exact IH.
Qed.

Lemma is_digit_not_equals (c : char) : is_digit c = true -> N.eqb c 61%N = false.
Proof.
  unfold is_digit. rewrite andb_true_iff, !N.leb_le. intros [L U].
  apply N.eqb_neq. lia.
Qed.

Lemma parseLimit_of_digits (before after : list jsstring) (n : N) :
  Forall (fun a => startsWith a (lit "--limit=") = false) before ->
  parseLimitFromArgs (before ++ (lit "--limit=" ++ number_to_string n) :: after)
  = if N.eqb n 0 then None else Some (Z.of_N n).
Proof.
  intros Hb. unfold parseLimitFromArgs. rewrite (find_skips _ before _ Hb).
  cbn [find]. rewrite Fetching.startsWith_app.
  assert (S : split_at 61%N (lit "--limit=" ++ number_to_string n)
              = [lit "--limit"; number_to_string n]).
  { change (lit "--limit=" ++ number_to_string n)
      with (lit "--limit" ++ 61%N :: number_to_string n).
    rewrite split_at_first by (repeat constructor).
    rewrite split_at_without; [reflexivity|].
    eapply Forall_impl; [|apply number_to_string_digits].
    intros c. apply is_digit_not_equals. }
  rewrite S. cbn [nth_error]. rewrite parseInt_number_to_string.
  destruct n as [|p]; reflexivity.
Qed.

(** Numbers are whole numbers here, which is how JavaScript reads and
    writes them below 2^53. *)
Definition exact_number (n : Z) : Prop := (n < 2 ^ 53)%Z.

(** X11. For limits below 2^53, which JavaScript reads and writes exactly:
    the limit read from the command line is absent or positive; the first
    argument [--limit=<n>] in decimal digits gives [n] when it is positive
    and no limit when it is zero. When the handler reads back the limit the
    script writes into the query, it works with that positive limit, and
    with its default of five when the script writes none: through the
    script, with such a limit, no request asks for all the URLs. *)
Theorem runner_limit_positive (argv : list jsstring) :
  (forall n : Z, parseLimitFromArgs argv = Some n -> exact_number n -> (0 < n)%Z) /\
  (forall (before after : list jsstring) (n : N),
      exact_number (Z.of_N n) ->
      argv = before ++ (lit "--limit=" ++ number_to_string n) :: after ->
      Forall (fun a => startsWith a (lit "--limit=") = false) before ->
      parseLimitFromArgs argv = if N.eqb n 0 then None else Some (Z.of_N n)) /\
  (forall req : request,
      (forall n : Z, parseLimitFromArgs argv = Some n -> exact_number n) ->
      limitParam req =
        option_map (fun n => number_to_string (Z.to_N n)) (parseLimitFromArgs argv) ->
      exists n : Z,
        request_limit req = Some n /\ (0 < n)%Z /\ exact_number n /\
        (parseLimitFromArgs argv = Some n \/
         parseLimitFromArgs argv = None /\ n = 5%Z)) /\
  (forall api : jsstring,
      request_url api (parseLimitFromArgs argv) =
      match option_map (fun n => number_to_string (Z.to_N n))
                       (parseLimitFromArgs argv) with
      | Some digits => api ++ lit "?limit=" ++ digits
      | None => api
      end).
Proof.
  assert (P : forall n : Z, parseLimitFromArgs argv = Some n -> (0 < n)%Z).
  { intros n. unfold parseLimitFromArgs.
    destruct (find _ argv) as [arg|]; [|discriminate].
    destruct (nth_error _ 1) as [value|]; [|discriminate].
    destruct (parseInt value) as [m|]; [|discriminate].
    destruct (Z.leb m 0) eqn:E; [discriminate|].
    intros H; injection H as <-. apply Z.leb_gt in E. exact E. }
  split; [intros n H _; exact (P n H)|]. split; [|split].
  - intros before after n _ -> Hb. apply parseLimit_of_digits. exact Hb.
  - intros req Hexact Hreq. unfold request_limit. rewrite Hreq.
    destruct (parseLimitFromArgs argv) as [n|] eqn:E; cbn [option_map].
    + exists n. pose proof (P n eq_refl) as Hn.
      destruct (number_to_string (Z.to_N n)) eqn:D;
        [exact (False_ind _ (number_to_string_nonempty _ D))|].
      cbn [is_empty]. rewrite <- D. rewrite parseInt_number_to_string.
      rewrite Z2N.id by lia. split; [reflexivity|]. split; [exact Hn|].
      split; [exact (Hexact n eq_refl)|]. left; reflexivity.
    + exists 5%Z. split; [reflexivity|]. split; [lia|].
      split; [unfold exact_number; lia|]. right. split; reflexivity.
  - intros api. destruct (parseLimitFromArgs argv); reflexivity.
Qed.

(** *** Object keys *)

(** The name of an item without a usable id. *)
Definition fallback (index : nat) : jsstring :=
  lit "item-" ++ number_to_string (N.of_nat index).

Lemma last_app_right (a b : jsstring) (d : char) :
  b <> [] -> last (a ++ b) d = last b d.
Proof.
  intros Hb. induction a as [|x a IH]; [reflexivity|].
  cbn [List.app]. destruct (a ++ b) eqn:E; [|exact IH].
  destruct a; [contradiction | discriminate].
Qed.

Lemma last_Forall (P : char -> Prop) (l : jsstring) (d : char) :
  l <> [] -> Forall P l -> P (last l d).
Proof.
  intros Hl H. induction H as [|x l Hx Hrest IH]; [contradiction|].
  destruct l as [|y l]; [exact Hx|]. apply IH. discriminate.
Qed.

Lemma fallback_clean (index : nat) : clean (fallback index).
Proof.
  unfold fallback. split; [discriminate|]. split; [vm_compute; reflexivity|].
  rewrite last_app_right by apply number_to_string_nonempty.
  apply (last_Forall (fun c => is_space c = false));
    [apply number_to_string_nonempty|].
  eapply Forall_impl; [|apply number_to_string_digits].
  intros c Hc. apply (digit_plain c Hc).
Qed.

Lemma number_to_string_inj (m n : N) :
  number_to_string m = number_to_string n -> m = n.
Proof.
  intros E. pose proof (parseInt_number_to_string m) as Hm.
  rewrite E, parseInt_number_to_string in Hm. injection Hm as Hm. lia.
Qed.

(** [String(v)] fails with a [TypeError] only. *)
Fixpoint to_String_TypeError (v : value) (e : error) {struct v} :
  to_String v = Throw e -> e = TypeError.
Proof.
  destruct v as [| |b|n|s|items|props]; cbn [to_String]; try discriminate.
  - induction items as [|x items IH]; [discriminate|].
    pose proof (to_String_TypeError x e) as Hx.
    destruct (nullish x); cbn [rbind].
    + destruct items as [|y items]; [discriminate|].
      destruct ((fix join (l : list value) : result jsstring :=
                   match l with
                   | [] => Ok []
                   | x0 :: l' =>
                       s <~ (if nullish x0 then Ok [] else to_String x0) ;;
                       match l' with
                       | [] => Ok s
                       | _ :: _ => r <~ join l' ;; Ok (s ++ lit "," ++ r)
                       end
                   end) (y :: items)) eqn:J; cbn [rbind]; [discriminate|].
      intros H; injection H as <-. apply IH. reflexivity.
    + destruct (to_String x) as [s|e'] eqn:Sx; cbn [rbind].
      * destruct items as [|y items]; [discriminate|].
        destruct ((fix join (l : list value) : result jsstring :=
                     match l with
                     | [] => Ok []
                     | x0 :: l' =>
                         s <~ (if nullish x0 then Ok [] else to_String x0) ;;
                         match l' with
                         | [] => Ok s
                         | _ :: _ => r <~ join l' ;; Ok (s ++ lit "," ++ r)
                         end
                     end) (y :: items)) eqn:J; cbn [rbind]; [discriminate|].
        intros H; injection H as <-. apply IH. reflexivity.
      * intros H; injection H as <-. apply Hx. reflexivity.
  - destruct (existsb _ props); [|discriminate].
    intros H; injection H as <-. reflexivity.
Qed.

Lemma idPart_of_string (item : value) (index : nat) (s : jsstring) :
  get_opt item "id" = VStr s ->
  idPart item index = Ok (if is_empty (trim s) then fallback index else trim s).
Proof.
  intros Hs. unfold idPart.
  destruct item as [| |b|n|s0|items|props]; try discriminate Hs.
  cbn [get rbind]. cbn [get_opt] in Hs. rewrite Hs.
  cbn [truthy to_String]. destruct s as [|c s]; [reflexivity|].
  cbn [is_empty negb rbind andb].
  destruct (is_empty (trim (c :: s))); reflexivity.
Qed.

Lemma idPart_cases (item : value) (index : nat) :
  match idPart item index with
  | Ok part =>
      clean part /\
      (part = fallback index \/
       exists s, get_opt item "id" = VStr s /\ part = trim s)
  | Throw e =>
      e = TypeError /\
      (nullish item = true \/
       truthy (get_opt item "id") = true /\ is_string (get_opt item "id") = false)
  end.
Proof.
  unfold idPart.
  destruct item as [| |b|n|s|items|props]; cbn [get rbind];
    try (split; [reflexivity | left; reflexivity]);
    try (cbn [truthy andb rbind]; split; [apply fallback_clean | left; reflexivity]).
  cbn [get_opt]. destruct (lookup props (lit "id")) as [| |b|n|s|items|ps] eqn:L;
    cbn [truthy andb rbind];
    try (split; [apply fallback_clean | left; reflexivity]).
  + (* boolean *)
    destruct b; cbn [to_String rbind andb];
      [|split; [apply fallback_clean | left; reflexivity]].
    change (is_empty (trim (lit "true"))) with false. cbn [negb].
    split; [reflexivity|]. right. split; reflexivity.
  + (* number *)
    destruct (negb (n =? 0)%Z) eqn:Z; cbn [andb rbind];
      [|split; [apply fallback_clean | left; reflexivity]].
    cbn [to_String rbind].
    match goal with
    | |- context [is_empty (trim ?t)] => destruct (is_empty (trim t))
    end; cbn [negb].
    * split; [apply fallback_clean | left; reflexivity].
    * split; [reflexivity|]. right. split; reflexivity.
  + (* string *)
    destruct (negb (is_empty s)) eqn:E; cbn [andb rbind to_String];
      [|split; [apply fallback_clean | left; reflexivity]].
    destruct (is_empty (trim s)) eqn:T; cbn [negb].
    * split; [apply fallback_clean | left; reflexivity].
    * split; [|right; exists s; split; reflexivity].
      split; [apply is_empty_false; exact T | apply trim_trimmed].
  + (* array *)
    destruct (to_String (VArr items)) as [text|e] eqn:S; cbn [rbind].
    * destruct (is_empty (trim text)); cbn [negb andb].
      -- split; [apply fallback_clean | left; reflexivity].
      -- split; [reflexivity|]. right. split; reflexivity.
    * split; [exact (to_String_TypeError _ _ S)|]. right. split; reflexivity.
  + (* object *)
    destruct (to_String (VObj ps)) as [text|e] eqn:S; cbn [rbind].
    * destruct (is_empty (trim text)); cbn [negb andb].
      -- split; [apply fallback_clean | left; reflexivity].
      -- split; [reflexivity|]. right. split; reflexivity.
    * split; [exact (to_String_TypeError _ _ S)|]. right. split; reflexivity.
Qed.

(** X12. The part of a key that names an item is never empty and has no white
    space at its ends: it is the trimmed id when the id is a string with
    more than white space in it, and [item-<index>] when the id is missing,
    falsy or blank; making it fails, with a [TypeError], only for an item
    that is [null] or [undefined] or whose id is a truthy value that is no
    string. Items at different indices get different fallback names. *)
Theorem idPart_named (item : value) (index : nat) :
  match idPart item index with
  | Ok part =>
      clean part /\
      (part = fallback index \/
       exists s, get_opt item "id" = VStr s /\ part = trim s)
  | Throw e =>
      e = TypeError /\
      (nullish item = true \/
       truthy (get_opt item "id") = true /\ is_string (get_opt item "id") = false)
  end /\
  (forall s, get_opt item "id" = VStr s ->
     idPart item index = Ok (if is_empty (trim s) then fallback index else trim s)) /\
  (forall j : nat, fallback index = fallback j -> index = j).
Proof.
  split; [exact (idPart_cases item index)|split].
  - exact (idPart_of_string item index).
  - intros j E. unfold fallback in E. apply app_inv_head in E.
    apply number_to_string_inj in E. lia.
Qed.

(** X13. The timestamp of the keys is the ISO string of the clock with a dash
    for every colon and full stop: it has the length of the ISO string and
    holds neither a colon nor a full stop; reading it leaves the world as
    it was. *)
Theorem timestampSlug_dashed (w : World) :
  timestampSlug w = (Ok (dashed (clock w (tick w))), w) /\
  (forall iso : jsstring,
      List.length (dashed iso) = List.length iso /\
      Forall (fun c => c <> 58%N /\ c <> 46%N) (dashed iso) /\
      dashed (dashed iso) = dashed iso).
Proof.
  split; [reflexivity|]. intros iso. unfold dashed. split; [apply length_map|].
  split.
  - apply Forall_forall. intros c Hc. apply in_map_iff in Hc.
    destruct Hc as (x & <- & _).
    destruct (N.eqb x 58) eqn:A; cbn [orb]; [split; discriminate|].
    destruct (N.eqb x 46) eqn:B; [split; discriminate|].
    apply N.eqb_neq in A, B. split; assumption.
  - rewrite map_map. apply map_ext. intros x.
    destruct (N.eqb x 58) eqn:A; cbn [orb]; [reflexivity|].
    destruct (N.eqb x 46) eqn:B; [reflexivity|]. rewrite A, B. reflexivity.
Qed.

(** *** The uploads *)

(** An item with a string as id, as every record of the scraper has. *)
Definition has_id (item : value) : Prop := is_string (get_opt item "id") = true.

Lemma idPart_has_id (item : value) (index : nat) :
  has_id item -> exists part, idPart item index = Ok part.
Proof.
  unfold has_id. intros H. destruct (get_opt item "id") as [| |b|n|s|items|props] eqn:G;
    try discriminate H.
  eexists. apply (idPart_of_string item index s G).
Qed.

(** The name in the key of an item with a string as id, at place
    [index]: the trimmed id, or [item-<index>] when that is empty. *)
Definition name_of (item : value) (index : nat) : jsstring :=
  match get_opt item "id" with
  | VStr s => if is_empty (trim s) then fallback index else trim s
  | _ => fallback index
  end.

Lemma idPart_name_of (item : value) (index : nat) :
  has_id item -> idPart item index = Ok (name_of item index).
Proof.
  unfold has_id, name_of. intros H.
  destruct (get_opt item "id") as [| |b|n|s|items|props] eqn:G; try discriminate H.
  exact (idPart_of_string item index s G).
Qed.

(** The items with their places, the first at place [from]. *)
Fixpoint numbered (from : nat) (items : list value) : list (nat * value) :=
  match items with
  | [] => []
  | item :: items' => (from, item) :: numbered (S from) items'
  end.

(** The key of the item at a place. *)
Definition key_at (prefix ts : jsstring) (p : nat * value) : jsstring :=
  itemKey prefix (name_of (snd p) (fst p)) ts.

(** The store takes the item at a place: the upload of the item at place
    [i] is call number [before + i] of the store. *)
Definition taken (put : nat -> jsstring -> option error) (before : nat)
    (prefix ts : jsstring) (p : nat * value) : bool :=
  match put (before + fst p) (key_at prefix ts p) with
  | None => true
  | Some _ => false
  end.

Definition refused (put : nat -> jsstring -> option error) (before : nat)
    (prefix ts : jsstring) (p : nat * value) : bool :=
  negb (taken put before prefix ts p).

Lemma numbered_places (items : list value) (from : nat) :
  map fst (numbered from items) = seq from (List.length items) /\
  map snd (numbered from items) = items.
Proof.
  revert from; induction items as [|item items IH]; intros from;
    [split; reflexivity|].
  cbn [numbered map fst snd List.length seq]. destruct (IH (S from)) as [-> ->].
  split; reflexivity.
Qed.

Lemma numbered_length (items : list value) (from : nat) :
  List.length (numbered from items) = List.length items.
Proof.
  revert from; induction items as [|item items IH]; intros from; [reflexivity|].
  cbn [numbered List.length]. rewrite IH. reflexivity.
Qed.

Lemma taken_or_refused (put : nat -> jsstring -> option error) (before : nat)
    (prefix ts : jsstring) (l : list (nat * value)) :
  List.length (filter (taken put before prefix ts) l)
  + List.length (filter (refused put before prefix ts) l) = List.length l.
Proof.
  induction l as [|p l IH]; [reflexivity|]. cbn [filter]. unfold refused at 1.
  destruct (taken put before prefix ts p); cbn [negb List.length]; lia.
Qed.

Lemma uploadToS3_calls (key : jsstring) (body : value) (b : Bucket) :
  calls (snd (uploadToS3 key body b)) = S (calls b) /\
  putObject (snd (uploadToS3 key body b)) = putObject b /\
  match fst (uploadToS3 key body b) with
  | Ok _ => objects (snd (uploadToS3 key body b)) = objects b ++ [(key, body)]
  | Throw _ => objects (snd (uploadToS3 key body b)) = objects b
  end.
Proof.
  unfold uploadToS3. destruct (putObject b (calls b) key); repeat split.
Qed.

(** The loop over items with string ids ends. The item at place [i] is
    offered to the store once, under the key of its own name at that
    place; it is stored and counted as uploaded when the store takes it,
    and counted as failed when the store refuses it; the loop goes on in
    both cases. *)
Lemma upload_loop_stores (prefix ts : jsstring) (items : list value) :
  Forall has_id items ->
  forall (index uploadedCount failedCount before : nat) (b : Bucket),
  calls b = before + S index ->
  exists b' : Bucket,
    upload_loop prefix ts items index uploadedCount failedCount b =
      (Ok (uploadedCount
           + List.length (filter (taken (putObject b) before prefix ts)
                            (numbered (S index) items)),
           failedCount
           + List.length (filter (refused (putObject b) before prefix ts)
                            (numbered (S index) items))), b') /\
    calls b' = calls b + List.length items /\
    putObject b' = putObject b /\
    objects b' =
      objects b ++ map (fun p => (key_at prefix ts p, snd p))
                       (filter (taken (putObject b) before prefix ts)
                          (numbered (S index) items)).
Proof.
  induction 1 as [|item items Hid _ IH]; intros index u f before b Hcalls.
  - exists b. cbn [upload_loop numbered filter map List.length].
    rewrite app_nil_r, !Nat.add_0_r. repeat split.
  - cbn [upload_loop numbered filter]. cbv zeta.
    rewrite (idPart_name_of item (S index) Hid).
    assert (T : taken (putObject b) before prefix ts (S index, item) =
                match putObject b (calls b)
                        (itemKey prefix (name_of item (S index)) ts) with
                | None => true
                | Some _ => false
                end).
    { unfold taken, key_at. cbn [fst snd]. rewrite Hcalls. reflexivity. }
    change (refused (putObject b) before prefix ts (S index, item))
      with (negb (taken (putObject b) before prefix ts (S index, item))).
    rewrite T. clear T. unfold uploadToS3.
    destruct (putObject b (calls b) (itemKey prefix (name_of item (S index)) ts))
      as [e|] eqn:P; cbn [negb].
    + match goal with
      | |- context [upload_loop prefix ts items (S index) u (S f) ?b1] =>
          assert (C : calls b1 = before + S (S index)) by (cbn [calls]; lia);
          destruct (IH (S index) u (S f) before b1 C) as (b' & E & Hc & Hp & Ho)
      end.
      cbn [calls putObject objects] in E, Hc, Hp, Ho.
      exists b'. rewrite E. cbn [List.length map].
      split; [f_equal; f_equal; f_equal; lia|].
      split; [lia|]. split; [exact Hp | exact Ho].
    + match goal with
      | |- context [upload_loop prefix ts items (S index) (S u) f ?b1] =>
          assert (C : calls b1 = before + S (S index)) by (cbn [calls]; lia);
          destruct (IH (S index) (S u) f before b1 C) as (b' & E & Hc & Hp & Ho)
      end.
      cbn [calls putObject objects] in E, Hc, Hp, Ho.
      exists b'. rewrite E. cbn [List.length map].
      split; [f_equal; f_equal; f_equal; lia|].
      split; [lia|]. split; [exact Hp|].
      rewrite Ho, <- app_assoc. reflexivity.
Qed.

Section MainRun.

Variable fetchFn : jsstring -> result api_response.
Variables SCRAPER_API_URL prefix : jsstring.

Local Abbreviation fetchScrapedData :=
  (Runner.fetchScrapedData fetchFn SCRAPER_API_URL).
Local Abbreviation main := (Runner.main fetchFn SCRAPER_API_URL prefix).

(** What [fetchScrapedData] returns came with a 2xx status and has an array
    of items; any other answer is an error. *)
Lemma fetchScrapedData_items (limit : option Z) (data : value) :
  fetchScrapedData limit = Ok data ->
  exists (resp : api_response) (items : list value),
    fetchFn (request_url SCRAPER_API_URL limit) = Ok resp /\
    api_ok resp = true /\ api_json resp = Ok data /\
    get_opt data "items" = VArr items.
Proof.
  unfold Runner.fetchScrapedData.
  destruct (fetchFn (request_url SCRAPER_API_URL limit)) as [resp|e] eqn:R;
    cbn [rbind]; [|discriminate].
  destruct (api_ok resp) eqn:O; cbn [negb]; [|discriminate].
  destruct (api_json resp) as [d|e] eqn:J; cbn [rbind]; [|discriminate].
  destruct (truthy d); cbn [negb orb]; [|discriminate].
  destruct (get_opt d "items") as [| |b|n|s|items|props] eqn:G; cbn [isArray negb];
    try discriminate.
  intros H; injection H as <-. exists resp, items. repeat split; assumption.
Qed.


End MainRun.

End RunnerFacts.

(** ** The earlier variant *)

Module LegacyFacts.

Import JsFacts SortFacts Assembler Paragraph Clean Legacy.

Lemma trim_clean (s : jsstring) : is_empty (trim s) = false -> clean (trim s).
Proof. intros H. split; [apply is_empty_false; exact H | apply trim_trimmed]. Qed.

Lemma list_items_clean (items : list node) : Forall clean (list_items items).
Proof.
  induction items as [|i items IH]; cbn [list_items]; [constructor|].
  destruct (is_empty (trim (textContent i))) eqn:E; [exact IH|].
  constructor; [apply trim_clean; exact E | exact IH].
Qed.

(** *** Headings *)

(** The search with siblings finds the first of the elements below [n], in
    document order, that satisfies [p]. *)
Fixpoint find_with_siblings_first (p : node -> bool) (n : node) {struct n} :
  option_map fst (find_with_siblings p n) = hd_error (filter p (descendants n)).
Proof.
  destruct n as [data|data|name attrs cs]; try reflexivity.
  cbn [descendants find_with_siblings].
  induction cs as [|c cs IH]; [reflexivity|].
  cbn [flat_map]. rewrite filter_app.
  pose proof (find_with_siblings_first p c) as Hc.
  destruct c as [data|data|cname cattrs ccs].
  - cbn [is_element andb filter List.app]. exact IH.
  - cbn [is_element andb filter List.app]. exact IH.
  - cbn [filter is_element andb]. destruct (p (Element cname cattrs ccs)) eqn:T.
    + reflexivity.
    + destruct (find_with_siblings p (Element cname cattrs ccs)) as [found|].
      * cbn [option_map] in Hc |- *.
        destruct (filter p (descendants (Element cname cattrs ccs)));
          [discriminate Hc | exact Hc].
      * cbn [option_map] in Hc.
        destruct (filter p (descendants (Element cname cattrs ccs)));
          [exact IH | discriminate Hc].
Qed.

Lemma filter_both (p q : node -> bool) (l : list node) :
  filter (fun n => q n && p n) l = filter p (filter q l).
Proof.
  induction l as [|n l IH]; [reflexivity|]. cbn [filter].
  destruct (q n); cbn [andb filter]; [destruct (p n)|]; rewrite IH; reflexivity.
Qed.

(** *** Sections *)

Lemma paragraphs_loop_clean (following : list node) (texts : list jsstring) :
  Forall clean texts -> Forall clean (paragraphs_loop following texts).
Proof.
  revert texts; induction following as [|n following IH]; intros texts H;
    cbn [paragraphs_loop]; [exact H|].
  destruct n as [data|data|name attrs cs]; try (apply IH; exact H).
  destruct (arr_includes HEADINGS name); [exact H|].
  destruct (str_eqb name (lit "p")); [|apply IH; exact H].
  apply IH. destruct (is_empty (trim (textContent (Element name attrs cs)))) eqn:E;
    [exact H|].
  apply Forall_app. split; [exact H|]. constructor; [|constructor].
  apply trim_clean. exact E.
Qed.

Lemma lists_loop_clean (following : list node) : Forall clean (lists_loop following).
Proof.
  induction following as [|n following IH]; cbn [lists_loop]; [constructor|].
  destruct n as [data|data|name attrs cs]; try exact IH.
  destruct (arr_includes HEADINGS name); [constructor|].
  destruct (str_eqb name (lit "ul") || str_eqb name (lit "ol")); [|exact IH].
  pose proof (list_items_clean (querySelectorAll (lit "li") (Element name attrs cs))) as H.
  destruct (list_items (querySelectorAll (lit "li") (Element name attrs cs)));
    [exact IH | exact H].
Qed.

(** What stops the walk over the following elements: a heading. *)
Definition heading_element (n : node) : bool := tag_among HEADINGS n.

(** The elements that follow, up to the next heading. *)
Fixpoint section_elements (following : list node) : list node :=
  match following with
  | [] => []
  | n :: rest =>
      if is_element n
      then if heading_element n then [] else n :: section_elements rest
      else section_elements rest
  end.

(** *** Links *)

(** The [href] of an anchor that has one that is not empty. *)
Definition href_of (a : node) : option jsstring :=
  match a with
  | Element _ attrs _ =>
      match getAttribute attrs (lit "href") with
      | Some ((_ :: _) as href) => Some href
      | _ => None
      end
  | _ => None
  end.

(** The anchors the collector makes an entry for. *)
Definition linked (anchors : list node) : list node :=
  filter (fun a => match href_of a with Some _ => true | None => false end) anchors.

Section LegacyProps.

Variable URL_pathname : jsstring -> option jsstring.
Variable URL_hostname : jsstring -> option jsstring.
Variable URL_resolve : jsstring -> jsstring -> option jsstring.
Variable toLowerCase : jsstring -> jsstring.

Local Abbreviation slugFromUrl := (Legacy.slugFromUrl URL_pathname URL_hostname).
Local Abbreviation anchors_loop := (Legacy.anchors_loop URL_resolve).
Local Abbreviation links_loop := (Legacy.links_loop URL_resolve).
Local Abbreviation extractDocumentationLinks :=
  (Legacy.extractDocumentationLinks URL_resolve toLowerCase).
Local Abbreviation extractSectionParagraph :=
  (Legacy.extractSectionParagraph toLowerCase).
Local Abbreviation extractSectionList := (Legacy.extractSectionList toLowerCase).
Local Abbreviation find_heading := (Legacy.find_heading toLowerCase).

(** The entry of an anchor: its URL is what the resolver makes of its
    [href] against the base. *)
Definition entry_for (a : node) (l : link) : Prop :=
  link_title l = anchor_title a /\
  exists href, href_of a = Some href /\
               URL_resolve href BASE_URL = Some (link_url l).

Lemma anchors_loop_entries (anchors : list node) (links links' : list link) :
  anchors_loop anchors links = Ok links' ->
  exists added, links' = links ++ added /\ Forall2 entry_for (linked anchors) added.
Proof.
  revert links; induction anchors as [|a anchors IH]; intros links;
    cbn [Legacy.anchors_loop].
  - intros H; injection H as <-. exists []. rewrite app_nil_r.
    split; [reflexivity | constructor].
  - unfold linked. cbn [filter]. fold (linked anchors).
    destruct a as [data|data|name attrs cs]; cbn [href_of]; try apply IH.
    destruct (getAttribute attrs (lit "href")) as [[|c href]|] eqn:G;
      cbn [is_empty]; try apply IH.
    destruct (URL_resolve (c :: href) BASE_URL) as [full|] eqn:R; [|discriminate].
    intros H. destruct (IH _ H) as (added & E & Hall).
    exists ({| link_title := anchor_title (Element name attrs cs);
               link_url := full |} :: added).
    split; [rewrite E, <- app_assoc; reflexivity|].
    constructor; [|exact Hall].
    split; [reflexivity|]. exists (c :: href). cbn [href_of link_url]. rewrite G.
    split; [reflexivity | exact R].
Qed.

Lemma links_loop_entries (following : list node) (links links' : list link) :
  links_loop following links = Ok links' ->
  exists added,
    links' = links ++ added /\
    Forall2 entry_for
      (linked (flat_map querySelectorAll_a_href (section_elements following))) added.
Proof.
  revert links; induction following as [|n following IH]; intros links;
    cbn [Legacy.links_loop section_elements].
  - intros H; injection H as <-. exists []. rewrite app_nil_r.
    split; [reflexivity | constructor].
  - destruct n as [data|data|name attrs cs]; cbn [is_element]; try apply IH.
    unfold heading_element. cbn [tag_among].
    destruct (arr_includes HEADINGS name).
    + intros H; injection H as <-. exists []. rewrite app_nil_r.
      split; [reflexivity | constructor].
    + destruct (anchors_loop (querySelectorAll_a_href (Element name attrs cs)) links)
        as [links1|e] eqn:A; cbn [rbind]; [|discriminate].
      intros H. destruct (anchors_loop_entries _ _ _ A) as (added1 & E1 & H1).
      destruct (IH _ H) as (added2 & E2 & H2).
      exists (added1 ++ added2). split; [rewrite E2, E1, app_assoc; reflexivity|].
      cbn [flat_map]. unfold linked. rewrite filter_app.
      apply Forall2_app; assumption.
Qed.

(** X16. The heading a section is read from is the first, in document order, of
    the heading and bold elements of the whole document whose lower-cased
    text holds the needle; the walks over what follows a heading read the
    elements only, and none from the next heading element on. *)
Theorem legacy_heading_first (d : document) (needle : jsstring) :
  option_map fst (find_heading d needle) =
  hd_error
    (filter (fun h => includes (toLowerCase (textContent h)) needle)
       (filter (tag_among HEADINGS_AND_BOLD) (descendants (documentElement d)))) /\
  (forall following : list node,
      Forall (fun n => is_element n = true /\ heading_element n = false)
        (section_elements following) /\
      (forall links, links_loop following links =
                     links_loop (section_elements following) links) /\
      (forall texts, paragraphs_loop following texts =
                     paragraphs_loop (section_elements following) texts) /\
      lists_loop following = lists_loop (section_elements following)).
Proof.
  split.
  - unfold Legacy.find_heading. rewrite find_with_siblings_first.
    rewrite filter_both. reflexivity.
  - intros following. split; [|split; [|split]].
    + induction following as [|n following IH]; cbn [section_elements];
        [constructor|].
      destruct (is_element n) eqn:E; [|exact IH].
      destruct (heading_element n) eqn:S; [constructor|].
      constructor; [split; assumption | exact IH].
    + induction following as [|n following IH]; intros links; [reflexivity|].
      destruct n as [data|data|name attrs cs];
        cbn [Legacy.links_loop section_elements is_element]; try apply IH.
      unfold heading_element. cbn [tag_among].
      destruct (arr_includes HEADINGS name) eqn:S; [reflexivity|].
      cbn [Legacy.links_loop]. rewrite S.
      destruct (anchors_loop (querySelectorAll_a_href (Element name attrs cs)) links);
        cbn [rbind]; [apply IH | reflexivity].
    + induction following as [|n following IH]; intros texts; [reflexivity|].
      destruct n as [data|data|name attrs cs];
        cbn [paragraphs_loop section_elements is_element]; try apply IH.
      unfold heading_element. cbn [tag_among].
      destruct (arr_includes HEADINGS name) eqn:S; [reflexivity|].
      cbn [paragraphs_loop]. rewrite S.
      destruct (str_eqb name (lit "p")); apply IH.
    + induction following as [|n following IH]; [reflexivity|].
      destruct n as [data|data|name attrs cs];
        cbn [lists_loop section_elements is_element]; try exact IH.
      unfold heading_element. cbn [tag_among].
      destruct (arr_includes HEADINGS name) eqn:S; [reflexivity|].
      cbn [lists_loop]. rewrite S.
      destruct (str_eqb name (lit "ul") || str_eqb name (lit "ol")); [|exact IH].
      destruct (list_items (querySelectorAll (lit "li") (Element name attrs cs)));
        [exact IH | reflexivity].
Qed.

(** X17. The earlier link collector makes one entry for every anchor with a
    non-empty [href] below the elements that follow the heading, up to the
    next heading, in document order: every URL is the resolver's, none is
    taken as it stands, and entries with the same URL are all kept. Without
    the heading there are no links. *)
Theorem legacy_links_resolved (d : document) :
  match find_heading d (lit "relevant documentation") with
  | None => extractDocumentationLinks d = Ok []
  | Some (_, following) =>
      forall links,
        extractDocumentationLinks d = Ok links ->
        Forall2 entry_for
          (linked (flat_map querySelectorAll_a_href (section_elements following)))
          links
  end.
Proof.
  unfold Legacy.extractDocumentationLinks.
  destruct (find_heading d (lit "relevant documentation")) as [[h following]|];
    [|reflexivity].
  intros links H. destruct (links_loop_entries _ _ _ H) as (added & -> & Hall).
  exact Hall.
Qed.

(** X18. The field locator of the earlier variant never returns: whatever
    the document and the label, it throws the [ReferenceError] of the
    global it reads. The section extractors return clean text: list items
    are non-empty and trimmed; a paragraph is non-empty and is made of
    non-empty trimmed paragraphs joined by an empty line. *)
Theorem legacy_text_is_clean (d : document) (fieldLabel headingText : jsstring) :
  Legacy.findFieldValue d fieldLabel = Throw (ReferenceError "NodeFilter") /\
  Forall clean (extractSectionList d headingText) /\
  (forall r, extractSectionParagraph d headingText = Some r ->
             r <> [] /\
             exists texts, texts <> [] /\ Forall clean texts /\
                           r = join [10; 10]%N texts).
Proof.
  split; [reflexivity|split].
  - unfold Legacy.extractSectionList.
    destruct (find_heading d (toLowerCase headingText)) as [[h following]|];
      [apply lists_loop_clean | constructor].
  - intros r. unfold Legacy.extractSectionParagraph.
    destruct (find_heading d (toLowerCase headingText)) as [[h following]|];
      [|discriminate].
    pose proof (paragraphs_loop_clean following [] (Forall_nil _)) as Hc.
    destruct (paragraphs_loop following []) as [|t texts] eqn:P; [discriminate|].
    intros H; injection H as <-. split.
    + inversion Hc as [|x l [Hne _] _]; subst.
      destruct t as [|c t]; [contradiction|].
      destruct texts; cbn; discriminate.
    + exists (t :: texts). split; [discriminate|]. split; [exact Hc | reflexivity].
Qed.

(** *** Slugs *)

(** X19. The two variants of the slug agree on every URL whose path has a
    non-empty segment; where the path has none the earlier variant falls
    back to the host name and the later one returns the empty string; on a
    URL that does not parse the earlier variant throws and the later one
    returns the URL. *)
Theorem slug_variants_agree (url : jsstring) :
  (forall pathname hostname,
      URL_pathname url = Some pathname -> URL_hostname url = Some hostname ->
      slugFromUrl url =
        Ok (if is_empty (Scraper.slugFromUrl URL_pathname url) then hostname
            else Scraper.slugFromUrl URL_pathname url)) /\
  (URL_pathname url = None ->
   slugFromUrl url = Throw InvalidURL /\ Scraper.slugFromUrl URL_pathname url = url).
Proof.
  unfold Legacy.slugFromUrl, Scraper.slugFromUrl, last_of. split.
  - intros pathname hostname -> ->. rewrite Slug.last_segment_stripped. reflexivity.
  - intros ->. split; reflexivity.
Qed.

(** *** The handler *)

Local Abbreviation index_loop := (Legacy.index_loop URL_resolve).
Local Abbreviation extractInefficiencyUrls :=
  (Legacy.extractInefficiencyUrls URL_resolve).
Local Abbreviation parseInefficiencyDetail :=
  (Legacy.parseInefficiencyDetail URL_pathname URL_hostname URL_resolve toLowerCase).
Local Abbreviation scrape_loop :=
  (Legacy.scrape_loop URL_pathname URL_hostname URL_resolve toLowerCase).
Local Abbreviation handler :=
  (Legacy.handler URL_pathname URL_hostname URL_resolve toLowerCase).

Lemma index_loop_NoDup (links : list node) (urls urls' : list jsstring) :
  index_loop links urls = Ok urls' -> NoDup urls -> NoDup urls'.
Proof.
  revert urls; induction links as [|a links IH]; intros urls;
    cbn [Legacy.index_loop].
  - intros H; injection H as <-. exact (fun H => H).
  - destruct a as [data|data|name attrs cs]; try apply IH.
    destruct (getAttribute attrs (lit "href")) as [href|]; [|apply IH].
    destruct (is_empty href); [apply IH|].
    destruct (includes href (lit "/inefficiencies/")); [|apply IH].
    destruct (URL_resolve href BASE_URL) as [full|]; [|discriminate].
    intros H Hn. apply (IH _ H). apply set_add_NoDup. exact Hn.
Qed.

Lemma slugFromUrl_throws (url : jsstring) (e : error) :
  slugFromUrl url = Throw e -> e = InvalidURL.
Proof.
  unfold Legacy.slugFromUrl.
  destruct (URL_pathname url); [destruct (URL_hostname url)|];
    try discriminate; intros H; injection H as <-; reflexivity.
Qed.

(** A link of the index page to a detail page, and the URL it stands for. *)
Definition detail_link (a : node) (u : jsstring) : Prop :=
  exists href, href_of a = Some href /\
               includes href (lit "/inefficiencies/") = true /\
               URL_resolve href BASE_URL = Some u.

(** A link to a detail page that the URL constructor refuses. *)
Definition unresolved_link (a : node) : Prop :=
  exists href, href_of a = Some href /\
               includes href (lit "/inefficiencies/") = true /\
               URL_resolve href BASE_URL = None.

Lemma index_loop_members (links : list node) (urls : list jsstring) :
  match index_loop links urls with
  | Ok urls' =>
      (forall u, In u urls' <-> In u urls \/ exists a, In a links /\ detail_link a u) /\
      ~ Exists unresolved_link links
  | Throw e => e = InvalidURL /\ Exists unresolved_link links
  end.
Proof.
  revert urls; induction links as [|a links IH]; intros urls;
    cbn [Legacy.index_loop].
  - split; [|intros H; inversion H].
    intros u. split; [intros H; left; exact H|].
    intros [H | (a & [] & _)]. exact H.
  - assert (Skip : (forall u, ~ detail_link a u) -> ~ unresolved_link a ->
              match index_loop links urls with
              | Ok urls' =>
                  (forall u, In u urls' <->
                             In u urls \/ exists b, In b (a :: links) /\ detail_link b u) /\
                  ~ Exists unresolved_link (a :: links)
              | Throw e => e = InvalidURL /\ Exists unresolved_link (a :: links)
              end).
    { intros none fine. specialize (IH urls).
      destruct (index_loop links urls) as [urls'|e].
      - destruct IH as (IH & Hno). split.
        + intros u. rewrite (IH u). split.
          * intros [H | (b & Hb & Hd)]; [left; exact H|].
            right. exists b. split; [right; exact Hb | exact Hd].
          * intros [H | (b & [<- | Hb] & Hd)]; [left; exact H | |].
            -- exfalso. exact (none u Hd).
            -- right. exists b. split; [exact Hb | exact Hd].
        + intros H. inversion H as [? ? Ha|? ? Hrest]; subst;
            [exact (fine Ha) | exact (Hno Hrest)].
      - destruct IH as (-> & Hex). split; [reflexivity|].
        apply Exists_cons_tl. exact Hex. }
    destruct a as [data|data|name attrs cs];
      try (apply Skip; [intros u (href & H & _) | intros (href & H & _)];
           discriminate H).
    destruct (getAttribute attrs (lit "href")) as [[|c href]|] eqn:G;
      cbn [is_empty];
      try (apply Skip; [intros u (h & H & _) | intros (h & H & _)];
           cbn [href_of] in H; rewrite G in H; discriminate H).
    destruct (includes (c :: href) (lit "/inefficiencies/")) eqn:Inc.
    + destruct (URL_resolve (c :: href) BASE_URL) as [full|] eqn:R.
      * specialize (IH (set_add full urls)).
        destruct (index_loop links (set_add full urls)) as [urls'|e].
        -- destruct IH as (IH & Hno). split.
           ++ intros u. rewrite (IH u), set_add_In. split.
              ** intros [[H | ->] | (b & Hb & Hd)].
                 --- left; exact H.
                 --- right. exists (Element name attrs cs). split; [left; reflexivity|].
                     exists (c :: href). cbn [href_of]. rewrite G.
                     repeat split; assumption.
                 --- right. exists b. split; [right; exact Hb | exact Hd].
              ** intros [H | (b & [<- | Hb] & Hd)].
                 --- left. left. exact H.
                 --- left. right. destruct Hd as (h & Hh & _ & Hr).
                     cbn [href_of] in Hh. rewrite G in Hh. injection Hh as <-.
                     rewrite R in Hr. injection Hr as <-. reflexivity.
                 --- right. exists b. split; [exact Hb | exact Hd].
           ++ intros H. inversion H as [? ? Ha|? ? Hrest]; subst; [|exact (Hno Hrest)].
              destruct Ha as (h & Hh & _ & Hr). cbn [href_of] in Hh. rewrite G in Hh.
              injection Hh as <-. rewrite R in Hr. discriminate Hr.
        -- destruct IH as (-> & Hex). split; [reflexivity|].
           apply Exists_cons_tl. exact Hex.
      * split; [reflexivity|]. apply Exists_cons_hd. exists (c :: href).
        cbn [href_of]. rewrite G. repeat split; assumption.
    + apply Skip.
      * intros u (h & Hh & Hi & _). cbn [href_of] in Hh. rewrite G in Hh.
        injection Hh as <-. rewrite Inc in Hi. discriminate Hi.
      * intros (h & Hh & Hi & _). cbn [href_of] in Hh. rewrite G in Hh.
        injection Hh as <-. rewrite Inc in Hi. discriminate Hi.
Qed.

(** X22. The earlier discovery reads the one index page, with exactly one
    fetch whatever happens. It throws what the network throws, and an
    [Error] that names the URL and the status when the status is not 2xx.
    On a page that was served it throws, the URL constructor's error,
    exactly when a link to a detail page does not resolve; otherwise it
    returns, in ascending order and without duplicates, the URLs the links
    to detail pages resolve to, and no other. *)
Theorem legacy_discovery_outcomes (w : World) :
  snd (extractInefficiencyUrls w) = advance w /\
  match network w (tick w) (BASE_URL ++ lit "/hub") with
  | Throw e => fst (extractInefficiencyUrls w) = Throw e
  | Ok resp =>
      if ok resp
      then match fst (extractInefficiencyUrls w) with
           | Ok urls =>
               ~ Exists unresolved_link
                   (querySelectorAll_a_href (documentElement (parsed resp))) /\
               StronglySorted str_le urls /\ NoDup urls /\
               forall u, In u urls <->
                 exists a, In a (querySelectorAll_a_href (documentElement (parsed resp)))
                           /\ detail_link a u
           | Throw e =>
               e = InvalidURL /\
               Exists unresolved_link
                 (querySelectorAll_a_href (documentElement (parsed resp)))
           end
      else fst (extractInefficiencyUrls w) =
           Throw (Error (lit "Failed to fetch " ++ BASE_URL ++ lit "/hub: "
                         ++ number_to_string (status resp) ++ lit " "
                         ++ statusText resp))
  end.
Proof.
  unfold Legacy.extractInefficiencyUrls, fetchHtml, bind, fetch, lift, ret, throw.
  destruct (network w (tick w) (BASE_URL ++ lit "/hub")) as [resp|e];
    [|split; reflexivity].
  destruct (ok resp); cbn [negb]; [|split; [reflexivity|]].
  - pose proof (index_loop_members
                  (querySelectorAll_a_href (documentElement (parsed resp))) []) as M.
    pose proof (index_loop_NoDup
                  (querySelectorAll_a_href (documentElement (parsed resp))) []) as N.
    destruct (index_loop (querySelectorAll_a_href (documentElement (parsed resp))) [])
      as [set|e]; cbn [fst snd]; split; try reflexivity.
    + destruct M as (M & Hno). split; [exact Hno|].
      split; [apply sort_sorted|]. split.
      * apply (Permutation_NoDup (Permutation_sym (sort_perm set))).
        apply (N set eq_refl). constructor.
      * intros u. split.
        -- intros H. apply (Permutation_in _ (sort_perm set)) in H.
           apply M in H. destruct H as [[] | H]. exact H.
        -- intros H. apply (Permutation_in _ (Permutation_sym (sort_perm set))).
           apply M. right. exact H.
    + exact M.
  - cbn [fst]. rewrite <- !app_assoc. reflexivity.
Qed.

(** *** Pages and the handler *)

(** What the fetch of a page throws when it does not give a document. *)
Definition fetch_failure (url : jsstring) (w : World) : option error :=
  match network w (tick w) url with
  | Throw e => Some e
  | Ok resp =>
      if ok resp then None
      else Some (Error (lit "Failed to fetch " ++ url ++ lit ": "
                        ++ number_to_string (status resp) ++ lit " "
                        ++ statusText resp))
  end.

(** What the parsing of a page throws. *)
Definition page_error (url : jsstring) (w : World) : error :=
  match fetch_failure url w with
  | Some e => e
  | None => ReferenceError "NodeFilter"
  end.

Lemma parse_throws (url : jsstring) (w : World) :
  parseInefficiencyDetail url w = (Throw (page_error url w), advance w).
Proof.
  unfold Legacy.parseInefficiencyDetail, page_error, fetch_failure, fetchHtml.
  unfold bind at 1. unfold bind at 1. unfold fetch at 1.
  destruct (network w (tick w) url) as [resp|e]; [|reflexivity].
  destruct (ok resp); cbn [negb]; reflexivity.
Qed.

(** X21. In the earlier variant the parsing of a page never returns a
    record. After exactly one fetch it throws: what the network throws,
    the [Error] that names the URL and the status when the status is not
    2xx, and on a page that was served the [ReferenceError] of the first
    call of the field locator. *)
Theorem legacy_parse_never_returns (url : jsstring) (w : World) :
  snd (parseInefficiencyDetail url w) = advance w /\
  match network w (tick w) url with
  | Throw e => fst (parseInefficiencyDetail url w) = Throw e
  | Ok resp =>
      fst (parseInefficiencyDetail url w) =
      Throw (if ok resp then ReferenceError "NodeFilter"
             else Error (lit "Failed to fetch " ++ url ++ lit ": "
                         ++ number_to_string (status resp) ++ lit " "
                         ++ statusText resp))
  end.
Proof.
  rewrite parse_throws. split; [reflexivity|]. cbn [fst].
  unfold page_error, fetch_failure.
  destruct (network w (tick w) url) as [resp|e]; [|reflexivity].
  destruct (ok resp); reflexivity.
Qed.

(** The world after the loop has taken up a page that failed. *)
Definition after_failure (url : jsstring) (w : World) : World :=
  snd (console_error (lit "Error scraping " ++ url ++ lit ":") (advance w)).

(** The place holders of the URLs, each with the error of its page in the
    world in which the loop takes the page up. *)
Fixpoint place_holders (urls : list jsstring) (w : World) : list value :=
  match urls with
  | [] => []
  | url :: urls' =>
      match slugFromUrl url with
      | Ok id =>
          failed_item id url (message (page_error url w))
            (clock w (S (tick w)))
          :: place_holders urls' (after_failure url w)
      | Throw _ => []
      end
  end.

Definition slug_made (url : jsstring) : Prop := exists id, slugFromUrl url = Ok id.

Lemma slug_made_or_not (url : jsstring) :
  slug_made url \/ slugFromUrl url = Throw InvalidURL.
Proof.
  unfold slug_made. destruct (slugFromUrl url) as [id|e] eqn:S;
    [left; exists id; reflexivity|].
  right. rewrite (slugFromUrl_throws _ _ S). reflexivity.
Qed.

Lemma scrape_loop_step (url : jsstring) (urls : list jsstring)
    (results : list value) (w : World) :
  scrape_loop (url :: urls) results w =
  match slugFromUrl url with
  | Ok id =>
      scrape_loop urls
        (results ++ [failed_item id url (message (page_error url w))
                       (clock w (S (tick w)))])
        (after_failure url w)
  | Throw e => (Throw e, after_failure url w)
  end.
Proof.
  cbn [Legacy.scrape_loop]. unfold bind at 1. unfold try_catch at 1.
  unfold bind at 1. rewrite parse_throws.
  unfold bind, lift, now_iso, ret, after_failure, console_error. cbn [snd].
  destruct (slugFromUrl url); reflexivity.
Qed.

(** The loop gives the place holder of every URL, in the order of the
    URLs, when every slug can be made, and throws when one cannot. *)
Lemma scrape_loop_place_holders (urls : list jsstring) (results : list value)
    (w : World) :
  (Forall slug_made urls ->
   exists w', scrape_loop urls results w = (Ok (results ++ place_holders urls w), w')
              /\ List.length (place_holders urls w) = List.length urls) /\
  (Exists (fun url => slugFromUrl url = Throw InvalidURL) urls ->
   exists w', scrape_loop urls results w = (Throw InvalidURL, w')).
Proof.
  revert results w; induction urls as [|url urls IH]; intros results w.
  - split; [|intros H; inversion H].
    intros _. exists w. cbn [Legacy.scrape_loop place_holders ret].
    rewrite app_nil_r. split; reflexivity.
  - rewrite scrape_loop_step. cbn [place_holders].
    destruct (slugFromUrl url) as [id|e] eqn:S.
    + match goal with
      | |- context [scrape_loop urls ?r ?w2] =>
          destruct (IH r w2) as (IHok & IHthrow)
      end.
      split.
      * intros H. inversion H as [|? ? _ Hrest]; subst.
        destruct (IHok Hrest) as (w' & -> & Hlen). exists w'.
        rewrite <- app_assoc. split; [reflexivity|].
        cbn [List.length]. rewrite Hlen. reflexivity.
      * intros H. inversion H as [? ? Hhd|? ? Hrest]; subst;
          [rewrite S in Hhd; discriminate Hhd|].
        exact (IHthrow Hrest).
    + pose proof (slugFromUrl_throws _ _ S) as ->. split.
      * intros H. inversion H as [|? ? (id & Hid) _]; subst.
        rewrite S in Hid. discriminate Hid.
      * intros _. eexists. reflexivity.
Qed.

Lemma handler_answer (limitParam : option jsstring) (w : World) :
  handler limitParam w =
  match extractInefficiencyUrls w with
  | (Ok urls, w1) =>
      match scrape_loop (selectedUrls (request_limit limitParam) urls) [] w1 with
      | (Ok results, w2) => (Ok (Items (List.length results) results), w2)
      | (Throw e, w2) =>
          (Ok (Fatal (message e)),
           snd (console_error (lit "Fatal scraper error:") w2))
      end
  | (Throw e, w1) =>
      (Ok (Fatal (message e)), snd (console_error (lit "Fatal scraper error:") w1))
  end.
Proof.
  unfold Legacy.handler, try_catch, bind, ret.
  destruct (extractInefficiencyUrls w) as [[urls|e] w1]; [|reflexivity].
  destruct (scrape_loop (selectedUrls (request_limit limitParam) urls) [] w1)
    as [[results|e] w2]; reflexivity.
Qed.

(** X20. The earlier handler always answers. It answers with status 500
    exactly when discovery throws or the slug of a selected URL cannot be
    made. Otherwise it answers with status 200 and, as every page fails,
    with one place holder per selected URL, in the order of the sorted
    discovery output: an item with the slug as id, [error: true], the
    message of the error of its page and the URL as source; the count is
    the number of selected URLs, which without a [limit] parameter are all
    the URLs discovered (there is no default limit). *)
Theorem legacy_handler_answers (limitParam : option jsstring) (w : World) :
  match extractInefficiencyUrls w with
  | (Throw e, _) => fst (handler limitParam w) = Ok (Fatal (message e))
  | (Ok urls, w1) =>
      (limitParam = None -> selectedUrls (request_limit limitParam) urls = urls) /\
      (Forall slug_made (selectedUrls (request_limit limitParam) urls) \/
       Exists (fun url => slugFromUrl url = Throw InvalidURL)
         (selectedUrls (request_limit limitParam) urls)) /\
      (Forall slug_made (selectedUrls (request_limit limitParam) urls) ->
       fst (handler limitParam w) =
         Ok (Items (List.length (selectedUrls (request_limit limitParam) urls))
                   (place_holders (selectedUrls (request_limit limitParam) urls) w1)))
      /\
      (Exists (fun url => slugFromUrl url = Throw InvalidURL)
         (selectedUrls (request_limit limitParam) urls) ->
       fst (handler limitParam w) = Ok (Fatal (message InvalidURL)))
  end.
Proof.
  rewrite handler_answer.
  destruct (extractInefficiencyUrls w) as [[urls|e] w1]; [|reflexivity].
  set (selected := selectedUrls (request_limit limitParam) urls).
  split; [intros ->; reflexivity|]. split.
  - induction selected as [|url rest IH]; [left; constructor|].
    destruct (slug_made_or_not url) as [Hm | Ht];
      [|right; apply Exists_cons_hd; exact Ht].
    destruct IH as [IH | IH];
      [left; constructor; assumption | right; apply Exists_cons_tl; exact IH].
  - destruct (scrape_loop_place_holders selected [] w1) as (Hok & Hthrow).
    split.
    + intros H. destruct (Hok H) as (w' & -> & Hlen). cbn [List.app fst].
      rewrite Hlen. reflexivity.
    + intros H. destruct (Hthrow H) as (w' & ->). reflexivity.
Qed.

End LegacyProps.

End LegacyFacts.

(** ** When the validator throws *)

Module Rejections.

Import JsFacts Validator.

(** A URL the validator cannot test: a truthy value that is no string. *)
Definition untestable (v : value) : Prop := truthy v = true /\ is_string v = false.

(** A link the validator cannot read: [null] or [undefined], or a link
    whose URL it cannot test. *)
Definition unreadable (link : value) : Prop :=
  nullish link = true \/ untestable (get_opt link "url").

(** A timestamp [Date.parse] cannot read: a truthy value whose conversion
    to a string throws. *)
Definition unconvertible (v : value) : Prop :=
  truthy v = true /\ exists e, to_String v = Throw e.

(** The test of a URL, on the errors so far. *)
Definition url_test (url : value) (errors : list jsstring) (msg : jsstring)
  : result (list jsstring) :=
  if truthy url
  then http <~ value_startsWith url "http" ;;
       Ok (if negb http then errors ++ [msg] else errors)
  else Ok errors.

Lemma url_test_throws (url : value) (errors : list jsstring) (msg : jsstring) :
  match url_test url errors msg with
  | Throw e => e = TypeError /\ untestable url
  | Ok _ => ~ untestable url
  end.
Proof.
  unfold url_test, untestable.
  destruct url as [| |b|n|s|items|props]; cbn [truthy value_startsWith rbind is_string];
    try (intros [H _]; discriminate H);
    try (split; [reflexivity | split; reflexivity]).
  - destruct b; cbn [rbind]; [split; [reflexivity | split; reflexivity]|].
    intros [H _]; discriminate H.
  - destruct (negb (n =? 0)%Z); cbn [rbind];
      [split; [reflexivity | split; reflexivity]|].
    intros [H _]; discriminate H.
  - destruct (negb (is_empty s)); cbn [rbind]; intros [_ H]; discriminate H.
Qed.

Lemma get_throws (v : value) (k : string) :
  match get v k with
  | Throw e => e = TypeError /\ nullish v = true
  | Ok x => x = get_opt v k /\ nullish v = false
  end.
Proof. destruct v; cbn [get get_opt nullish]; split; reflexivity. Qed.

Section RejectionProps.

Variable Date_parse : value -> option Z.

Local Abbreviation validateScrapedData := (Scraper.validateScrapedData Date_parse).

Lemma forEach_link_throws (items : list value) (idx : N) (errors : list jsstring) :
  match forEach_link items idx errors with
  | Throw e => e = TypeError /\ Exists unreadable items
  | Ok _ => ~ Exists unreadable items
  end.
Proof.
  revert idx errors; induction items as [|link items IH]; intros idx errors;
    cbn [forEach_link].
  - intros H; inversion H.
  - pose proof (get_throws link "url") as G.
    destruct (get link "url") as [url|e]; cbn [rbind].
    + destruct G as (-> & Hn).
      pose proof (url_test_throws (get_opt link "url") errors
                    (lit "Invalid documentation link URL at index "
                     ++ number_to_string idx)) as T.
      match goal with
      | |- context [rbind (if truthy ?u then ?a else ?b) _] =>
          destruct (if truthy u then a else b) as [errors'|e] eqn:R
      end;
        change (url_test (get_opt link "url") errors
                  (lit "Invalid documentation link URL at index "
                   ++ number_to_string idx) = Ok errors') in R
        || change (url_test (get_opt link "url") errors
                     (lit "Invalid documentation link URL at index "
                      ++ number_to_string idx) = Throw e) in R;
        rewrite R in T; cbn [rbind].
      * specialize (IH (idx + 1)%N errors'). revert IH.
        destruct (forEach_link items (idx + 1) errors') as [out|e]; intros IH.
        -- intros H; inversion H as [? ? [Hb | Hb]|? ? Hrest]; subst;
             [congruence | exact (T Hb) | exact (IH Hrest)].
        -- destruct IH as (-> & Hex). split; [reflexivity|].
           apply Exists_cons_tl. exact Hex.
      * destruct T as (-> & Hu). split; [reflexivity|].
        apply Exists_cons_hd. right. exact Hu.
    + destruct G as (-> & Hn). split; [reflexivity|].
      apply Exists_cons_hd. left. exact Hn.
Qed.

(** The conversion of a timestamp, on a truthy value only. *)
Lemma convert_throws (v : value) :
  match (if truthy v then to_String v else Ok []) with
  | Throw e => e = TypeError /\ unconvertible v
  | Ok _ => ~ unconvertible v
  end.
Proof.
  unfold unconvertible. destruct (truthy v) eqn:T.
  - destruct (to_String v) as [text|e] eqn:S.
    + intros (_ & e & H). discriminate H.
    + split; [exact (RunnerFacts.to_String_TypeError _ _ S)|].
      split; [reflexivity | exists e; reflexivity].
  - intros (H & _). discriminate H.
Qed.

(** X15. The validator throws, always a [TypeError], exactly when the record is
    [null] or [undefined], when its source URL is a truthy value that is no
    string, when one of its documentation links is [null], [undefined] or
    has such a URL, or when its timestamp is a truthy value that cannot be
    converted to a string; on every other value it returns a report. *)
Theorem validateScrapedData_throws (data : value) :
  match validateScrapedData data with
  | Throw e =>
      e = TypeError /\
      (nullish data = true \/
       untestable (get_opt (get_opt data "source") "url") \/
       (exists items, get_opt data "documentation_links" = VArr items /\
                      Exists unreadable items) \/
       unconvertible (get_opt data "scraped_at"))
  | Ok v =>
      nullish data = false /\
      ~ untestable (get_opt (get_opt data "source") "url") /\
      (forall items, get_opt data "documentation_links" = VArr items ->
                     ~ Exists unreadable items) /\
      ~ unconvertible (get_opt data "scraped_at") /\
      (isValid v = true <-> errors v = [])
  end.
Proof.
  unfold Scraper.validateScrapedData.
  pose proof (get_throws data "id") as G.
  destruct (get data "id") as [id|e]; cbn [rbind];
    [|destruct G as (-> & Hn); split; [reflexivity | left; exact Hn]].
  destruct G as (_ & Hn).
  assert (Hget : forall k, get data k = Ok (get_opt data k)).
  { intros k. destruct data; try discriminate Hn; reflexivity. }
  rewrite !Hget. cbn [rbind].
  pose proof (convert_throws (get_opt data "scraped_at")) as C.
  assert (Last : forall errors4 : list jsstring,
             ~ untestable (get_opt (get_opt data "source") "url") ->
             (forall items, get_opt data "documentation_links" = VArr items ->
                            ~ Exists unreadable items) ->
             match
               text <~ (if truthy (get_opt data "scraped_at")
                        then to_String (get_opt data "scraped_at") else Ok []) ;;
               Ok {| isValid :=
                       match
                         (if negb (truthy (get_opt data "scraped_at"))
                             || match Date_parse (get_opt data "scraped_at") with
                                | None => true | Some _ => false end
                          then errors4 ++ [lit "Missing or invalid scraped_at timestamp"]
                          else errors4)
                       with [] => true | _ :: _ => false end;
                     errors :=
                       if negb (truthy (get_opt data "scraped_at"))
                          || match Date_parse (get_opt data "scraped_at") with
                             | None => true | Some _ => false end
                       then errors4 ++ [lit "Missing or invalid scraped_at timestamp"]
                       else errors4 |}
             with
             | Throw e =>
                 e = TypeError /\
                 (nullish data = true \/
                  untestable (get_opt (get_opt data "source") "url") \/
                  (exists items, get_opt data "documentation_links" = VArr items /\
                                 Exists unreadable items) \/
                  unconvertible (get_opt data "scraped_at"))
             | Ok v =>
                 nullish data = false /\
                 ~ untestable (get_opt (get_opt data "source") "url") /\
                 (forall items, get_opt data "documentation_links" = VArr items ->
                                ~ Exists unreadable items) /\
                 ~ unconvertible (get_opt data "scraped_at") /\
                 (isValid v = true <-> errors v = [])
             end).
  { intros errors4 Hs Hl. revert C.
    destruct (if truthy (get_opt data "scraped_at")
              then to_String (get_opt data "scraped_at") else Ok []) as [text|e];
      intros C; cbn [rbind].
    - split; [exact Hn|]. split; [exact Hs|]. split; [exact Hl|].
      split; [exact C|]. cbn [isValid errors].
      match goal with
      | |- context [match ?l with [] => true | _ :: _ => false end] =>
          destruct l; split; congruence
      end.
    - destruct C as (-> & Hc). split; [reflexivity|]. right. right. right. exact Hc. }
  match goal with
  | |- context [rbind (if truthy ?u then _ else Ok ?errs) _] =>
      pose proof (url_test_throws u errs (lit "Invalid source URL format")) as T;
      destruct (if truthy u then _ else Ok errs) as [errors3|e] eqn:R;
        (change (url_test u errs (lit "Invalid source URL format") = Ok errors3) in R
         || change (url_test u errs (lit "Invalid source URL format") = Throw e) in R);
        rewrite R in T
  end; cbn [rbind].
  - destruct (get_opt data "documentation_links") as [| |b|n|s|items|props] eqn:L;
      cbn [rbind]; try (apply Last; [exact T | discriminate]).
    pose proof (forEach_link_throws items 0 errors3) as F. revert F.
    destruct (forEach_link items 0 errors3) as [errors4|e]; intros F; cbn [rbind].
    + apply Last; [exact T|]. intros items' E. injection E as <-. exact F.
    + destruct F as (-> & Hex). split; [reflexivity|]. right. right. left.
      exists items. split; [reflexivity | exact Hex].
  - destruct T as (-> & Hu). split; [reflexivity|]. right. left. exact Hu.
Qed.

End RejectionProps.

End Rejections.

(** ** The text fields of a record *)

Module Fields.

Import JsFacts TextSeq Assembler Paragraph Clean.

(** A field that is [null] or clean text. *)
Definition null_or_clean (v : value) : Prop :=
  v = VNull \/ exists s, v = VStr s /\ clean s.

(** A field that is the empty string or a clean paragraph. *)
Definition empty_or_paragraph (v : value) : Prop :=
  v = VStr [] \/ exists s, v = VStr s /\ clean s /\ single_spaced false s.

(** A field that is an array of clean strings. *)
Definition clean_strings (v : value) : Prop :=
  exists items, v = of_strings items /\ Forall clean items.

(** A field that is an array of links, their titles [null] or clean. *)
Definition titled_links (v : value) : Prop :=
  exists links : list link,
    v = VArr (map link_value links) /\
    Forall (fun l => null_or_clean (of_option (link_title l))) links.

Lemma of_option_clean (o : option jsstring) :
  (forall s, o = Some s -> clean s) -> null_or_clean (of_option o).
Proof.
  intros H. destruct o as [s|]; [right|left; reflexivity].
  exists s. split; [reflexivity | apply H; reflexivity].
Qed.

Lemma or_empty_paragraph (o : option jsstring) :
  (forall s, o = Some s -> clean s /\ single_spaced false s) ->
  empty_or_paragraph (VStr (or_empty o)).
Proof.
  intros H. destruct o as [s|]; [right|left; reflexivity].
  exists s. split; [reflexivity | apply H; reflexivity].
Qed.

Lemma anchor_title_clean (a : node) : null_or_clean (of_option (anchor_title a)).
Proof.
  apply of_option_clean. unfold anchor_title. intros s.
  destruct (is_empty (trim (textContent a))) eqn:E; [discriminate|].
  intros H; injection H as <-. split; [apply is_empty_false; exact E|].
  apply trim_trimmed.
Qed.

Section FieldProps.

Variable URL_pathname : jsstring -> option jsstring.
Variable URL_resolve : jsstring -> jsstring -> option jsstring.

Local Abbreviation parseInefficiencyDetail :=
  (Scraper.parseInefficiencyDetail URL_pathname URL_resolve).
Local Abbreviation extractDocumentationLinks :=
  (Scraper.extractDocumentationLinks URL_resolve).

(** The text fields of a parsed record, from the page that was fetched. *)
Lemma parsed_fields (url : jsstring) (w w1 : World) (record : value) :
  parseInefficiencyDetail url w = (Ok record, w1) ->
  exists (d : document) (links : list link),
    fetchDocument url w = (Ok d, w1) /\
    extractDocumentationLinks d = Ok links /\
    get_opt record "service_category" =
      of_option (findFieldValue d (lit "Service Category")) /\
    get_opt record "cloud_provider" =
      of_option (findFieldValue d (lit "Cloud Provider")) /\
    get_opt record "service_name" =
      of_option (findFieldValue d (lit "Service Name")) /\
    get_opt record "inefficiency_type" =
      of_option (findFieldValue d (lit "Inefficiency Type")) /\
    get_opt record "explanation" =
      VStr (or_empty (extractSectionParagraph d (lit "Explanation"))) /\
    get_opt record "billing_model" =
      VStr (or_empty (extractSectionParagraph d (lit "Relevant Billing Model"))) /\
    get_opt record "detection_signals" =
      of_strings (extractSectionList d (lit "Detection")) /\
    get_opt record "remediation_actions" =
      of_strings (extractSectionList d (lit "Remediation")) /\
    get_opt record "documentation_links" = VArr (map link_value links).
Proof.
  unfold Scraper.parseInefficiencyDetail. unfold bind at 1.
  destruct (fetchDocument url w) as [[document|e] w'] eqn:F; [|discriminate].
  unfold bind at 1. unfold lift at 1.
  destruct (extractDocumentationLinks document) as [links|e] eqn:L; [|discriminate].
  unfold bind at 1. unfold now_iso at 1.
  unfold mapToSchema, bind, lift, get, get_opt, ret. cbn [lookup].
  eval_keys. cbv iota. cbn [nullish].
  rewrite !coalesce_of_option, !coalesce_or_empty.
  intros H. injection H as <- <-.
  exists document, links. split; [reflexivity|]. split; [exact L|].
  repeat split; cbn [lookup]; eval_keys; cbv iota; reflexivity.
Qed.

Lemma no_heading_no_paragraph (d : document) (headingText : jsstring) :
  ~ In headingText (texts d) -> extractSectionParagraph d headingText = None.
Proof.
  intros H. unfold extractSectionParagraph.
  rewrite loop_before_section by exact H. reflexivity.
Qed.


End FieldProps.

End Fields.

(** * Examples *)

(** ** A plain runtime *)

Module Plain.

(** A reader of plain http(s) URLs, in agreement with the URL constructor
    on URLs of the form scheme://host/path?query#fragment without escapes
    and dot segments. *)
Fixpoint take_until (stop : char -> bool) (s : jsstring) : jsstring :=
  match s with
  | [] => []
  | c :: s' => if stop c then [] else c :: take_until stop s'
  end.

Fixpoint drop_until (stop : char -> bool) (s : jsstring) : jsstring :=
  match s with
  | [] => []
  | c :: s' => if stop c then s else drop_until stop s'
  end.

Definition after_scheme (s : jsstring) : option jsstring :=
  if startsWith s (lit "https://") then Some (skipn 8 s)
  else if startsWith s (lit "http://") then Some (skipn 7 s)
  else None.

Definition ends_path (c : char) : bool := N.eqb c 63 || N.eqb c 35.
Definition ends_authority (c : char) : bool := N.eqb c slash || ends_path c.

Definition URL_pathname (url : jsstring) : option jsstring :=
  match after_scheme url with
  | None => None
  | Some rest =>
      match take_until ends_authority rest with
      | [] => None
      | _ :: _ =>
          match take_until ends_path (drop_until ends_authority rest) with
          | [] => Some [slash]
          | path => Some path
          end
      end
  end.

Definition origin (url : jsstring) : option jsstring :=
  match after_scheme url with
  | None => None
  | Some rest =>
      match take_until ends_authority rest with
      | [] => None
      | host =>
          Some (firstn (List.length url - List.length rest) url ++ host)
      end
  end.

(** A reference with a scheme is taken as it is; any other is read as a
    path from the root of a base without path. *)
Definition URL_resolve (href base : jsstring) : option jsstring :=
  if Links.absolute_url href then Some href
  else match origin base with
       | None => None
       | Some o =>
           if startsWith href [slash] then Some (o ++ href)
           else Some (o ++ slash :: href)
       end.

(** A reader of the timestamps [toISOString] writes:
    YYYY-MM-DDTHH:mm:ss.sssZ, in milliseconds since 1970. *)
Fixpoint number_of (digits : jsstring) (acc : Z) : option Z :=
  match digits with
  | [] => Some acc
  | c :: digits' =>
      if is_digit c then number_of digits' (10 * acc + Z.of_N (c - 48))%Z else None
  end.

Definition days_from_civil (y m d : Z) : Z :=
  (let y' := if Z.leb m 2 then y - 1 else y in
   let era := y' / 400 in
   let yoe := y' - era * 400 in
   let mp := (m + 9) mod 12 in
   let doy := (153 * mp + 2) / 5 + d - 1 in
   let doe := yoe * 365 + yoe / 4 - yoe / 100 + doy in
   era * 146097 + doe - 719468)%Z.

Definition in_range (lo hi x : Z) : bool := Z.leb lo x && Z.leb x hi.

Definition iso_parse (s : jsstring) : option Z :=
  match s with
  | [y1; y2; y3; y4; d1; m1; m2; d2; a1; a2; t; h1; h2; c1; n1; n2; c2; s1; s2;
     p; f1; f2; f3; z] =>
      if N.eqb d1 45 && N.eqb d2 45 && N.eqb t 84 && N.eqb c1 58 && N.eqb c2 58
         && N.eqb p 46 && N.eqb z 90
      then match number_of [y1; y2; y3; y4] 0%Z, number_of [m1; m2] 0%Z,
                 number_of [a1; a2] 0%Z, number_of [h1; h2] 0%Z,
                 number_of [n1; n2] 0%Z, number_of [s1; s2] 0%Z,
                 number_of [f1; f2; f3] 0%Z with
           | Some y, Some m, Some d, Some h, Some n, Some sec, Some ms =>
               if (in_range 1 12 m && in_range 1 31 d && in_range 0 23 h
                   && in_range 0 59 n && in_range 0 59 sec)%Z
               then Some ((((days_from_civil y m d * 24 + h) * 60 + n) * 60 + sec)
                          * 1000 + ms)%Z
               else None
           | _, _, _, _, _, _, _ => None
           end
      else None
  | _ => None
  end.

Definition Date_parse (v : value) : option Z :=
  match v with
  | VStr s => iso_parse s
  | _ => None
  end.

Example pathname_of_detail_page :
  URL_pathname (lit "https://site/hub/inefficiencies/idle-ec2/") =
  Some (lit "/hub/inefficiencies/idle-ec2/").
Proof. vm_compute. reflexivity. Qed.

Example pathname_of_root :
  URL_pathname (lit "https://hub.pointfive.co") = Some (lit "/").
Proof. vm_compute. reflexivity. Qed.

Example resolve_path :
  URL_resolve (lit "/docs/ec2") BASE_URL = Some (lit "https://hub.pointfive.co/docs/ec2").
Proof. vm_compute. reflexivity. Qed.

Example parse_epoch :
  Date_parse (VStr (lit "1970-01-02T00:00:00.500Z")) = Some 86400500%Z.
Proof. vm_compute. reflexivity. Qed.

(** A world that answers every URL the same way at all times, with a clock
    that stands still. *)
Definition world_of (pages : jsstring -> result response) : World :=
  {| tick := 0;
     network := fun _ url => pages url;
     clock := fun _ => lit "2024-05-01T12:00:00.000Z";
     console := [] |}.

Definition el (tag : string) (children : list node) : node :=
  Element (lit tag) [] children.

Definition txt (s : string) : node := Text (lit s).

Definition anchor (href text : string) : node :=
  Element (lit "a") [(lit "href", lit href)] [Text (lit text)].

Definition page_of (children : list node) : document :=
  {| doc_head := []; doc_body := children |}.

Definition served_with (d : document) : result response :=
  Ok {| status := 200; statusText := lit "OK"; parsed := d |}.

Definition AbortError : error :=
  {| name := lit "AbortError"; message := lit "This operation was aborted" |}.

(** A detail page. *)
Definition idle_ec2_page : document :=
  page_of
    [ el "h1" [txt "Idle EC2 instances"];
      el "div" [txt "  PointFive  "];
      el "div" [el "span" [txt "Service Category"]; txt " "; el "span" [txt "Compute"]];
      el "div" [el "span" [txt "Cloud Provider"]; el "span" [txt "AWS"]];
      el "h2" [txt "Explanation"];
      el "p" [txt "Instances that   run idle"; el "b" [txt " still "]; txt "cost money."];
      el "h2" [txt "Detection"];
      el "ul" [el "li" [txt " Check tag X "]; el "li" [txt "Check tag Y"];
               el "li" [txt "  "]; el "li" [txt "Check tag Z"]];
      el "h2" [txt "Relevant Documentation"];
      el "p" [txt "See "; anchor "/docs/ec2" " EC2 guide "; txt " and ";
              anchor "https://aws.amazon.com/ec2" "AWS"; anchor "/docs/ec2" "again"] ].

End Plain.

(** ** The claims on concrete pages *)

Module Examples.

Import Plain SortFacts Assembler.

Ltac not_among :=
  let H := fresh "H" in
  vm_compute; intros H;
  repeat (destruct H as [H | H]; [discriminate H|]); exact H.

Ltac no_stop :=
  let H := fresh "H" in
  intros [H _]; revert H; not_among.

(** C4 on the detail page: the value after the label "Service Category". *)
Lemma findFieldValue_first_label_witness :
  texts idle_ec2_page =
    firstn 2 (texts idle_ec2_page) ++ lit "Service Category"
    :: skipn 3 (texts idle_ec2_page) /\
  ~ In (lit "Service Category") (firstn 2 (texts idle_ec2_page)) /\
  findFieldValue idle_ec2_page (lit "Service Category") = Some (lit "Compute") /\
  Paragraph.trimmed (lit "Compute") /\
  exists n : text_node,
    In n (createTreeWalker idle_ec2_page) /\
    FieldValue.stripped (nodeValue n) (lit "Compute").
Proof.
  assert (E : texts idle_ec2_page =
              firstn 2 (texts idle_ec2_page) ++ lit "Service Category"
              :: skipn 3 (texts idle_ec2_page)) by (vm_compute; reflexivity).
  assert (N : ~ In (lit "Service Category") (firstn 2 (texts idle_ec2_page)))
    by not_among.
  split; [exact E|]. split; [exact N|].
  destruct (FieldValue.findFieldValue_first_label idle_ec2_page
              (lit "Service Category")) as (_ & H & _ & _ & T).
  assert (F : findFieldValue idle_ec2_page (lit "Service Category") =
              Some (lit "Compute")) by (rewrite (H _ _ E N); vm_compute; reflexivity).
  split; [exact F|]. exact (T _ F).
Defined.

(** C3 on the detail page: the Explanation section ends at "Detection". *)
Lemma extractSectionParagraph_collects_witness :
  texts idle_ec2_page =
    firstn 6 (texts idle_ec2_page) ++ lit "Explanation"
    :: firstn 3 (skipn 7 (texts idle_ec2_page))
       ++ skipn 10 (texts idle_ec2_page) /\
  extractSectionParagraph idle_ec2_page (lit "Explanation") =
    Some (lit "Instances that run idle still cost money.").
Proof.
  assert (E : texts idle_ec2_page =
              firstn 6 (texts idle_ec2_page) ++ lit "Explanation"
              :: firstn 3 (skipn 7 (texts idle_ec2_page))
                 ++ skipn 10 (texts idle_ec2_page)) by (vm_compute; reflexivity).
  split; [exact E|].
  destruct (Paragraph.extractSectionParagraph_collects idle_ec2_page
              (lit "Explanation")) as (_ & H & _).
  rewrite (H _ _ _ E).
  - vm_compute. reflexivity.
  - not_among.
  - repeat (constructor; [no_stop|]). constructor.
  - right. eexists. eexists. split; [vm_compute; reflexivity|].
    split; [vm_compute; tauto | discriminate].
Defined.

(** The heading text node of the Detection list and its ancestors. *)
Definition detection_heading : text_node :=
  nth 10 (content_nodes (createTreeWalker idle_ec2_page))
      {| nodeValue := []; ancestors := [] |}.

(** C5 on the detail page: the three non-empty items of the list. *)
Lemma extractSectionList_items_witness :
  content_nodes (createTreeWalker idle_ec2_page) =
    firstn 10 (content_nodes (createTreeWalker idle_ec2_page))
    ++ detection_heading
    :: skipn 11 (content_nodes (createTreeWalker idle_ec2_page)) /\
  textValue detection_heading = lit "Detection" /\
  extractSectionList idle_ec2_page (lit "Detection") =
    [lit "Check tag X"; lit "Check tag Y"; lit "Check tag Z"].
Proof.
  assert (E : content_nodes (createTreeWalker idle_ec2_page) =
              firstn 10 (content_nodes (createTreeWalker idle_ec2_page))
              ++ detection_heading
              :: skipn 11 (content_nodes (createTreeWalker idle_ec2_page)))
    by (vm_compute; reflexivity).
  assert (T : textValue detection_heading = lit "Detection")
    by (vm_compute; reflexivity).
  split; [exact E|]. split; [exact T|].
  destruct (ListMode.extractSectionList_items idle_ec2_page (lit "Detection"))
    as (_ & H).
  destruct (H _ _ _ E T) as (_ & H2).
  - repeat (constructor; [vm_compute; discriminate|]). constructor.
  - destruct (H2 [hd (Text []) (ancestors detection_heading)]
                 [documentElement idle_ec2_page] (body idle_ec2_page)
                 (nth 7 (doc_body idle_ec2_page) (Text []))) as (H3 & _).
    + vm_compute. reflexivity.
    + constructor; [vm_compute; reflexivity | constructor].
    + vm_compute. reflexivity.
    + rewrite H3. vm_compute. reflexivity.
Defined.

(** The heading text node of the documentation section. *)
Definition documentation_heading : text_node :=
  nth 14 (content_nodes (createTreeWalker idle_ec2_page))
      {| nodeValue := []; ancestors := [] |}.

(** C6 on the detail page: the relative link is resolved, the link met
    again is dropped. *)
Lemma extractDocumentationLinks_collects_witness :
  content_nodes (createTreeWalker idle_ec2_page) =
    firstn 14 (content_nodes (createTreeWalker idle_ec2_page))
    ++ documentation_heading
    :: skipn 15 (content_nodes (createTreeWalker idle_ec2_page)) ++ [] /\
  textValue documentation_heading = RelevantDocumentation /\
  extractDocumentationLinks URL_resolve idle_ec2_page =
    Ok [ {| link_title := Some (lit "EC2 guide");
            link_url := lit "https://hub.pointfive.co/docs/ec2" |};
         {| link_title := Some (lit "AWS");
            link_url := lit "https://aws.amazon.com/ec2" |} ].
Proof.
  assert (E : content_nodes (createTreeWalker idle_ec2_page) =
              firstn 14 (content_nodes (createTreeWalker idle_ec2_page))
              ++ documentation_heading
              :: skipn 15 (content_nodes (createTreeWalker idle_ec2_page)) ++ [])
    by (vm_compute; reflexivity).
  assert (T : textValue documentation_heading = RelevantDocumentation)
    by (vm_compute; reflexivity).
  split; [exact E|]. split; [exact T|].
  destruct (Links.extractDocumentationLinks_collects URL_resolve idle_ec2_page)
    as (_ & _ & H).
  rewrite (H _ _ _ _ E T).
  - vm_compute. reflexivity.
  - repeat (constructor; [vm_compute; discriminate|]). constructor.
  - repeat (constructor; [unfold Links.stops_node; no_stop|]). constructor.
  - left. reflexivity.
Defined.

(** A page whose documentation section links to a file next to it. *)
Definition guide_page : document :=
  page_of
    [ el "h2" [txt "Relevant Documentation"];
      el "p" [txt "See "; anchor "http-guide.html" "the guide"] ].

(** C6, as stated, fails: a relative [href] that starts with "http" is
    kept as it is. *)
Lemma relative_href_kept :
  ~ Links.urls_absolute URL_resolve guide_page.
Proof.
  intros H.
  specialize (H [ {| link_title := Some (lit "the guide");
                     link_url := lit "http-guide.html" |} ]).
  assert (E : extractDocumentationLinks URL_resolve guide_page =
              Ok [ {| link_title := Some (lit "the guide");
                      link_url := lit "http-guide.html" |} ])
    by (vm_compute; reflexivity).
  specialize (H E). inversion H as [|? ? Habs _]. vm_compute in Habs.
  discriminate Habs.
Qed.

(** C7 with the plain URL reader. *)
Lemma slugFromUrl_last_segment_witness :
  URL_pathname (lit "https://site/hub/inefficiencies/idle-ec2/") =
    Some (lit "/hub/inefficiencies/idle-ec2/") /\
  slugFromUrl URL_pathname (lit "https://site/hub/inefficiencies/idle-ec2/") =
    lit "idle-ec2" /\
  URL_pathname (lit "not a url") = None /\
  slugFromUrl URL_pathname (lit "not a url") = lit "not a url".
Proof.
  assert (P : URL_pathname (lit "https://site/hub/inefficiencies/idle-ec2/") =
              Some (lit "/hub/inefficiencies/idle-ec2/")) by (vm_compute; reflexivity).
  assert (Q : URL_pathname (lit "not a url") = None) by (vm_compute; reflexivity).
  split; [exact P|]. split.
  - exact (proj1 (proj2 (proj2 (Slug.slugFromUrl_last_segment URL_pathname
                                  (lit "https://site/hub/inefficiencies/idle-ec2/")))) P).
  - split; [exact Q|].
    exact (proj1 (Slug.slugFromUrl_last_segment URL_pathname (lit "not a url")) Q).
Defined.

(** A record that is in order but for its source, which has no URL. *)
Definition record_without_source_url : value :=
  VObj [ (lit "id", VStr (lit "idle-ec2"));
         (lit "title", VStr (lit "Idle EC2 instances"));
         (lit "documentation_links", VArr []);
         (lit "source", VObj [ (lit "url", VNull); (lit "origin", VStr ORIGIN) ]);
         (lit "scraped_at", VStr (lit "2024-05-01T12:00:00.000Z")) ].

(** A record whose source URL is a path. *)
Definition record_with_path_url : value :=
  VObj [ (lit "id", VStr (lit "idle-ec2"));
         (lit "title", VStr (lit "Idle EC2 instances"));
         (lit "documentation_links", VArr []);
         (lit "source", VObj [ (lit "url", VStr (lit "/hub/inefficiencies/idle-ec2")) ]);
         (lit "scraped_at", VStr (lit "2024-05-01T12:00:00.000Z")) ].

(** The world of a single detail page. *)
Definition detail_world : World := world_of (fun _ => served_with idle_ec2_page).

Definition detail_url : jsstring :=
  lit "https://hub.pointfive.co/hub/inefficiencies/idle-ec2/".

Definition detail_outcome : result value * World :=
  parseInefficiencyDetail URL_pathname URL_resolve detail_url
    (logged Info "Scraper request started" detail_world).

Definition detail_record : value :=
  match fst detail_outcome with Ok record => record | Throw _ => VNull end.

(** The guide page, served at the URL of the detail page. *)
Definition guide_world : World := world_of (fun _ => served_with guide_page).

Definition guide_outcome : result value * World :=
  parseInefficiencyDetail URL_pathname URL_resolve detail_url guide_world.

Definition guide_record : value :=
  match fst guide_outcome with Ok record => record | Throw _ => VNull end.

(** C8, as stated, fails: the record of the guide page has a documentation
    link whose URL, "http-guide.html", is not absolute, and the validator
    does not flag it. *)
Lemma relative_link_not_flagged :
  ~ Handler.validator_flags_as_stated URL_pathname URL_resolve Date_parse.
Proof.
  intros H.
  assert (P : parseInefficiencyDetail URL_pathname URL_resolve detail_url guide_world =
              (Ok guide_record, snd guide_outcome)) by (vm_compute; reflexivity).
  assert (V : validateScrapedData Date_parse guide_record =
              Ok {| isValid := true; errors := [] |}) by (vm_compute; reflexivity).
  assert (U : detail_url <> []) by discriminate.
  destruct (H detail_url guide_world (snd guide_outcome) guide_record
              {| isValid := true; errors := [] |} U P V) as [_ F].
  assert (E : true = false); [|discriminate E].
  apply F. right. right. right. left.
  exists [link_value {| link_title := Some (lit "the guide");
                        link_url := lit "http-guide.html" |}].
  split; [vm_compute; reflexivity|].
  constructor. intros (s & Es & A).
  vm_compute in Es. injection Es as <-. vm_compute in A. discriminate A.
Qed.

(** The plain resolver never gives the empty string. *)
Lemma resolved_nonempty_plain : Handler.resolved_nonempty URL_resolve.
Proof.
  intros href base resolved. unfold URL_resolve.
  destruct href as [|c href].
  - cbn. destruct (origin base) as [o|]; [|discriminate].
    intros H. injection H as <-. destruct o; discriminate.
  - destruct (Links.absolute_url (c :: href)).
    + intros H. injection H as <-. discriminate.
    + destruct (origin base) as [o|]; [|discriminate].
      destruct (startsWith (c :: href) [slash]); intros H; injection H as <-;
        destruct o; discriminate.
Qed.

(** C8 on the record of the detail page, on a record with a bad source URL,
    and on a request for one page. *)
Lemma validateScrapedData_flags_and_keeps_witness :
  (exists v : validation,
      validateScrapedData Date_parse detail_record = Ok v /\
      (isValid v = false <-> Validator.flagged_unguarded Date_parse detail_record)) /\
  validateScrapedData Date_parse record_with_path_url =
    Ok {| isValid := false; errors := [lit "Invalid source URL format"] |} /\
  Validator.flagged Date_parse record_with_path_url /\
  parseInefficiencyDetail URL_pathname URL_resolve detail_url
    (logged Info "Scraper request started" detail_world) =
    (Ok detail_record, snd detail_outcome) /\
  fst (handler URL_pathname URL_resolve Date_parse
         {| urlParam := Some detail_url; limitParam := None |} detail_world) =
    Ok (SingleRecord detail_record).
Proof.
  pose proof (Handler.validateScrapedData_flags_and_keeps
                URL_pathname URL_resolve Date_parse) as (H0 & H1 & H2 & _).
  assert (E : validateScrapedData Date_parse record_with_path_url =
              Ok {| isValid := false; errors := [lit "Invalid source URL format"] |})
    by (vm_compute; reflexivity).
  assert (P : parseInefficiencyDetail URL_pathname URL_resolve detail_url
                (logged Info "Scraper request started" detail_world) =
              (Ok detail_record, snd detail_outcome)) by (vm_compute; reflexivity).
  split.
  { refine (H0 resolved_nonempty_plain detail_url _ _ detail_record _ P).
    discriminate. }
  split; [exact E|]. split; [apply (H1 _ _ E); reflexivity|].
  split; [exact P|].
  destruct (H2 {| urlParam := Some detail_url; limitParam := None |} detail_url
               detail_world (snd detail_outcome) detail_record eq_refl) as (v & _ & ->).
  - discriminate.
  - exact P.
  - reflexivity.
Defined.

(** C9 on the detail page. *)
Lemma assembled_record_invariants_witness :
  parseInefficiencyDetail URL_pathname URL_resolve detail_url
    (logged Info "Scraper request started" detail_world) =
    (Ok detail_record, snd detail_outcome) /\
  get_opt detail_record "id" = VStr (lit "idle-ec2") /\
  get_opt detail_record "tags" = VArr [] /\
  get_opt (get_opt detail_record "source") "origin" = VStr ORIGIN.
Proof.
  assert (P : parseInefficiencyDetail URL_pathname URL_resolve detail_url
                (logged Info "Scraper request started" detail_world) =
              (Ok detail_record, snd detail_outcome)) by (vm_compute; reflexivity).
  split; [exact P|].
  destruct (proj2 (Assembler.assembled_record_invariants URL_pathname URL_resolve)
              _ _ _ _ P) as (Hid & _ & _ & _ & _ & _ & Htags & Horigin & _).
  split; [rewrite Hid; vm_compute; reflexivity|].
  split; [exact Htags | exact Horigin].
Defined.

(** The site root, served with an empty page. *)
Definition root_url : jsstring := lit "https://hub.pointfive.co/".

Definition root_world : World := world_of (fun _ => served_with (page_of [])).

Definition root_outcome : result value * World :=
  parseInefficiencyDetail URL_pathname URL_resolve root_url root_world.

Definition root_record : value :=
  match fst root_outcome with Ok record => record | Throw _ => VNull end.

(** C9, as stated, fails: the record of the site root has the empty id. *)
Lemma root_url_empty_id :
  ~ Assembler.ids_nonempty URL_pathname URL_resolve.
Proof.
  intros H.
  assert (P : parseInefficiencyDetail URL_pathname URL_resolve root_url root_world =
              (Ok root_record, snd root_outcome)) by (vm_compute; reflexivity).
  apply H in P. destruct P as (s & Hs & Hne). vm_compute in Hs.
  injection Hs as <-. apply Hne. reflexivity.
Qed.

(** C7, as stated, fails: the path of the site root has no segment that
    is not empty, and the slug is the empty string. *)
Lemma root_url_no_segment :
  ~ Slug.slug_as_stated URL_pathname.
Proof.
  intros H.
  assert (P : URL_pathname root_url = Some (lit "/")) by (vm_compute; reflexivity).
  destruct (H root_url (lit "/") P) as [Hne _].
  apply Hne. vm_compute. reflexivity.
Qed.

(** *** A batch of three URLs, the second of which times out *)

Definition url_a : jsstring := lit "https://hub.pointfive.co/hub/inefficiencies/a".
Definition url_b : jsstring := lit "https://hub.pointfive.co/hub/inefficiencies/b".
Definition url_c : jsstring := lit "https://hub.pointfive.co/hub/inefficiencies/c".

Definition ok_response : response :=
  {| status := 200; statusText := lit "OK"; parsed := idle_ec2_page |}.

Definition batch_world : World :=
  world_of (fun url => if str_eqb url url_b then Throw AbortError else Ok ok_response).

Definition batch_outcome : result (list value * list error_entry) * World :=
  batch_loop URL_pathname URL_resolve Date_parse [url_a; url_b; url_c] 0 [] []
             batch_world.

(** C1 on that batch: two results, one error, that of the second URL. *)
Lemma batch_partial_failure_witness :
  (forall t, network batch_world t url_a = Ok ok_response) /\
  (forall t, network batch_world t url_b = Throw AbortError) /\
  (forall t, network batch_world t url_c = Ok ok_response) /\
  exists (record1 record3 : value) (w' : World),
    batch_outcome =
    (Ok ([record1; record3],
         [{| entry_url := url_b;
             entry_error := lit "Fetch timeout after 8000ms: " ++ url_b;
             entry_index := 2 |}]), w').
Proof.
  assert (Ha : forall t, network batch_world t url_a = Ok ok_response)
    by (intros t; vm_compute; reflexivity).
  assert (Hb : forall t, network batch_world t url_b = Throw AbortError)
    by (intros t; vm_compute; reflexivity).
  assert (Hc : forall t, network batch_world t url_c = Ok ok_response)
    by (intros t; vm_compute; reflexivity).
  split; [exact Ha|]. split; [exact Hb|]. split; [exact Hc|].
  pose proof (Handler.batch_partial_failure URL_pathname URL_resolve Date_parse)
    as (_ & _ & _ & _ & H).
  eapply (H url_a url_b url_c batch_world ok_response ok_response _ _ AbortError Ha);
    try eassumption; try reflexivity; vm_compute; reflexivity.
Defined.

(** *** Index pages *)

Definition item_url (i : nat) : jsstring :=
  lit "https://hub.pointfive.co/hub/inefficiencies/item-" ++ number_to_string (N.of_nat i).

Definition item_anchor (i : nat) : node :=
  Element (lit "a") [(lit "href", item_url i)] [Text (lit "item")].

(** An index page with the given anchors. *)
Definition index_page (anchors : list node) : response :=
  {| status := 200; statusText := lit "OK";
     parsed := page_of [Element (lit "div") [] anchors] |}.

(** The number of the index page a URL asks for, among the first [n]. *)
Definition page_number (n : nat) (url : jsstring) : option nat :=
  find (fun i => str_eqb url (indexUrl i)) (seq 1 n).

(** Two pages: the first lists items 2 and 1 and a link that is no detail
    page, the second items 3 and 1; the third page is empty. *)
Definition two_pages (i : nat) : list jsstring :=
  match i with
  | 1 => [item_url 2; item_url 1]
  | 2 => [item_url 3; item_url 1]
  | _ => []
  end.

Definition two_page_response (i : nat) : response :=
  match i with
  | 1 => index_page [item_anchor 2; anchor "/about" "About"; item_anchor 1]
  | 2 => index_page [item_anchor 3; item_anchor 1]
  | _ => index_page []
  end.

Definition two_page_world : World :=
  world_of (fun url =>
    match page_number 3 url with
    | Some i => Ok (two_page_response i)
    | None => Ok (index_page [])
    end).

Lemma two_page_world_serves (i : nat) :
  1 <= i <= 3 -> Discovery.serves URL_resolve two_page_world i (two_pages i).
Proof.
  intros Hi. exists (two_page_response i).
  destruct i as [|[|[|[|i]]]]; try lia;
    (split; [intros t; vm_compute; reflexivity|]);
    (split; vm_compute; reflexivity).
Qed.

(** C2 on the two pages: three URLs, sorted, the shared one once. *)
Lemma discovery_sorted_union_witness :
  (forall i, 1 <= i <= 2 ->
      Discovery.serves URL_resolve two_page_world i (two_pages i) /\ two_pages i <> []) /\
  Discovery.serves URL_resolve two_page_world (2 + 1) [] /\
  fst (extractInefficiencyUrls URL_resolve None two_page_world) =
    Ok [item_url 1; item_url 2; item_url 3].
Proof.
  assert (H1 : forall i, 1 <= i <= 2 ->
             Discovery.serves URL_resolve two_page_world i (two_pages i)
             /\ two_pages i <> []).
  { intros i Hi. split; [apply two_page_world_serves; lia|].
    destruct i as [|[|[|i]]]; try lia; discriminate. }
  assert (H2 : Discovery.serves URL_resolve two_page_world (2 + 1) [])
    by (apply (two_page_world_serves 3); lia).
  split; [exact H1|]. split; [exact H2|].
  destruct (proj1 (Discovery.discovery_sorted_union URL_resolve)
              two_page_world two_pages 2 None H1 H2) as (w' & ->).
  vm_compute. reflexivity.
Defined.

(** Thirty-one pages with one item each, and nothing after them. *)
Definition many_pages (i : nat) : list jsstring :=
  if Nat.leb 1 i && Nat.leb i 31 then [item_url i] else [].

Definition many_page_response (i : nat) : response :=
  index_page (map item_anchor (if Nat.leb 1 i && Nat.leb i 31 then [i] else [])).

Definition many_page_world : World :=
  world_of (fun url =>
    match page_number 32 url with
    | Some i => Ok (many_page_response i)
    | None => Ok (index_page [])
    end).

Lemma many_page_world_serves (i : nat) :
  1 <= i <= 32 -> Discovery.serves URL_resolve many_page_world i (many_pages i).
Proof.
  intros Hi. exists (many_page_response i).
  do 33 (destruct i as [|i];
         [try lia;
          (split; [intros t; vm_compute; reflexivity|]);
          (split; vm_compute; reflexivity)|]).
  lia.
Qed.

(** C2, as stated, fails beyond the cap: of thirty-one pages with links,
    the last one is never fetched. *)
Lemma page_31_not_discovered :
  ~ Discovery.discovery_as_stated URL_resolve.
Proof.
  intros H. specialize (H many_page_world many_pages 31).
  assert (E : fst (extractInefficiencyUrls URL_resolve None many_page_world) =
              Ok (Discovery.discovered many_pages 31)).
  { apply H.
    - intros i Hi. split; [apply many_page_world_serves; lia|].
      unfold many_pages.
      destruct (Nat.leb 1 i && Nat.leb i 31) eqn:B; [discriminate|].
      apply andb_false_iff in B. destruct B as [B | B];
        [apply Nat.leb_gt in B | apply Nat.leb_gt in B]; lia.
    - apply (many_page_world_serves 32). lia. }
  assert (L : forall a b : list jsstring, Ok a = Ok b -> List.length a = List.length b)
    by (intros a b Hab; injection Hab as ->; reflexivity).
  destruct (fst (extractInefficiencyUrls URL_resolve None many_page_world))
    as [urls|e] eqn:R; [|discriminate E].
  apply L in E.
  assert (R' : List.length urls = 30).
  { assert (X : option_map (@List.length jsstring)
                  (match fst (extractInefficiencyUrls URL_resolve None many_page_world)
                   with Ok u => Some u | Throw _ => None end) = Some 30)
      by (vm_compute; reflexivity).
    rewrite R in X. injection X as X. exact X. }
  rewrite R' in E. vm_compute in E. discriminate E.
Qed.

(** Seven items on one page. *)
Definition seven_item_world : World :=
  world_of (fun url =>
    match page_number 1 url with
    | Some _ => Ok (index_page (map item_anchor [7; 3; 1; 6; 2; 5; 4]))
    | None => Ok (index_page [])
    end).

(** C10 on a request without parameters. *)
Lemma default_limit_five_witness :
  request_limit {| urlParam := None; limitParam := None |} = Some 5%Z /\
  exists (set : list jsstring) (w1 w' : World) (items : list value)
         (errors : option (list error_entry)) (count failed : nat),
    pages_loop URL_resolve MAX_PAGES 1 []
      (logged Info "Starting URL extraction from paginated hub"
         (logged Info "Scraper request started" seven_item_world)) = (Ok set, w1) /\
    handler URL_pathname URL_resolve Date_parse
      {| urlParam := None; limitParam := None |} seven_item_world =
      (Ok (Batch count (List.length (firstn 5 (sort set))) failed
                 (firstn 5 (sort set)) items errors), w') /\
    List.length (firstn 5 (sort set)) <= 5 /\
    count + failed = List.length (firstn 5 (sort set)).
Proof.
  apply (Limit.default_limit_five URL_pathname URL_resolve Date_parse
           {| urlParam := None; limitParam := None |} seven_item_world).
  - reflexivity.
  - left. reflexivity.
Defined.

(** The five URLs that request processes, of the seven discovered. *)
Example seven_items_five_processed :
  match fst (handler URL_pathname URL_resolve Date_parse
               {| urlParam := None; limitParam := None |} seven_item_world) with
  | Ok (Batch count total failed urls _ _) =>
      urls = [item_url 1; item_url 2; item_url 3; item_url 4; item_url 5] /\
      total = 5 /\ count = 5 /\ failed = 0
  | _ => False
  end.
Proof. vm_compute. repeat split. Qed.

End Examples.

(** * Part IV. Further runs *)

Module Runs.

Import Plain SortFacts Assembler Examples Runner.

(** Clean text on the detail page. *)
Lemma extracted_text_is_clean_witness :
  findFieldValue idle_ec2_page (lit "Cloud Provider") = Some (lit "AWS") /\
  Clean.clean (lit "AWS") /\
  extractSectionParagraph idle_ec2_page (lit "Explanation") =
    Some (lit "Instances that run idle still cost money.") /\
  Paragraph.single_spaced false (lit "Instances that run idle still cost money.").
Proof.
  assert (F : findFieldValue idle_ec2_page (lit "Cloud Provider") = Some (lit "AWS"))
    by (vm_compute; reflexivity).
  assert (P : extractSectionParagraph idle_ec2_page (lit "Explanation") =
              Some (lit "Instances that run idle still cost money."))
    by (vm_compute; reflexivity).
  destruct (Clean.extracted_text_is_clean idle_ec2_page (lit "Cloud Provider")
              (lit "Explanation")) as (Hf & _ & Hp).
  split; [exact F|]. split; [exact (Hf _ F)|]. split; [exact P|].
  exact (proj2 (Hp _ P)).
Defined.

(** Discovery with a limit of five on a page of seven links. *)
Lemma discovery_always_returns_witness :
  exists (urls : list jsstring) (w' : World),
    extractInefficiencyUrls URL_resolve (Some 5%Z) seven_item_world = (Ok urls, w') /\
    (Z.of_nat (List.length urls) <= 5)%Z.
Proof.
  destruct (Traffic.discovery_always_returns URL_resolve (Some 5%Z) seven_item_world)
    as (urls & w' & k & f & E & _ & _ & L & _).
  exists urls, w'. split; [exact E|]. apply (L 5%Z); [reflexivity | lia].
Defined.

(** A reader of request URLs for the requests of these runs: "//" cannot
    be read; what follows "/api/scrape_hub?url=" is the [url] parameter;
    any other request has no parameters. *)
Fixpoint after_prefix (p s : jsstring) : option jsstring :=
  match p, s with
  | [], _ => Some s
  | a :: p', b :: s' => if N.eqb a b then after_prefix p' s' else None
  | _ :: _, [] => None
  end.

Definition URL_query (req_url : jsstring) : option request :=
  if str_eqb req_url (lit "//") then None
  else Some {| urlParam := after_prefix (lit "/api/scrape_hub?url=") req_url;
               limitParam := None |}.

Definition detail_request : jsstring := lit "/api/scrape_hub?url=" ++ detail_url.

(** A request for the detail page is answered after one fetch; a request
    that cannot be read is answered with the unexpected error. *)
Lemma module_exports_answers_witness :
  (exists (resp : http_response) (w' : World),
      module_exports URL_pathname URL_resolve Date_parse URL_query
        detail_request detail_world = (Ok resp, w') /\
      Traffic.single_answer detail_url resp /\
      Traffic.after_steps 1 1 detail_world w') /\
  fst (module_exports URL_pathname URL_resolve Date_parse URL_query
         (lit "//") detail_world) = Ok (Unexpected (lit "Invalid URL")).
Proof.
  split.
  - destruct (Traffic.module_exports_answers URL_pathname URL_resolve Date_parse
                URL_query detail_request detail_world)
      as (resp & w' & E & _ & S & _).
    exists resp, w'. split; [exact E|].
    destruct (S {| urlParam := Some detail_url; limitParam := None |})
      as (_ & _ & A); [vm_compute; reflexivity|].
    apply A; [reflexivity | discriminate].
  - destruct (Traffic.module_exports_answers URL_pathname URL_resolve Date_parse
                URL_query (lit "//") detail_world)
      as (resp & w' & E & U & _).
    rewrite E. destruct U as [-> _]; [vm_compute; reflexivity|]. reflexivity.
Defined.

(** A world in which no page exists. *)
Definition missing_world : World :=
  world_of (fun _ => Ok {| status := 404; statusText := lit "Not Found";
                           parsed := page_of [] |}).

(** A page that does not exist: the error names the URL and the status. *)
Lemma fetchDocument_outcomes_witness :
  exists (e : error) (w' : World),
    fetchDocument detail_url missing_world = (Throw e, w') /\
    name e = lit "Error" /\
    message e = lit "Failed to fetch " ++ detail_url ++ lit ": HTTP 404 Not Found".
Proof.
  destruct (fetchDocument detail_url missing_world) as [[d|e] w'] eqn:F.
  - vm_compute in F. discriminate F.
  - exists e, w'. split; [reflexivity|].
    destruct (Fetching.fetchDocument_outcomes detail_url missing_world) as (_ & _ & H).
    destruct (H e w' F) as (Hn & _ & _ & Hm). split; [exact Hn | exact Hm].
Defined.

(** Mapping a record that is mapped already. *)
Lemma mapToSchema_idempotent_witness :
  exists out : value,
    mapToSchema record_with_path_url detail_world = (Ok out, detail_world) /\
    mapToSchema out detail_world = (Ok out, detail_world).
Proof.
  destruct (proj2 (Schema.mapToSchema_idempotent record_with_path_url detail_world)
              eq_refl) as (out & E & I).
  exists out. split; [exact E | apply I].
Defined.

(** Title and author of the detail page. *)
Lemma title_and_author_witness :
  parseInefficiencyDetail URL_pathname URL_resolve detail_url
    (logged Info "Scraper request started" detail_world) =
    (Ok detail_record, snd detail_outcome) /\
  (get_opt detail_record "author" = VNull \/
   exists a : jsstring,
     get_opt detail_record "author" = VStr a /\ Clean.clean a /\
     ~ In a SECTION_TITLES).
Proof.
  assert (P : parseInefficiencyDetail URL_pathname URL_resolve detail_url
                (logged Info "Scraper request started" detail_world) =
              (Ok detail_record, snd detail_outcome)) by (vm_compute; reflexivity).
  split; [exact P|].
  destruct (Details.title_and_author URL_pathname URL_resolve _ _ _ _ P)
    as (d & _ & _ & A & _).
  exact A.
Defined.

(** A batch request with [limit=3] on a page of seven links. *)
Lemma limit_parameter_witness :
  exists (set urls : list jsstring) (w1 w' : World) (items : list value)
         (errors : option (list error_entry)) (count failed : nat),
    pages_loop URL_resolve MAX_PAGES 1 []
      (logged Info "Starting URL extraction from paginated hub"
         (logged Info "Scraper request started" seven_item_world)) = (Ok set, w1) /\
    handler URL_pathname URL_resolve Date_parse
      {| urlParam := None; limitParam := Some (lit "3") |} seven_item_world =
      (Ok (Batch count (List.length urls) failed urls items errors), w') /\
    urls = firstn 3 (sort set).
Proof.
  destruct (Quota.limit_parameter URL_pathname URL_resolve Date_parse
              {| urlParam := None; limitParam := Some (lit "3") |}
              seven_item_world (lit "3"))
    as (set & w1 & w' & items & errors & count & failed & urls & Hl & Hh & _ & Hn & _);
    [left; reflexivity | reflexivity | discriminate |].
  exists set, urls, w1, w', items, errors, count, failed.
  split; [exact Hl|]. split; [exact Hh|]. exact (Hn 3%N eq_refl).
Defined.

(** The prefix [Recos] gets its slash. *)
Lemma normalizePrefix_closed_witness :
  endsWith (normalizePrefix (lit "Recos")) (lit "/") = true.
Proof.
  destruct (RunnerFacts.normalizePrefix_closed (lit "Recos")) as (_ & _ & H & _).
  apply H. discriminate.
Defined.

(** The command line of a run limited to three items. *)
Definition argv_limit_3 : list jsstring :=
  [lit "node"; lit "scripts/run_scrape_batch.js"; lit "--limit=3"].

Lemma runner_limit_positive_witness :
  parseLimitFromArgs argv_limit_3 = Some 3%Z /\
  exists n : Z,
    request_limit {| urlParam := None; limitParam := Some (lit "3") |} = Some n /\
    (0 < n)%Z.
Proof.
  destruct (RunnerFacts.runner_limit_positive argv_limit_3) as (_ & A & R & _).
  assert (E : parseLimitFromArgs argv_limit_3 = Some 3%Z).
  { apply (A [lit "node"; lit "scripts/run_scrape_batch.js"] [] 3%N);
      [reflexivity | reflexivity | repeat constructor]. }
  split; [exact E|].
  destruct (R {| urlParam := None; limitParam := Some (lit "3") |})
    as (n & Hn & Hpos & _).
  - intros n. rewrite E. intros H. injection H as <-. reflexivity.
  - rewrite E. reflexivity.
  - exists n. split; [exact Hn | exact Hpos].
Defined.

(** The key part of the record of the detail page. *)
Lemma idPart_named_witness :
  idPart detail_record 1 = Ok (lit "idle-ec2").
Proof.
  destruct (RunnerFacts.idPart_named detail_record 1) as (_ & H & _).
  rewrite (H (lit "idle-ec2")); [reflexivity | vm_compute; reflexivity].
Defined.

(** An endpoint that answers with two records, and a store that refuses
    its second call. *)
Definition two_records : value :=
  VObj [ (lit "count", VNum 2);
         (lit "items", VArr [record_with_path_url; record_without_source_url]) ].

Definition endpoint (url : jsstring) : result api_response :=
  Ok {| api_status := 200; api_text := Ok []; api_json := Ok two_records |}.

Definition refusing_store : Bucket :=
  {| calls := 0;
     putObject := fun i _ => if Nat.eqb i 1 then Some (Error (lit "SlowDown")) else None;
     objects := [] |}.


(** *** The earlier variant on the same pages *)

(** The host of a plain http(s) URL, and lower case for the letters A to Z. *)
Definition URL_hostname (url : jsstring) : option jsstring :=
  match after_scheme url with
  | None => None
  | Some rest =>
      match take_until ends_authority rest with
      | [] => None
      | host => Some host
      end
  end.

Definition toLowerCase (s : jsstring) : jsstring :=
  map (fun c => if (65 <=? c) && (c <=? 90) then c + 32 else c)%N s.

(** The links of the detail page, read the earlier way: the guide is
    listed twice. *)
Lemma legacy_links_resolved_witness :
  exists links : list link,
    Legacy.extractDocumentationLinks URL_resolve toLowerCase idle_ec2_page = Ok links /\
    map link_url links =
      [lit "https://hub.pointfive.co/docs/ec2"; lit "https://aws.amazon.com/ec2";
       lit "https://hub.pointfive.co/docs/ec2"] /\
    exists anchors : list node,
      Forall2 (LegacyFacts.entry_for URL_resolve) anchors links.
Proof.
  pose proof (LegacyFacts.legacy_links_resolved URL_resolve toLowerCase idle_ec2_page)
    as H.
  destruct (Legacy.find_heading toLowerCase idle_ec2_page (lit "relevant documentation"))
    as [[h following]|] eqn:F; [|vm_compute in F; discriminate F].
  destruct (Legacy.extractDocumentationLinks URL_resolve toLowerCase idle_ec2_page)
    as [links|e] eqn:E; [|vm_compute in E; discriminate E].
  exists links. split; [reflexivity|]. split.
  - vm_compute in E. injection E as <-. reflexivity.
  - eexists. exact (H links eq_refl).
Defined.

(** The category of the detail page cannot be read the earlier way; the
    signals can. *)
Lemma legacy_text_is_clean_witness :
  Legacy.findFieldValue idle_ec2_page (lit "Service Category") =
    Throw (Legacy.ReferenceError "NodeFilter") /\
  Forall Clean.clean
    (Legacy.extractSectionList toLowerCase idle_ec2_page (lit "Detection")).
Proof.
  destruct (LegacyFacts.legacy_text_is_clean toLowerCase idle_ec2_page
              (lit "Service Category") (lit "Detection")) as (H & L & _).
  split; [exact H | exact L].
Defined.

(** The slug of the detail page is the same in both variants; the site
    root gets the host name in the earlier one. *)
Lemma slug_variants_agree_witness :
  Legacy.slugFromUrl URL_pathname URL_hostname detail_url = Ok (lit "idle-ec2") /\
  Legacy.slugFromUrl URL_pathname URL_hostname root_url = Ok (lit "hub.pointfive.co").
Proof.
  split.
  - rewrite (proj1 (LegacyFacts.slug_variants_agree URL_pathname URL_hostname detail_url)
               (lit "/hub/inefficiencies/idle-ec2/") (lit "hub.pointfive.co"));
      vm_compute; reflexivity.
  - rewrite (proj1 (LegacyFacts.slug_variants_agree URL_pathname URL_hostname root_url)
               (lit "/") (lit "hub.pointfive.co"));
      vm_compute; reflexivity.
Defined.

(** A request without limit on a page of seven links, the earlier way:
    every URL discovered gets an item, a place holder. *)
Lemma legacy_handler_answers_witness :
  exists (urls : list jsstring) (w1 : World),
    Legacy.extractInefficiencyUrls URL_resolve seven_item_world = (Ok urls, w1) /\
    List.length urls = 7 /\
    fst (Legacy.handler URL_pathname URL_hostname URL_resolve toLowerCase None
           seven_item_world) =
      Ok (Legacy.Items 7
            (LegacyFacts.place_holders URL_pathname URL_hostname urls w1)).
Proof.
  pose proof (LegacyFacts.legacy_handler_answers URL_pathname URL_hostname URL_resolve
                toLowerCase None seven_item_world) as H.
  destruct (Legacy.extractInefficiencyUrls URL_resolve seven_item_world)
    as [[urls|e] w1] eqn:D; [|vm_compute in D; discriminate D].
  assert (U : urls = map item_url [1; 2; 3; 4; 5; 6; 7]).
  { vm_compute in D. injection D as <- _. vm_compute. reflexivity. }
  exists urls, w1. split; [reflexivity|].
  destruct H as (Hall & _ & Hitems & _). rewrite (Hall eq_refl) in Hitems.
  split; [rewrite U; reflexivity|].
  rewrite Hitems.
  - rewrite U. reflexivity.
  - rewrite U. repeat constructor; eexists; vm_compute; reflexivity.
Defined.

(** The detail page, parsed the earlier way. *)
Lemma legacy_parse_never_returns_witness :
  Legacy.parseInefficiencyDetail URL_pathname URL_hostname URL_resolve toLowerCase
    detail_url detail_world =
    (Throw (Legacy.ReferenceError "NodeFilter"), advance detail_world).
Proof.
  destruct (LegacyFacts.legacy_parse_never_returns URL_pathname URL_hostname
              URL_resolve toLowerCase detail_url detail_world) as (Hw & He).
  assert (N : exists resp, network detail_world (tick detail_world) detail_url = Ok resp
                           /\ ok resp = true)
    by (eexists; split; vm_compute; reflexivity).
  destruct N as (resp & N & O). rewrite N, O in He.
  destruct (Legacy.parseInefficiencyDetail URL_pathname URL_hostname URL_resolve
              toLowerCase detail_url detail_world) as [r w'].
  cbn [fst snd] in Hw, He. rewrite Hw, He. reflexivity.
Defined.


(** A record with a link that is [null] cannot be validated. *)
Definition record_with_null_link : value :=
  VObj [ (lit "id", VStr (lit "idle-ec2"));
         (lit "title", VStr (lit "Idle EC2 instances"));
         (lit "documentation_links", VArr [VNull]) ].

Lemma validateScrapedData_throws_witness :
  validateScrapedData Date_parse record_with_null_link = Throw TypeError.
Proof.
  pose proof (Rejections.validateScrapedData_throws Date_parse record_with_null_link)
    as H.
  destruct (validateScrapedData Date_parse record_with_null_link) as [v|e].
  - destruct H as (_ & _ & H & _). exfalso. apply (H [VNull]); [reflexivity|].
    constructor. left. reflexivity.
  - destruct H as (-> & _). reflexivity.
Defined.

(** All seven, where the later variant stops at five. *)
Example legacy_seven_items :
  match fst (Legacy.handler URL_pathname URL_hostname URL_resolve toLowerCase None
               seven_item_world) with
  | Ok (Legacy.Items count items) =>
      count = 7 /\ List.length items = 7 /\
      Forall (fun item => get_opt item "error" = VBool true) items
  | _ => False
  end.
Proof. vm_compute. split; [reflexivity|]. split; [reflexivity|]. repeat constructor. Qed.

End Runs.
